(** * WarEra citizenship tracker: API client and tracker view

    A shallow embedding of [src/services/api.ts] (the [WarEraAPI] client) and
    of the script part of [src/views/CitizenshipTracker.vue] (flattening,
    sorting, filtering, grouping and the batch fetch), together with the
    part of the ECMAScript [Date] object the two files rely on. *)

From Stdlib Require Import ZArith Lia Ascii String.
From Stdlib Require OrderedTypeEx.
From stdpp Require Import gmap strings list fin_maps sorting.

(** ** JavaScript values used by the code *)

Module Js.

(** An optional string property: [None] is [undefined]. *)
Definition truthy (o : option string) : bool :=
  match o with
  | Some s => negb (String.eqb s "")
  | None => false
  end.

(** [a || b] on optional strings: the left operand when it is truthy,
    the right operand otherwise (whatever it is). *)
Definition or (a b : option string) : option string :=
  if truthy a then a else b.

(** [a === b] on optional strings. *)
Definition strict_eq (a b : option string) : bool :=
  bool_decide (a = b).

(** ASCII part of [String.prototype.toLowerCase]. *)
Definition lower_ascii (c : ascii) : ascii :=
  let n := nat_of_ascii c in
  if (65 <=? n)%nat && (n <=? 90)%nat then ascii_of_nat (n + 32) else c.

Fixpoint toLowerCase (s : string) : string :=
  match s with
  | EmptyString => EmptyString
  | String c s' => String (lower_ascii c) (toLowerCase s')
  end.

(** [Array.prototype.sort(comparefn)].  A comparator result is a Number,
    [None] for NaN, which the sort reads as [+0].  The sort is stable.  For
    a consistent comparator its result is determined, whatever the
    algorithm: it is the one sorted arrangement that keeps the order of the
    elements that compare equal, computed here by insertion.  For any other
    comparator (one that answers NaN, as the difference of two dates does
    when a date is invalid) the standard leaves the order to the engine;
    the model is one such engine and need not order as V8 does.  What is
    proved of such a sort holds on every engine (that it rearranges, or
    that it equals another sort of the same list by a comparator with the
    same answers), but for one list of three rows that no comparison
    moves, which V8 and SpiderMonkey leave as it is too. *)
Definition SortCompare {A} (comparefn : A → A → option Z) (x y : A) : Z :=
  default 0%Z (comparefn x y).

Fixpoint sort_insert {A} (comparefn : A → A → option Z) (x : A) (l : list A)
    : list A :=
  match l with
  | [] => [x]
  | y :: l' =>
      if (SortCompare comparefn x y <=? 0)%Z then x :: y :: l'
      else y :: sort_insert comparefn x l'
  end.

Fixpoint sort {A} (comparefn : A → A → option Z) (l : list A) : list A :=
  match l with
  | [] => []
  | x :: l' => sort_insert comparefn x (sort comparefn l')
  end.

(** Number subtraction on time values: NaN when an operand is NaN. *)
Definition minus (a b : option Z) : option Z :=
  x ← a; y ← b; Some (x - y)%Z.

(** A [Map] with string keys: its entries in insertion order. *)
Definition Map (V : Type) : Type := list (string * V).

Fixpoint map_get {V} (k : string) (m : Map V) : option V :=
  match m with
  | [] => None
  | (k', v) :: m' => if String.eqb k k' then Some v else map_get k m'
  end.

Definition map_has {V} (k : string) (m : Map V) : bool :=
  match map_get k m with Some _ => true | None => false end.

(** [set] keeps the place of a key that is present and appends a new one. *)
Fixpoint map_set {V} (k : string) (v : V) (m : Map V) : Map V :=
  match m with
  | [] => [(k, v)]
  | (k', v') :: m' =>
      if String.eqb k k' then (k', v) :: m' else (k', v') :: map_set k v m'
  end.

End Js.

(** ** The ECMAScript Date object (ECMA-262, section 21.4)

    A time value is a number of milliseconds since the epoch, or NaN; a
    [Date] is its time value, with [None] for NaN ("Invalid Date"). *)

Module JsDate.

Local Open Scope Z_scope.

Definition Date := option Z.

Definition msPerSecond : Z := 1000.
Definition msPerMinute : Z := 60000.
Definition msPerHour : Z := 3600000.
Definition msPerDay : Z := 86400000.

Definition Day (t : Z) : Z := t / msPerDay.
Definition TimeWithinDay (t : Z) : Z := t mod msPerDay.

Definition InLeapYear_of (y : Z) : bool :=
  (y mod 4 =? 0) && (negb (y mod 100 =? 0) || (y mod 400 =? 0)).

Definition DaysInYear (y : Z) : Z := if InLeapYear_of y then 366 else 365.

Definition DayFromYear (y : Z) : Z :=
  365 * (y - 1970) + (y - 1969) / 4 - (y - 1901) / 100 + (y - 1601) / 400.

Definition TimeFromYear (y : Z) : Z := msPerDay * DayFromYear y.

(** The year that contains day number [d]: the largest [y] with
    [DayFromYear y <= d], found from the mean year length (146097 days in
    400 years) and one step of adjustment. *)
Definition YearFromDay (d : Z) : Z :=
  let y := 1970 + (d * 400) / 146097 in
  if DayFromYear (y + 1) <=? d then y + 1
  else if d <? DayFromYear y then y - 1
  else y.

Definition YearFromTime (t : Z) : Z := YearFromDay (Day t).

Definition InLeapYear (t : Z) : Z :=
  if InLeapYear_of (YearFromTime t) then 1 else 0.

Definition DayWithinYear (t : Z) : Z := Day t - DayFromYear (YearFromTime t).

(** Day number within the year of the first day of month [m] (0..11). *)
Definition monthStart (m leap : Z) : Z :=
  match m with
  | 0 => 0
  | 1 => 31
  | 2 => 59 + leap
  | 3 => 90 + leap
  | 4 => 120 + leap
  | 5 => 151 + leap
  | 6 => 181 + leap
  | 7 => 212 + leap
  | 8 => 243 + leap
  | 9 => 273 + leap
  | 10 => 304 + leap
  | _ => 334 + leap
  end.

Definition MonthFromTime (t : Z) : Z :=
  let d := DayWithinYear t in
  let leap := InLeapYear t in
  if d <? 31 then 0
  else if d <? 59 + leap then 1
  else if d <? 90 + leap then 2
  else if d <? 120 + leap then 3
  else if d <? 151 + leap then 4
  else if d <? 181 + leap then 5
  else if d <? 212 + leap then 6
  else if d <? 243 + leap then 7
  else if d <? 273 + leap then 8
  else if d <? 304 + leap then 9
  else if d <? 334 + leap then 10
  else 11.

Definition DateFromTime (t : Z) : Z :=
  DayWithinYear t - monthStart (MonthFromTime t) (InLeapYear t) + 1.

Definition MakeTime (hour min sec ms : Z) : Z :=
  hour * msPerHour + min * msPerMinute + sec * msPerSecond + ms.

Definition MakeDay (year month date : Z) : Z :=
  let ym := year + month / 12 in
  let mn := month mod 12 in
  DayFromYear ym + monthStart mn (if InLeapYear_of ym then 1 else 0)
  + date - 1.

Definition MakeDate (day time : Z) : Z := day * msPerDay + time.

Definition TimeClip (t : Z) : Date :=
  if Z.abs t <=? 8640000000000000 then Some t else None.

Definition DaysInMonth (year month : Z) : Z :=
  MakeDay year (month + 1) 1 - MakeDay year month 1.

(** [getTime] and the relational operators on Dates, which compare time
    values as Numbers: any comparison with NaN is false. *)
Definition getTime (d : Date) : option Z := d.

Definition ge (a b : Date) : bool :=
  match a, b with
  | Some x, Some y => y <=? x
  | _, _ => false
  end.

Definition le (a b : Date) : bool :=
  match a, b with
  | Some x, Some y => x <=? y
  | _, _ => false
  end.

Definition isNaN (t : option Z) : bool :=
  match t with Some _ => false | None => true end.

(** *** Local time

    [LocalTZA t isUTC] is the offset of the local time zone in
    milliseconds, at UTC time [t] when [isUTC] and at local time [t]
    otherwise; it belongs to the host.  The parsing of strings that are not
    in the Date Time String Format is left to the host too
    ([legacyParse]). *)

Section Zone.

Variable LocalTZA : Z → bool → Z.
Variable legacyParse : string → option Z.

Definition LocalTime (t : Z) : Z := t + LocalTZA t true.
Definition UTC (t : Z) : Z := t - LocalTZA t false.

(** [Date.prototype.getDate] (NaN for an invalid date). *)
Definition getDate (d : Date) : option Z :=
  t ← d; Some (DateFromTime (LocalTime t)).

(** [Date.prototype.setDate]: the new time value. *)
Definition setDate (d : Date) (date : option Z) : Date :=
  match d, date with
  | Some t, Some dt =>
      let t := LocalTime t in
      let newDate :=
        MakeDate (MakeDay (YearFromTime t) (MonthFromTime t) dt)
                 (TimeWithinDay t) in
      TimeClip (UTC newDate)
  | _, _ => None
  end.

(** [Date.prototype.setHours(hour, min, sec, ms)]: the new time value. *)
Definition setHours (d : Date) (hour min sec ms : Z) : Date :=
  match d with
  | Some t =>
      let t := LocalTime t in
      let date := MakeDate (Day t) (MakeTime hour min sec ms) in
      TimeClip (UTC date)
  | None => None
  end.

(** *** The Date Time String Format: [YYYY-MM-DDTHH:mm:ss.sssZ] *)

Definition digit (c : ascii) : option Z :=
  let n := Z.of_nat (nat_of_ascii c) in
  if (48 <=? n) && (n <=? 57) then Some (n - 48) else None.

Fixpoint digits (n : nat) (s : string) (acc : Z) : option (Z * string) :=
  match n with
  | O => Some (acc, s)
  | S n' =>
      match s with
      | String c s' => d ← digit c; digits n' s' (10 * acc + d)
      | EmptyString => None
      end
  end.

Definition expect (c : ascii) (s : string) : option string :=
  match s with
  | String c' s' => if Ascii.eqb c c' then Some s' else None
  | EmptyString => None
  end.

Definition starts_with (c : ascii) (s : string) : bool :=
  match s with
  | String c' _ => Ascii.eqb c c'
  | EmptyString => false
  end.

(** Four digits, or a sign and six digits (-000000 is not a year). *)
Definition parse_year (s : string) : option (Z * string) :=
  match s with
  | String "+" s' => digits 6 s' 0
  | String "-" s' =>
      '(y, r) ← digits 6 s' 0; if y =? 0 then None else Some (- y, r)
  | _ => digits 4 s 0
  end.

(** [YYYY], [YYYY-MM] or [YYYY-MM-DD]: year, month (1..12), day. *)
Definition parse_date (s : string) : option (Z * Z * Z * string) :=
  '(y, r) ← parse_year s;
  if starts_with "-" r then
    r ← expect "-" r;
    '(m, r) ← digits 2 r 0;
    if starts_with "-" r then
      r ← expect "-" r;
      '(d, r) ← digits 2 r 0;
      Some (y, m, d, r)
    else Some (y, m, 1, r)
  else Some (y, 1, 1, r).

(** [THH:mm], [THH:mm:ss] or [THH:mm:ss.sss]. *)
Definition parse_time (s : string) : option (Z * Z * Z * Z * string) :=
  r ← expect "T" s;
  '(h, r) ← digits 2 r 0;
  r ← expect ":" r;
  '(mi, r) ← digits 2 r 0;
  if starts_with ":" r then
    r ← expect ":" r;
    '(sec, r) ← digits 2 r 0;
    if starts_with "." r then
      r ← expect "." r;
      '(ms, r) ← digits 3 r 0;
      Some (h, mi, sec, ms, r)
    else Some (h, mi, sec, 0, r)
  else Some (h, mi, 0, 0, r).

(** The UTC offset that ends a date-time form: absent ([None], local
    time), [Z], or [+HH:mm] / [-HH:mm], in milliseconds. *)
Definition parse_offset (s : string) : option (option Z) :=
  match s with
  | EmptyString => Some None
  | String "Z" EmptyString => Some (Some 0)
  | String sign r =>
      sg ← (if Ascii.eqb sign "+" then Some 1
            else if Ascii.eqb sign "-" then Some (-1) else None);
      '(h, r) ← digits 2 r 0;
      r ← expect ":" r;
      '(mi, r) ← digits 2 r 0;
      match r with
      | EmptyString =>
          if (h <=? 23) && (mi <=? 59)
          then Some (Some (sg * (h * msPerHour + mi * msPerMinute)))
          else None
      | _ => None
      end
  end.

Definition legal_date (y m d : Z) : bool :=
  (1 <=? m) && (m <=? 12) && (1 <=? d) && (d <=? DaysInMonth y (m - 1)).

Definition legal_time (h mi sec ms : Z) : bool :=
  (mi <=? 59) && (sec <=? 59)
  && ((h <=? 23) || ((h =? 24) && (mi =? 0) && (sec =? 0) && (ms =? 0))).

(** The time value of a string in the format with legal element values;
    [None] when the string is not such a string.  A date-only form is UTC,
    a date-time form without offset is local time. *)
Definition parse_iso (s : string) : option Z :=
  '(y, m, d, r) ← parse_date s;
  if negb (legal_date y m d) then None
  else
    let day := MakeDay y (m - 1) d in
    match r with
    | EmptyString => Some (MakeDate day 0)
    | _ =>
        '(h, mi, sec, ms, r) ← parse_time r;
        off ← parse_offset r;
        if negb (legal_time h mi sec ms) then None
        else
          let t := MakeDate day (MakeTime h mi sec ms) in
          match off with
          | Some o => Some (t - o)
          | None => Some (UTC t)
          end
    end.

(** [Date.parse]: the format first, the host's own parser for any other
    string; the empty string is not recognised by any host (NaN). *)
Definition parse (s : string) : option Z :=
  match parse_iso s with
  | Some t => Some t
  | None => if String.eqb s "" then None else legacyParse s
  end.

(** [new Date(s)] for a string [s], and [new Date()] when the clock of
    the host reads [now]. *)
Definition of_string (s : string) : Date := t ← parse s; TimeClip t.

Definition of_now (now : Z) : Date := Some now.

End Zone.

End JsDate.

(** ** Asynchronous code as state passing

    Every [await] of the program waits for the one call it has just made,
    so an [async] function is a state transformer that returns a value or
    throws; the state is threaded through the calls in program order. *)

Module Eff.

(** What a [throw] carries: an [Error] built by the program itself, or the
    rejection of a request ([axios.get] failed, or its response had no
    [data.result.data] to read).  Both have a [message]. *)
Inductive Thrown :=
| ErrorObject (message : string)
| RequestFailure (message : string).

Definition message (e : Thrown) : string :=
  match e with
  | ErrorObject m => m
  | RequestFailure m => m
  end.

Inductive Outcome (A : Type) :=
| Return (a : A)
| Throw (e : Thrown).

Arguments Return {A} a.
Arguments Throw {A} e.

Definition M (S A : Type) : Type := S → Outcome A * S.

Definition ret {S A} (a : A) : M S A := λ s, (Return a, s).

Definition throw {S A} (e : Thrown) : M S A := λ s, (Throw e, s).

Definition bind {S A B} (m : M S A) (k : A → M S B) : M S B :=
  λ s, match m s with
       | (Return a, s') => k a s'
       | (Throw e, s') => (Throw e, s')
       end.

Definition get {S} : M S S := λ s, (Return s, s).

Definition modify {S} (f : S → S) : M S unit := λ s, (Return tt, f s).

(** [try { m } catch (e) { h e }] *)
Definition try_catch {S A} (m : M S A) (h : Thrown → M S A) : M S A :=
  λ s, match m s with
       | (Return a, s') => (Return a, s')
       | (Throw e, s') => h e s'
       end.

(** [try { m } finally { f }] where [f] does not throw *)
Definition finally {S A} (m : M S A) (f : S → S) : M S A :=
  λ s, let '(o, s') := m s in (o, f s').

(** A computation on a part of the state. *)
Definition lift {S T A} (proj : T → S) (inj : S → T → T) (m : M S A) : M T A :=
  λ t, let '(o, s') := m (proj t) in (o, inj s' t).

(** [for (const x of l) { body x }] *)
Fixpoint for_of {S A} (l : list A) (body : A → M S unit) : M S unit :=
  match l with
  | [] => ret tt
  | x :: l' => bind (body x) (λ _, for_of l' body)
  end.

End Eff.

Notation "'let!' x ':=' m 'in' k" := (Eff.bind m (λ x, k))
  (at level 10, x pattern, m at level 100, k at level 200,
   format "'[v' 'let!'  x  ':='  m  'in' '/' k ']'").
Notation "'do!' m 'in' k" := (Eff.bind m (λ _, k))
  (at level 10, m at level 100, k at level 200,
   format "'[v' 'do!'  m  'in' '/' k ']'").

(** ** The API client: [src/services/api.ts] *)

Module Api.

Import Eff.

Record Country := {
  country_id : string;                (* _id *)
  name : string;
  code : option string;
  flagUrl : option string
}.

(** A user record as the upstream sends it; [lastConnectionAt] is
    [dates?.lastConnectionAt], and [active] is the field the client adds. *)
Record UserLite := {
  user_id : string;                   (* _id *)
  username : string;
  lastConnectionAt : option string;
  active : option bool
}.

Record ChangeData := {
  action : option string;
  fromCountryId : option string;
  toCountryId : option string;
  reason : option string;
  from : option string;
  to : option string;
  fromCountryName : option string;
  toCountryName : option string
}.

(** The interface declares [createdAt] a string; the record is unchecked
    JSON and the view guards against its absence, so it is optional here. *)
Record CitizenshipChange := {
  change_id : string;                 (* _id *)
  user : string;
  country : string;
  createdAt : option string;
  updatedAt : option string;
  timestamp : option string;
  data : option ChangeData
}.

Record ActionLogResponse := {
  log_items : option (list CitizenshipChange);
  log_nextCursor : option string
}.

Record UsersResponse := {
  users_items : option (list UserLite);
  users_nextCursor : option string
}.

(** The [input] object of a request, which [buildUrl] serialises into the
    query string. *)
Inductive Input :=
| InCountry (countryId : string)
| InEmpty
| InUsers (countryId cursor : string) (limit : Z)
| InUser (userId : string)
| InActionLog (limit : Z) (userId actionType direction cursor : string).

Record Url := { endpoint : string; input : Input }.

(** A GET request: its URL and its [Authorization] header, if any. *)
Record Request := { url : Url; authorization : option string }.

#[global] Instance Country_eq_dec : EqDecision Country.
Proof. solve_decision. Defined.
#[global] Instance Input_eq_dec : EqDecision Input.
Proof. solve_decision. Defined.
#[global] Instance Url_eq_dec : EqDecision Url.
Proof. solve_decision. Defined.
#[global] Instance Request_eq_dec : EqDecision Request.
Proof. solve_decision. Defined.

(** What the client depends on: the upstream service and the host.  An
    answer may depend on everything requested so far; it is the
    [response.data.result.data] of a request, or the message of the
    failure.  The host gives the reading of the clock and
    [String.prototype.toLowerCase]. *)
Record Upstream := {
  country_data : list Request → Request → string + Country;
  countries_data : list Request → Request → string + list Country;
  users_data : list Request → Request → string + UsersResponse;
  user_data : list Request → Request → string + UserLite;
  actionLog_data : list Request → Request → string + ActionLogResponse;
  clock : list Request → Z;
  toLowerCase : string → string
}.

(** The client object, the requests sent so far and the console. *)
Record World := {
  authToken : string;
  countryCache : gmap string Country;
  requests : list Request;
  console : list (string * Thrown)
}.

Definition initial : World :=
  {| authToken := ""; countryCache := ∅; requests := []; console := [] |}.

Definition with_authToken (t : string) (w : World) : World :=
  {| authToken := t; countryCache := countryCache w;
     requests := requests w; console := console w |}.

Definition with_countryCache (c : gmap string Country) (w : World) : World :=
  {| authToken := authToken w; countryCache := c;
     requests := requests w; console := console w |}.

Definition with_requests (r : list Request) (w : World) : World :=
  {| authToken := authToken w; countryCache := countryCache w;
     requests := r; console := console w |}.

Definition with_console (c : list (string * Thrown)) (w : World) : World :=
  {| authToken := authToken w; countryCache := countryCache w;
     requests := requests w; console := c |}.

Definition with_flagUrl (f : option string) (c : Country) : Country :=
  {| country_id := country_id c; name := name c; code := code c;
     flagUrl := f |}.

Definition with_active (b : bool) (u : UserLite) : UserLite :=
  {| user_id := user_id u; username := username u;
     lastConnectionAt := lastConnectionAt u; active := Some b |}.

Definition console_error (msg : string) (e : Thrown) : M World unit :=
  modify (λ w, with_console (console w ++ [(msg, e)]) w).

Section Client.

Variable LocalTZA : Z → bool → Z.
Variable legacyParse : string → option Z.
Variable upstream : Upstream.

(** [await axios.get(url, { headers })] followed by the read of
    [response.data.result.data]. *)
Definition axios_get {A} (answer : list Request → Request → string + A)
    (u : Url) (auth : option string) : M World A :=
  λ w, let req := {| url := u; authorization := auth |} in
       let w' := with_requests (requests w ++ [req]) w in
       match answer (requests w) req with
       | inl msg => (Throw (RequestFailure msg), w')
       | inr a => (Return a, w')
       end.

Definition buildUrl (endpoint : string) (input : Input) : Url :=
  {| endpoint := endpoint; input := input |}.

Definition setAuthToken (token : string) : M World unit :=
  modify (with_authToken token).

Definition getCountryFromCache (countryId : string) : M World (option Country) :=
  let! w := get in ret (countryCache w !! countryId).

Definition flag_of (c : string) : string :=
  "https://flagcdn.com/w40/" +:+ toLowerCase upstream c +:+ ".png".

Definition add_flag (country : Country) : Country :=
  match code country with
  | Some c => if Js.truthy (Some c)
              then with_flagUrl (Some (flag_of c)) country
              else country
  | None => country
  end.

Definition getCountryById (countryId : string) : M World (option Country) :=
  let! w := get in
  match countryCache w !! countryId with
  | Some c => ret (Some c)
  | None =>
      try_catch
        (let input := InCountry countryId in
         let url := buildUrl "country.getCountryById" input in
         let! country := axios_get (country_data upstream) url None in
         let country := add_flag country in
         do! modify (λ w, with_countryCache
                            (<[countryId := country]> (countryCache w)) w) in
         ret (Some country))
        (λ error,
           do! console_error ("Error fetching country " +:+ countryId +:+ ":")
                             error in
           ret None)
  end.

Definition getUsersByCountry (countryId cursor : string) (limit : Z)
    : M World UsersResponse :=
  let input := InUsers countryId cursor limit in
  let url := buildUrl "user.getUsersByCountry" input in
  axios_get (users_data upstream) url None.

(** The cut-off of [getUserLite]: [new Date()] moved back by
    [setDate(getDate() - 10)]. *)
Definition tenDaysAgo (now : Z) : JsDate.Date :=
  let d := JsDate.of_now now in
  JsDate.setDate LocalTZA d (x ← JsDate.getDate LocalTZA d; Some (x - 10)%Z).

Definition getUserLite (userId : string) : M World UserLite :=
  let input := InUser userId in
  let url := buildUrl "user.getUserLite" input in
  let! userData := axios_get (user_data upstream) url None in
  let! w := get in
  match lastConnectionAt userData with
  | Some s =>
      if Js.truthy (Some s) then
        let lastPlayedDate := JsDate.of_string LocalTZA legacyParse s in
        let cutoff := tenDaysAgo (clock upstream (requests w)) in
        ret (with_active (JsDate.ge lastPlayedDate cutoff) userData)
      else ret (with_active false userData)
  | None => ret (with_active false userData)
  end.

Definition getCitizenshipChanges (userId cursor : string)
    : M World ActionLogResponse :=
  let! w := get in
  if negb (Js.truthy (Some (authToken w))) then
    throw (ErrorObject "Authorization token is required for this operation")
  else
    let input := InActionLog 100 userId "changedCitizenship" "forward" cursor in
    let url := buildUrl "actionLog.getPaginated" input in
    axios_get (actionLog_data upstream) url (Some (authToken w)).

(** The body of the [forEach] of [getAllCountries]. *)
Definition cache_all (countries : list Country) (cache : gmap string Country)
    : gmap string Country :=
  foldl (λ m c, <[country_id c := c]> m) cache countries.

Definition getAllCountries : M World (list Country) :=
  try_catch
    (let input := InEmpty in
     let url := buildUrl "country.getAllCountries" input in
     let! countries := axios_get (countries_data upstream) url None in
     let countries := add_flag <$> countries in
     do! modify (λ w, with_countryCache
                        (cache_all countries (countryCache w)) w) in
     ret countries)
    (λ error,
       do! console_error "Error fetching countries:" error in
       ret []).

End Client.

(** *** The requests of the client *)

Definition changes_request (token userId cursor : string) : Request :=
  {| url := {| endpoint := "actionLog.getPaginated";
               input := InActionLog 100 userId "changedCitizenship"
                                    "forward" cursor |};
     authorization := Some token |}.

Definition country_request (countryId : string) : Request :=
  {| url := {| endpoint := "country.getCountryById";
               input := InCountry countryId |};
     authorization := None |}.

Definition user_request (userId : string) : Request :=
  {| url := {| endpoint := "user.getUserLite"; input := InUser userId |};
     authorization := None |}.

Definition countries_request : Request :=
  {| url := {| endpoint := "country.getAllCountries"; input := InEmpty |};
     authorization := None |}.

Definition roster_request (countryId : string) : Request :=
  {| url := {| endpoint := "user.getUsersByCountry";
               input := InUsers countryId "" 100 |};
     authorization := None |}.

(** *** The operations of the client *)

Inductive Operation :=
| GetCountryById (countryId : string)
| GetAllCountries
| GetCountryFromCache (countryId : string)
| SetAuthToken (token : string)
| GetUsersByCountry (countryId cursor : string) (limit : Z)
| GetUserLite (userId : string)
| GetCitizenshipChanges (userId cursor : string).

Section Operations.

Variable LocalTZA : Z → bool → Z.
Variable legacyParse : string → option Z.
Variable upstream : Upstream.

(** The world after an operation, whatever it returns or throws. *)
Definition after (op : Operation) (w : World) : World :=
  match op with
  | GetCountryById c => (getCountryById upstream c w).2
  | GetAllCountries => (getAllCountries upstream w).2
  | GetCountryFromCache c => (getCountryFromCache c w).2
  | SetAuthToken t => (setAuthToken t w).2
  | GetUsersByCountry c cur l => (getUsersByCountry upstream c cur l w).2
  | GetUserLite u => (getUserLite LocalTZA legacyParse upstream u w).2
  | GetCitizenshipChanges u cur => (getCitizenshipChanges upstream u cur w).2
  end.

End Operations.

End Api.

(** ** The tracker view: [src/views/CitizenshipTracker.vue] *)

Module View.

Import Eff.

Record PlayerData := {
  user : Api.UserLite;
  citizenshipChanges : list Api.CitizenshipChange;
  player_loading : bool;              (* loading *)
  player_error : option string        (* error *)
}.

Record FlattenedChange := {
  username : string;
  userId : string;
  change : Api.CitizenshipChange;
  fromCountryId : option string;
  toCountryId : option string;
  date : JsDate.Date
}.

Record Progress := { current : Z; total : Z }.

Record Stats := { stats_total : Z; stats_active : Z; stats_inactive : Z }.

Inductive SortOrder := asc | desc.

Inductive ViewMode := detailed | overview.

(** The refs of the component. *)
Record Refs := {
  authToken : string;
  countries : list Api.Country;
  selectedCountryId : string;
  loading : bool;
  loadingCountries : bool;
  players : list PlayerData;
  error : string;
  progress : Progress;
  stats : Stats;
  sortOrder : SortOrder;
  viewMode : ViewMode;
  filterSourceCountryId : string;
  filterDestinationCountryId : string;
  filterStartDate : string;
  filterEndDate : string
}.

Definition initial_refs : Refs :=
  {| authToken := ""; countries := []; selectedCountryId := "";
     loading := false; loadingCountries := false; players := [];
     error := ""; progress := {| current := 0; total := 0 |};
     stats := {| stats_total := 0; stats_active := 0; stats_inactive := 0 |};
     sortOrder := desc; viewMode := overview;
     filterSourceCountryId := ""; filterDestinationCountryId := "";
     filterStartDate := ""; filterEndDate := "" |}.

Record Group := {
  group_username : string;            (* username *)
  group_userId : string;              (* userId *)
  changes : list FlattenedChange
}.

(** *** Computed values *)

Section Computed.

Variable LocalTZA : Z → bool → Z.
Variable legacyParse : string → option Z.
Variable toLocaleDateString : Z → string.

Definition new_Date (s : string) : JsDate.Date :=
  JsDate.of_string LocalTZA legacyParse s.

(** The object pushed for one [change] of one [player]. *)
Definition flatten_change (player : PlayerData) (change : Api.CitizenshipChange)
    : FlattenedChange :=
  {| username := Api.username (user player);
     userId := Api.user_id (user player);
     change := change;
     fromCountryId :=
       Js.or (d ← Api.data change; Api.fromCountryId d)
             (d ← Api.data change; Api.from d);
     toCountryId :=
       Js.or (d ← Api.data change; Api.toCountryId d)
             (d ← Api.data change; Api.to d);
     date :=
       new_Date (default "" (Js.or (Js.or (Api.createdAt change)
                                          (Api.timestamp change))
                                   (Some ""))) |}.

(** The two nested [forEach] loops of [allChanges]. *)
Definition flatten (players : list PlayerData) : list FlattenedChange :=
  player ← players; flatten_change player <$> citizenshipChanges player.

Definition compareFn (sortOrder : SortOrder) (a b : FlattenedChange)
    : option Z :=
  match sortOrder with
  | desc => Js.minus (JsDate.getTime (date b)) (JsDate.getTime (date a))
  | asc => Js.minus (JsDate.getTime (date a)) (JsDate.getTime (date b))
  end.

Definition allChanges (players : list PlayerData) (sortOrder : SortOrder)
    : list FlattenedChange :=
  Js.sort (compareFn sortOrder) (flatten players).

Definition filteredChanges (allChanges : list FlattenedChange)
    (filterSourceCountryId filterDestinationCountryId
     filterStartDate filterEndDate : string) : list FlattenedChange :=
  let changes := allChanges in
  let changes :=
    if Js.truthy (Some filterSourceCountryId) then
      filter (λ change, Js.strict_eq (fromCountryId change)
                                     (Some filterSourceCountryId)) changes
    else changes in
  let changes :=
    if Js.truthy (Some filterDestinationCountryId) then
      filter (λ change, Js.strict_eq (toCountryId change)
                                     (Some filterDestinationCountryId)) changes
    else changes in
  let changes :=
    if Js.truthy (Some filterStartDate) then
      let startDate := new_Date filterStartDate in
      let startDate := JsDate.setHours LocalTZA startDate 0 0 0 0 in
      filter (λ change, JsDate.ge (date change) startDate) changes
    else changes in
  let changes :=
    if Js.truthy (Some filterEndDate) then
      let endDate := new_Date filterEndDate in
      let endDate := JsDate.setHours LocalTZA endDate 23 59 59 999 in
      filter (λ change, JsDate.le (date change) endDate) changes
    else changes in
  changes.

(** The body of the [forEach] of [groupedChanges]; [None] is the
    [TypeError] of a [push] on [undefined]. *)
Definition group_step (groups : Js.Map (list FlattenedChange))
    (change : FlattenedChange) : option (Js.Map (list FlattenedChange)) :=
  let groups :=
    if negb (Js.map_has (username change) groups)
    then Js.map_set (username change) [] groups
    else groups in
  arr ← Js.map_get (username change) groups;
  Some (Js.map_set (username change) (arr ++ [change]) groups).

Fixpoint group_all (groups : Js.Map (list FlattenedChange))
    (l : list FlattenedChange) : option (Js.Map (list FlattenedChange)) :=
  match l with
  | [] => Some groups
  | change :: l' => groups ← group_step groups change; group_all groups l'
  end.

(** The arrow function mapped over the entries; [None] is the [TypeError]
    of reading [userId] of [changes[0]] when there is none. *)
Definition group_of (entry : string * list FlattenedChange) : option Group :=
  let '(username, changes) := entry in
  first ← head changes;
  Some {| group_username := username; group_userId := userId first;
          changes := changes |}.

Definition groupedChanges (filteredChanges : list FlattenedChange)
    : option (list Group) :=
  groups ← group_all [] filteredChanges;
  mapM group_of groups.

Definition toggleSort (sortOrder : SortOrder) : SortOrder :=
  match sortOrder with desc => asc | asc => desc end.

Definition formatDate (date : JsDate.Date) : string :=
  if JsDate.isNaN (JsDate.getTime date) then "Invalid date"
  else match date with
       | Some t => toLocaleDateString t
       | None => "Invalid date"
       end.

End Computed.

(** *** The fetch

    The component's refs, the API client with its world, and the states of
    the refs that a render can see: the ones at each [await]. *)

Record App := {
  refs : Refs;
  world : Api.World;
  observed : list Refs
}.

Definition initial : App :=
  {| refs := initial_refs; world := Api.initial; observed := [] |}.

Definition with_refs (r : Refs) (a : App) : App :=
  {| refs := r; world := world a; observed := observed a |}.

Definition with_world (w : Api.World) (a : App) : App :=
  {| refs := refs a; world := w; observed := observed a |}.

Definition observe (a : App) : App :=
  {| refs := refs a; world := world a; observed := observed a ++ [refs a] |}.

Definition set_authToken (v : string) (r : Refs) : Refs :=
  {| authToken := v; countries := countries r;
     selectedCountryId := selectedCountryId r; loading := loading r;
     loadingCountries := loadingCountries r; players := players r;
     error := error r; progress := progress r; stats := stats r;
     sortOrder := sortOrder r; viewMode := viewMode r;
     filterSourceCountryId := filterSourceCountryId r;
     filterDestinationCountryId := filterDestinationCountryId r;
     filterStartDate := filterStartDate r; filterEndDate := filterEndDate r |}.

Definition set_countries (v : list Api.Country) (r : Refs) : Refs :=
  {| authToken := authToken r; countries := v;
     selectedCountryId := selectedCountryId r; loading := loading r;
     loadingCountries := loadingCountries r; players := players r;
     error := error r; progress := progress r; stats := stats r;
     sortOrder := sortOrder r; viewMode := viewMode r;
     filterSourceCountryId := filterSourceCountryId r;
     filterDestinationCountryId := filterDestinationCountryId r;
     filterStartDate := filterStartDate r; filterEndDate := filterEndDate r |}.

Definition set_selectedCountryId (v : string) (r : Refs) : Refs :=
  {| authToken := authToken r; countries := countries r;
     selectedCountryId := v; loading := loading r;
     loadingCountries := loadingCountries r; players := players r;
     error := error r; progress := progress r; stats := stats r;
     sortOrder := sortOrder r; viewMode := viewMode r;
     filterSourceCountryId := filterSourceCountryId r;
     filterDestinationCountryId := filterDestinationCountryId r;
     filterStartDate := filterStartDate r; filterEndDate := filterEndDate r |}.

Definition set_loading (v : bool) (r : Refs) : Refs :=
  {| authToken := authToken r; countries := countries r;
     selectedCountryId := selectedCountryId r; loading := v;
     loadingCountries := loadingCountries r; players := players r;
     error := error r; progress := progress r; stats := stats r;
     sortOrder := sortOrder r; viewMode := viewMode r;
     filterSourceCountryId := filterSourceCountryId r;
     filterDestinationCountryId := filterDestinationCountryId r;
     filterStartDate := filterStartDate r; filterEndDate := filterEndDate r |}.

Definition set_loadingCountries (v : bool) (r : Refs) : Refs :=
  {| authToken := authToken r; countries := countries r;
     selectedCountryId := selectedCountryId r; loading := loading r;
     loadingCountries := v; players := players r;
     error := error r; progress := progress r; stats := stats r;
     sortOrder := sortOrder r; viewMode := viewMode r;
     filterSourceCountryId := filterSourceCountryId r;
     filterDestinationCountryId := filterDestinationCountryId r;
     filterStartDate := filterStartDate r; filterEndDate := filterEndDate r |}.

Definition set_players (v : list PlayerData) (r : Refs) : Refs :=
  {| authToken := authToken r; countries := countries r;
     selectedCountryId := selectedCountryId r; loading := loading r;
     loadingCountries := loadingCountries r; players := v;
     error := error r; progress := progress r; stats := stats r;
     sortOrder := sortOrder r; viewMode := viewMode r;
     filterSourceCountryId := filterSourceCountryId r;
     filterDestinationCountryId := filterDestinationCountryId r;
     filterStartDate := filterStartDate r; filterEndDate := filterEndDate r |}.

Definition set_error (v : string) (r : Refs) : Refs :=
  {| authToken := authToken r; countries := countries r;
     selectedCountryId := selectedCountryId r; loading := loading r;
     loadingCountries := loadingCountries r; players := players r;
     error := v; progress := progress r; stats := stats r;
     sortOrder := sortOrder r; viewMode := viewMode r;
     filterSourceCountryId := filterSourceCountryId r;
     filterDestinationCountryId := filterDestinationCountryId r;
     filterStartDate := filterStartDate r; filterEndDate := filterEndDate r |}.

Definition set_progress (v : Progress) (r : Refs) : Refs :=
  {| authToken := authToken r; countries := countries r;
     selectedCountryId := selectedCountryId r; loading := loading r;
     loadingCountries := loadingCountries r; players := players r;
     error := error r; progress := v; stats := stats r;
     sortOrder := sortOrder r; viewMode := viewMode r;
     filterSourceCountryId := filterSourceCountryId r;
     filterDestinationCountryId := filterDestinationCountryId r;
     filterStartDate := filterStartDate r; filterEndDate := filterEndDate r |}.

Definition set_stats (v : Stats) (r : Refs) : Refs :=
  {| authToken := authToken r; countries := countries r;
     selectedCountryId := selectedCountryId r; loading := loading r;
     loadingCountries := loadingCountries r; players := players r;
     error := error r; progress := progress r; stats := v;
     sortOrder := sortOrder r; viewMode := viewMode r;
     filterSourceCountryId := filterSourceCountryId r;
     filterDestinationCountryId := filterDestinationCountryId r;
     filterStartDate := filterStartDate r; filterEndDate := filterEndDate r |}.

Definition set_sortOrder (v : SortOrder) (r : Refs) : Refs :=
  {| authToken := authToken r; countries := countries r;
     selectedCountryId := selectedCountryId r; loading := loading r;
     loadingCountries := loadingCountries r; players := players r;
     error := error r; progress := progress r; stats := stats r;
     sortOrder := v; viewMode := viewMode r;
     filterSourceCountryId := filterSourceCountryId r;
     filterDestinationCountryId := filterDestinationCountryId r;
     filterStartDate := filterStartDate r; filterEndDate := filterEndDate r |}.

(** An assignment to a ref, or to a property of its value. *)
Definition assign (f : Refs → Refs) : M App unit :=
  modify (λ a, with_refs (f (refs a)) a).

(** [playerData], the object pushed last, seen through [players]. *)
Definition update_playerData (f : PlayerData → PlayerData)
    (l : list PlayerData) : list PlayerData :=
  match reverse l with
  | [] => []
  | p :: l' => reverse (f p :: l')
  end.

(** What the operator does on the page. *)
Inductive Event :=
| Mount
| TypeToken (value : string)
| SelectCountry (countryId : string)
| ClickFetch
| ClickSort.

Section Fetch.

Variable LocalTZA : Z → bool → Z.
Variable legacyParse : string → option Z.
Variable upstream : Api.Upstream.

(** [await m] for a call [m] of the API client: the refs can be seen while
    the call is pending. *)
Definition await {A} (m : M Api.World A) : M App A :=
  do! modify observe in lift world with_world m.

Definition handleAuthTokenChange (value : string) : M App unit :=
  do! assign (set_authToken value) in
  lift world with_world (Api.setAuthToken value).

(** The statements of the [for] loop for one [user] of the roster. *)
Definition process_user (user : Api.UserLite) : M App unit :=
  do! assign (λ r, set_progress
                     {| current := current (progress r) + 1;
                        total := total (progress r) |} r) in
  try_catch
    (let! userLite :=
       await (Api.getUserLite LocalTZA legacyParse upstream
                              (Api.user_id user)) in
     if negb (default false (Api.active userLite)) then
       assign (λ r, set_stats
                      {| stats_total := stats_total (stats r);
                         stats_active := stats_active (stats r);
                         stats_inactive := stats_inactive (stats r) + 1 |} r)
     else
       do! assign (λ r, set_stats
                          {| stats_total := stats_total (stats r);
                             stats_active := stats_active (stats r) + 1;
                             stats_inactive := stats_inactive (stats r) |} r) in
       let playerData :=
         {| user := userLite; citizenshipChanges := [];
            player_loading := true; player_error := None |} in
       do! assign (λ r, set_players (players r ++ [playerData]) r) in
       try_catch
         (let! changesResponse :=
            await (Api.getCitizenshipChanges upstream (Api.user_id user) "") in
          assign (λ r, set_players
                         (update_playerData
                            (λ p, {| user := View.user p;
                                     citizenshipChanges :=
                                       default [] (Api.log_items changesResponse);
                                     player_loading := false;
                                     player_error := player_error p |})
                            (players r)) r))
         (λ err,
            assign (λ r, set_players
                           (update_playerData
                              (λ p, {| user := View.user p;
                                       citizenshipChanges := citizenshipChanges p;
                                       player_loading := false;
                                       player_error :=
                                         Some ("Failed to load citizenship changes: "
                                               +:+ message err) |})
                              (players r)) r)))
    (λ err,
       lift world with_world
            (Api.console_error
               ("Error fetching user " +:+ Api.user_id user +:+ ":") err)).

Definition fetchPlayersAndChanges : M App unit :=
  let! a := get in
  if negb (Js.truthy (Some (selectedCountryId (refs a)))) then
    assign (set_error "Please select a country")
  else if negb (Js.truthy (Some (authToken (refs a)))) then
    assign (set_error "Please enter an authorization token")
  else
    do! assign (set_loading true) in
    do! assign (set_error "") in
    do! assign (set_players []) in
    do! assign (set_progress {| current := 0; total := 0 |}) in
    do! assign (set_stats {| stats_total := 0; stats_active := 0;
                             stats_inactive := 0 |}) in
    finally
      (try_catch
         (let! usersResponse :=
            await (Api.getUsersByCountry upstream
                     (selectedCountryId (refs a)) "" 100) in
          let allUsers := default [] (Api.users_items usersResponse) in
          do! assign (λ r, set_progress
                             {| current := current (progress r);
                                total := Z.of_nat (length allUsers) |} r) in
          do! assign (λ r, set_stats
                             {| stats_total := Z.of_nat (length allUsers);
                                stats_active := stats_active (stats r);
                                stats_inactive := stats_inactive (stats r) |} r) in
          for_of allUsers process_user)
         (λ err,
            assign (set_error ("Failed to fetch players: " +:+ message err))))
      (λ a, with_refs (set_loading false (refs a)) a).

(** The [onMounted] hook. *)
Definition onMounted : M App unit :=
  do! assign (set_loadingCountries true) in
  finally
    (try_catch
       (let! cs := await (Api.getAllCountries upstream) in
        assign (set_countries cs))
       (λ err,
          assign (set_error ("Failed to load countries: " +:+ message err))))
    (λ a, with_refs (set_loadingCountries false (refs a)) a).

Definition handle (e : Event) : M App unit :=
  match e with
  | Mount => onMounted
  | TypeToken v => handleAuthTokenChange v
  | SelectCountry c => assign (set_selectedCountryId c)
  | ClickFetch => fetchPlayersAndChanges
  | ClickSort => assign (λ r, set_sortOrder (toggleSort (sortOrder r)) r)
  end.

(** The handlers run one after the other, each to its end, and the page
    is rendered after each: no handler runs while another one is waiting
    for an answer.  The page leaves the token box enabled during a fetch,
    so this is a condition on the operator, and a property that depends on
    it states it. *)
Definition run (events : list Event) : M App unit :=
  for_of events (λ e, do! handle e in modify observe).

End Fetch.

End View.

(** ** A sample deployment

    A host in New York (UTC-5; one in the UTC zone for comparison) and an
    upstream that knows one country and a roster of four users: the
    request for the second user fails, the third user is inactive, and the
    change log of the fourth cannot be read. *)

Module Sample.

Import Api.

Definition utc : Z → bool → Z := λ _ _, 0%Z.

Definition new_york : Z → bool → Z := λ _ _, (-18000000)%Z.

Definition no_legacy : string → option Z := λ _, None.


Definition france_by_id : Country :=
  {| country_id := "fr"; name := "France"; code := Some "FR";
     flagUrl := None |}.

Definition france_listed : Country :=
  {| country_id := "fr"; name := "French Republic"; code := Some "FR";
     flagUrl := None |}.

Definition mk_user (id name : string) (seen : option string) : UserLite :=
  {| user_id := id; username := name; lastConnectionAt := seen;
     active := None |}.

Definition alice := mk_user "u1" "alice" (Some "2024-01-10T08:00:00.000Z").
Definition bob := mk_user "u2" "bob" (Some "2024-01-10T08:00:00.000Z").
Definition carol := mk_user "u3" "carol" (Some "2023-11-01T08:00:00.000Z").
Definition dave := mk_user "u4" "dave" (Some "2024-01-02T00:00:00.000Z").

Definition mk_change (id uid : string) (created stamp : option string)
    (d : option ChangeData) : CitizenshipChange :=
  {| change_id := id; user := uid; country := "fr"; createdAt := created;
     updatedAt := created; timestamp := stamp; data := d |}.

Definition move (a b : string) : option ChangeData :=
  Some {| action := Some "changedCitizenship"; fromCountryId := Some a;
          toCountryId := Some b; reason := None; from := None; to := None;
          fromCountryName := None; toCountryName := None |}.

Definition legacy_move (a b : string) : option ChangeData :=
  Some {| action := Some "changedCitizenship"; fromCountryId := None;
          toCountryId := None; reason := None; from := Some a; to := Some b;
          fromCountryName := None; toCountryName := None |}.

Definition alice_changes : list CitizenshipChange :=
  [ mk_change "c1" "u1" (Some "2023-12-31T12:00:00") None (move "de" "fr");
    mk_change "c2" "u1" (Some "2024-01-01T23:00:00") None
              (legacy_move "fr" "it");
    mk_change "c3" "u1" (Some "2024-01-02T00:00:01") None (move "it" "fr") ].

Definition user_of (req : Request) : string :=
  match input (url req) with
  | InUser u => u
  | InActionLog _ u _ _ _ => u
  | _ => ""
  end.

Definition upstream : Upstream :=
  {| country_data := λ _ _, inr france_by_id;
     countries_data := λ _ _, inr [france_listed];
     users_data := λ _ _,
       inr {| users_items := Some [alice; bob; carol; dave];
              users_nextCursor := None |};
     user_data := λ _ req,
       if String.eqb (user_of req) "u1" then inr alice
       else if String.eqb (user_of req) "u3" then inr carol
       else if String.eqb (user_of req) "u4" then inr dave
       else inl "Network Error";
     actionLog_data := λ _ req,
       if String.eqb (user_of req) "u1"
       then inr {| log_items := Some alice_changes; log_nextCursor := None |}
       else inl "Request failed with status code 500";
     (* 2024-01-12T00:00:00.000Z *)
     clock := λ _, 1705017600000%Z;
     toLowerCase := Js.toLowerCase |}.

(** A change log with an entry that carries no date at all, and one whose
    two dates differ. *)
Definition undated_changes : list CitizenshipChange :=
  [ mk_change "c4" "u1" (Some "2024-01-03T00:00:00.000Z") None
              (move "de" "fr");
    mk_change "c5" "u1" None None (move "fr" "it");
    mk_change "c6" "u1" (Some "2024-01-01T00:00:00.000Z") None
              (move "it" "fr") ].

Definition restamped_change : CitizenshipChange :=
  mk_change "c7" "u1" (Some "2024-01-02T00:00:00.000Z")
            (Some "2024-01-01T00:00:00.000Z") (move "de" "fr").

Definition player (u : UserLite) (l : list CitizenshipChange)
    : View.PlayerData :=
  {| View.user := u; View.citizenshipChanges := l;
     View.player_loading := false; View.player_error := None |}.

(** The page once a token has been typed and a country chosen. *)
Definition ready : View.App :=
  {| View.refs :=
       View.set_selectedCountryId "fr"
         (View.set_authToken "secret" View.initial_refs);
     View.world := with_authToken "secret" initial;
     View.observed := [] |}.

(** An upstream that answers nothing. *)
Definition offline : Upstream :=
  {| country_data := λ _ _, inl "Network Error";
     countries_data := λ _ _, inl "Network Error";
     users_data := λ _ _, inl "Network Error";
     user_data := λ _ _, inl "Network Error";
     actionLog_data := λ _ _, inl "Network Error";
     clock := λ _, 1705017600000%Z;
     toLowerCase := Js.toLowerCase |}.

End Sample.

(** ** The vocabulary of the properties *)

Module Spec.

Import Eff View.

Local Open Scope Z_scope.

(** *** Sorting *)

(** The comparator [(x, y) => key(x) - key(y)]. *)
Definition by_key {A} (key : A → Z) : A → A → option Z :=
  λ x y, Some (key x - key y).

Definition valid (r : FlattenedChange) : Prop := is_Some (date r).

Definition time_of (r : FlattenedChange) : Z := default 0 (date r).

(** *** Filtering *)

Section Bounds.

Variable LocalTZA : Z → bool → Z.
Variable legacyParse : string → option Z.

Local Abbreviation new_Date := (View.new_Date LocalTZA legacyParse).

(** The bounds that the two date filters compare with. *)
Definition startDate (s : string) : JsDate.Date :=
  JsDate.setHours LocalTZA (new_Date s) 0 0 0 0.

Definition endDate (s : string) : JsDate.Date :=
  JsDate.setHours LocalTZA (new_Date s) 23 59 59 999.

(** A row passes when it meets every filter that is set. *)
Definition passes (source destination start stop : string)
    (r : FlattenedChange) : Prop :=
  (source ≠ "" → fromCountryId r = Some source)
  ∧ (destination ≠ "" → toCountryId r = Some destination)
  ∧ (start ≠ "" → JsDate.ge (date r) (startDate start) = true)
  ∧ (stop ≠ "" → JsDate.le (date r) (endDate stop) = true).

End Bounds.

(** *** Grouping *)

(** The distinct names of a list, in the order of their first
    appearance. *)
Fixpoint first_seen (l : list string) : list string :=
  match l with
  | [] => []
  | x :: l' => x :: filter (λ y, y ≠ x) (first_seen l')
  end.

Definition rows_of (u : string) (l : list FlattenedChange)
    : list FlattenedChange :=
  filter (λ r, username r = u) l.

(** The map that [groupedChanges] has built after the rows [l]. *)
Definition entries (l : list FlattenedChange)
    : Js.Map (list FlattenedChange) :=
  (λ u, (u, rows_of u l)) <$> first_seen (username <$> l).

(** The group of a name [u] among the rows [l]. *)
Definition group_for (l : list FlattenedChange) (u : string) : Group :=
  {| group_username := u;
     group_userId := default "" (userId <$> head (rows_of u l));
     changes := rows_of u l |}.

(** *** The batch fetch *)

(** The steps of the loop on the refs. *)
Definition bump (r : Refs) : Refs :=
  set_progress {| current := current (progress r) + 1;
                  total := total (progress r) |} r.

Definition count_inactive (r : Refs) : Refs :=
  set_stats {| stats_total := stats_total (stats r);
               stats_active := stats_active (stats r);
               stats_inactive := stats_inactive (stats r) + 1 |} r.

Definition count_active (r : Refs) : Refs :=
  set_stats {| stats_total := stats_total (stats r);
               stats_active := stats_active (stats r) + 1;
               stats_inactive := stats_inactive (stats r) |} r.

Definition push (p : PlayerData) (r : Refs) : Refs :=
  set_players (players r ++ [p]) r.

(** The record of a player while its change log is awaited, once it has
    arrived, and when it could not be read. *)
Definition pending (u : Api.UserLite) : PlayerData :=
  {| user := u; citizenshipChanges := []; player_loading := true;
     player_error := None |}.

Definition loaded (u : Api.UserLite) (response : Api.ActionLogResponse)
    : PlayerData :=
  {| user := u; citizenshipChanges := default [] (Api.log_items response);
     player_loading := false; player_error := None |}.

Definition failed (u : Api.UserLite) (e : Thrown) : PlayerData :=
  {| user := u; citizenshipChanges := []; player_loading := false;
     player_error :=
       Some ("Failed to load citizenship changes: " +:+ message e) |}.

Definition logged (user : Api.UserLite) (e : Thrown) (w : Api.World)
    : Api.World :=
  Api.with_console
    (Api.console w
     ++ [("Error fetching user " +:+ Api.user_id user +:+ ":", e)]) w.

(** The refs once the fetch has cleared them, and once the roster has
    come. *)
Definition reset (r : Refs) : Refs :=
  set_stats {| stats_total := 0; stats_active := 0; stats_inactive := 0 |}
    (set_progress {| current := 0; total := 0 |}
       (set_players [] (set_error "" (set_loading true r)))).

Definition counted_roster (n : nat) (r : Refs) : Refs :=
  set_stats {| stats_total := Z.of_nat n;
               stats_active := stats_active (stats r);
               stats_inactive := stats_inactive (stats r) |}
    (set_progress {| current := current (progress r);
                     total := Z.of_nat n |} r).


Section Rounds.

Variable LocalTZA : Z → bool → Z.
Variable legacyParse : string → option Z.
Variable upstream : Api.Upstream.

Local Abbreviation getUserLite :=
  (Api.getUserLite LocalTZA legacyParse upstream).
Local Abbreviation getCitizenshipChanges :=
  (Api.getCitizenshipChanges upstream).

(** The four ways through the body of the loop. *)
Inductive Processed (user : Api.UserLite) (a a' : App) : Prop :=
| lite_throws e w' :
    getUserLite (Api.user_id user) (world a) = (Throw e, w') →
    a' = {| refs := bump (refs a); world := logged user e w';
            observed := observed a ++ [bump (refs a)] |} →
    Processed user a a'
| lite_inactive u w' :
    getUserLite (Api.user_id user) (world a) = (Return u, w') →
    default false (Api.active u) = false →
    a' = {| refs := count_inactive (bump (refs a)); world := w';
            observed := observed a ++ [bump (refs a)] |} →
    Processed user a a'
| changes_loaded u w' response w'' :
    getUserLite (Api.user_id user) (world a) = (Return u, w') →
    default false (Api.active u) = true →
    getCitizenshipChanges (Api.user_id user) "" w' = (Return response, w'') →
    a' = {| refs := push (loaded u response) (count_active (bump (refs a)));
            world := w'';
            observed :=
              observed a
              ++ [bump (refs a);
                  push (pending u) (count_active (bump (refs a)))] |} →
    Processed user a a'
| changes_throw u w' e w'' :
    getUserLite (Api.user_id user) (world a) = (Return u, w') →
    default false (Api.active u) = true →
    getCitizenshipChanges (Api.user_id user) "" w' = (Throw e, w'') →
    a' = {| refs := push (failed u e) (count_active (bump (refs a)));
            world := w'';
            observed :=
              observed a
              ++ [bump (refs a);
                  push (pending u) (count_active (bump (refs a)))] |} →
    Processed user a a'.

End Rounds.

(** The tallies are within the count of processed users, which is within
    the total less the users still to come ([slack]), and the two totals
    agree. *)
Definition Counted (slack : Z) (r : Refs) : Prop :=
  0 ≤ stats_active (stats r)
  ∧ 0 ≤ stats_inactive (stats r)
  ∧ stats_active (stats r) + stats_inactive (stats r) ≤ current (progress r)
  ∧ current (progress r) + slack ≤ total (progress r)
  ∧ total (progress r) = stats_total (stats r).

(** What a render can have seen, and what the refs hold now. *)
Definition Good (a : App) : Prop :=
  Forall (Counted 0) (observed a) ∧ Counted 0 (refs a).

End Spec.

(** ** The labels and the country list of the tracker view

    The remaining helpers of [src/views/CitizenshipTracker.vue]. *)

Module Page.

Import Eff.

Section Countries.

(** [String.prototype.localeCompare] of the host. *)
Variable localeCompare : string → string → Z.

Definition sortedCountries (countries : list Api.Country)
    : list Api.Country :=
  Js.sort (λ a b, Some (localeCompare (Api.name a) (Api.name b))) countries.

End Countries.

Definition getCountryName (countryId : option string) : M Api.World string :=
  if negb (Js.truthy countryId) then ret "Unknown"
  else
    let countryId := default "" countryId in
    let! country := Api.getCountryFromCache countryId in
    ret (default countryId
           (Js.or (Api.name <$> country) (Some countryId))).

Definition getCountryFlag (countryId : option string)
    : M Api.World (option string) :=
  if negb (Js.truthy countryId) then ret None
  else
    let countryId := default "" countryId in
    let! country := Api.getCountryFromCache countryId in
    ret (country ≫= Api.flagUrl).

Definition getUserProfileUrl (userId : string) : string :=
  "https://app.warera.io/user/" +:+ userId.

End Page.

(** ** The country picker: [src/components/CountrySelect.vue] *)

Module CountrySelect.

Record Props := {
  modelValue : string;
  countries : list Api.Country;
  placeholder : string;
  disabled : bool
}.

(** [withDefaults(defineProps<Props>(), ...)] *)
Definition withDefaults (modelValue : string) (countries : list Api.Country)
    (placeholder : option string) (disabled : option bool) : Props :=
  {| modelValue := modelValue; countries := countries;
     placeholder := default "Choose a country" placeholder;
     disabled := default false disabled |}.

(** The two refs of the component, and the values it has emitted as
    [update:modelValue]. *)
Record State := {
  isOpen : bool;
  searchQuery : string;
  emitted : list string
}.

Definition setup : State :=
  {| isOpen := false; searchQuery := ""; emitted := [] |}.

(** [s.includes(search)]: [search] occurs in [s] at some position. *)
Fixpoint includes (s search : string) : bool :=
  if String.prefix search s then true
  else match s with
       | EmptyString => false
       | String _ s' => includes s' search
       end.

Section Computed.

(** [String.prototype.toLowerCase] of the host. *)
Variable toLowerCase : string → string.

Definition selectedCountry (props : Props) : option Api.Country :=
  List.find (λ c, String.eqb (Api.country_id c) (modelValue props))
            (countries props).

Definition filteredCountries (props : Props) (st : State)
    : list Api.Country :=
  if negb (Js.truthy (Some (searchQuery st))) then countries props
  else
    let query := toLowerCase (searchQuery st) in
    filter (λ c, includes (toLowerCase (Api.name c)) query = true)
           (countries props).

Definition selectCountry (countryId : string) (st : State) : State :=
  {| isOpen := false; searchQuery := "";
     emitted := emitted st ++ [countryId] |}.

Definition toggleDropdown (props : Props) (st : State) : State :=
  if negb (disabled props) then
    let isOpen' := negb (isOpen st) in
    {| isOpen := isOpen';
       searchQuery := if negb isOpen' then "" else searchQuery st;
       emitted := emitted st |}
  else st.

Definition closeDropdown (st : State) : State :=
  {| isOpen := false; searchQuery := ""; emitted := emitted st |}.

(** [v-model] of the parent: the value emitted becomes the prop. *)
Definition with_modelValue (v : string) (props : Props) : Props :=
  {| modelValue := v; countries := countries props;
     placeholder := placeholder props; disabled := disabled props |}.

(** What the template lets the operator do.  The search box, the options
    and the backdrop are rendered only while the panel is open
    ([v-if="isOpen"]), and the options are those of
    [filteredCountries]. *)
Inductive Event :=
| ClickTrigger
| TypeSearch (text : string)
| ClickPlaceholder
| ClickCountry (country : Api.Country)
| ClickBackdrop.

Definition handle (props : Props) (e : Event) (st : State) : State :=
  match e with
  | ClickTrigger => toggleDropdown props st
  | TypeSearch text =>
      if isOpen st
      then {| isOpen := isOpen st; searchQuery := text;
              emitted := emitted st |}
      else st
  | ClickPlaceholder => if isOpen st then selectCountry "" st else st
  | ClickCountry country =>
      if isOpen st && bool_decide (country ∈ filteredCountries props st)
      then selectCountry (Api.country_id country) st
      else st
  | ClickBackdrop => if isOpen st then closeDropdown st else st
  end.

(** The events of a session, each with the props that the parent passes
    at the time. *)
Fixpoint run (steps : list (Props * Event)) (st : State) : State :=
  match steps with
  | [] => st
  | (props, e) :: steps' => run steps' (handle props e st)
  end.

End Computed.

End CountrySelect.

(** ** The timeline of one player: [src/components/CitizenshipDiagram.vue] *)

Module Diagram.

Import Eff.

(** A change as the component reads it: the declared record, and the
    [date] property that the code reads through [any]. *)
Record Change := {
  declared : Api.CitizenshipChange;
  date : option string
}.

Record Props := {
  changes : list Change;
  username : string
}.

Inductive Side := from | to.

(** The object that [getCountryInfo] returns. *)
Record CountryInfo := {
  info_name : string;                 (* name *)
  info_flagUrl : option string        (* flagUrl *)
}.

(** The component's ref and the API client it shares with the page. *)
Record Component := {
  countryMap : gmap string Api.Country;
  world : Api.World
}.

Definition setup (w : Api.World) : Component :=
  {| countryMap := ∅; world := w |}.

Definition with_countryMap (m : gmap string Api.Country) (s : Component)
    : Component :=
  {| countryMap := m; world := world s |}.

Definition with_world (w : Api.World) (s : Component) : Component :=
  {| countryMap := countryMap s; world := w |}.

(** [change.data?.f] *)
Definition field (f : Api.ChangeData → option string) (change : Change)
    : option string :=
  d ← Api.data (declared change); f d.

(** [change.timestamp || change.createdAt || (change as any).date] *)
Definition dateString (change : Change) : option string :=
  Js.or (Js.or (Api.timestamp (declared change))
               (Api.createdAt (declared change)))
        (date change).

(** [Set.prototype.add]: a set keeps the order of insertion. *)
Definition set_add (x : string) (s : list string) : list string :=
  if bool_decide (x ∈ s) then s else s ++ [x].

(** [if (id) countryIds.add(id)] *)
Definition add_if (id : option string) (countryIds : list string)
    : list string :=
  match id with
  | Some x => if Js.truthy (Some x) then set_add x countryIds else countryIds
  | None => countryIds
  end.

(** The body of the [forEach] of [onMounted]. *)
Definition collect (countryIds : list string) (change : Change)
    : list string :=
  let countryIds := add_if (field Api.fromCountryId change) countryIds in
  let countryIds := add_if (field Api.toCountryId change) countryIds in
  let countryIds := add_if (field Api.from change) countryIds in
  let countryIds := add_if (field Api.to change) countryIds in
  countryIds.

Definition countryIds (changes : list Change) : list string :=
  foldl collect [] changes.

(** The country that [getCountryInfo] looks up. *)
Definition countryId (change : Change) (type : Side) : option string :=
  match type with
  | from => Js.or (field Api.fromCountryId change) (field Api.from change)
  | to => Js.or (field Api.toCountryId change) (field Api.to change)
  end.

Definition getCountryInfo (countryMap : gmap string Api.Country)
    (change : Change) (type : Side) : CountryInfo :=
  let countryId := countryId change type in
  let found :=
    if Js.truthy countryId then countryMap !! default "" countryId
    else None in
  match found with
  | Some country =>
      {| info_name := Api.name country; info_flagUrl := Api.flagUrl country |}
  | None =>
      let countryName :=
        match type with
        | from =>
            Js.or (Js.or (Js.or (field Api.fromCountryName change)
                                (field Api.fromCountryId change))
                         (field Api.from change))
                  (Some "Unknown")
        | to =>
            Js.or (Js.or (Js.or (field Api.toCountryName change)
                                (field Api.toCountryId change))
                         (field Api.to change))
                  (Some "Unknown")
        end in
      {| info_name := default "Unknown" countryName; info_flagUrl := None |}
  end.

Section Computed.

Variable LocalTZA : Z → bool → Z.
Variable legacyParse : string → option Z.
Variable toLocaleDateString : Z → string.

Local Abbreviation new_Date := (JsDate.of_string LocalTZA legacyParse).

(** The comparator of [sortedChanges]. *)
Definition compareFn (a b : Change) : option Z :=
  let dateA := default "" (Js.or (dateString a) (Some "")) in
  let dateB := default "" (Js.or (dateString b) (Some "")) in
  Js.minus (JsDate.getTime (new_Date dateA)) (JsDate.getTime (new_Date dateB)).

Definition sortedChanges (props : Props) : list Change :=
  Js.sort compareFn (changes props).

Definition formatDate (change : Change) : string :=
  let dateString := dateString change in
  if negb (Js.truthy dateString) then "Unknown date"
  else
    let date := new_Date (default "" dateString) in
    if JsDate.isNaN (JsDate.getTime date) then "Invalid date"
    else match date with
         | Some t => toLocaleDateString t
         | None => "Invalid date"
         end.

End Computed.

Section Mount.

Variable upstream : Api.Upstream.

(** The body of the [for] loop of [onMounted]. *)
Definition resolve (countryId : string) : M Component unit :=
  let! country := lift world with_world
                       (Api.getCountryById upstream countryId) in
  match country with
  | Some c => modify (λ s, with_countryMap (<[countryId := c]> (countryMap s)) s)
  | None => ret tt
  end.

(** The [onMounted] hook; the calls of the client run one after the
    other, with no other use of the client in between. *)
Definition onMounted (props : Props) : M Component unit :=
  for_of (countryIds (changes props)) resolve.

End Mount.

(** The changes of a player as the page passes them to the component:
    records of the API, which have no [date] property. *)
Definition of_api (change : Api.CitizenshipChange) : Change :=
  {| declared := change; date := None |}.

End Diagram.

(** ** Further samples *)

Module Cases.

Import Api.

(** The order of the code units, which [localeCompare] is in the plainest
    of locales. *)
Definition code_order (s t : string) : Z :=
  match String.compare s t with
  | Lt => (-1)%Z
  | Eq => 0%Z
  | Gt => 1%Z
  end.

Definition italy : Country :=
  {| country_id := "it"; name := "Italy"; code := Some "IT";
     flagUrl := Some "https://flagcdn.com/w40/it.png" |}.

Definition germany : Country :=
  {| country_id := "de"; name := "Germany"; code := Some "DE";
     flagUrl := Some "https://flagcdn.com/w40/de.png" |}.

Definition france : Country :=
  {| country_id := "fr"; name := "France"; code := Some "FR";
     flagUrl := Some "https://flagcdn.com/w40/fr.png" |}.

(** The countries as the upstream lists them. *)
Definition atlas : list Country := [italy; germany; france].

(** A picker over the atlas, open, with a search typed in capitals. *)
Definition picker : CountrySelect.Props :=
  CountrySelect.withDefaults "" atlas None None.

Definition searching : CountrySelect.State :=
  {| CountrySelect.isOpen := true; CountrySelect.searchQuery := "IT";
     CountrySelect.emitted := [] |}.

(** A player with three dated changes, none with a [timestamp]. *)
Definition alice : View.PlayerData :=
  Sample.player Sample.alice Sample.alice_changes.

(** New York with its daylight saving time of 2024: from
    2024-03-10T07:00:00Z to 2024-11-03T06:00:00Z the offset is four hours,
    five otherwise; a local time that a change skips or repeats is read
    with the offset before the change. *)
Definition eastern : Z → bool → Z :=
  λ t isUTC,
    let start := 1710054000000%Z in
    let stop := 1730613600000%Z in
    if isUTC then
      if (start <=? t)%Z && (t <? stop)%Z then (-14400000)%Z
      else (-18000000)%Z
    else
      if (start - 14400000 <=? t)%Z && (t <? stop - 14400000)%Z
      then (-14400000)%Z
      else (-18000000)%Z.

(** A user last seen one millisecond before the cut-off of the sample
    host, which is 2024-01-02T00:00:00.000Z. *)
Definition erin : UserLite :=
  Sample.mk_user "u5" "erin" (Some "2024-01-01T23:59:59.999Z").

(** A user last seen 864000000 ms before 2024-03-15T12:00:00.000Z. *)
Definition frank : UserLite :=
  Sample.mk_user "u6" "frank" (Some "2024-03-05T12:00:00.000Z").

(** The sample upstream in January, with the fifth user. *)
Definition january : Upstream :=
  {| country_data := country_data Sample.upstream;
     countries_data := countries_data Sample.upstream;
     users_data := users_data Sample.upstream;
     user_data := λ l req,
       if String.eqb (Sample.user_of req) "u5" then inr erin
       else user_data Sample.upstream l req;
     actionLog_data := actionLog_data Sample.upstream;
     clock := clock Sample.upstream;
     toLowerCase := toLowerCase Sample.upstream |}.

(** The same upstream on 2024-03-15T12:00:00.000Z, five days after the
    clocks of New York went forward. *)
Definition spring : Upstream :=
  {| country_data := country_data Sample.upstream;
     countries_data := countries_data Sample.upstream;
     users_data := users_data Sample.upstream;
     user_data := λ _ _, inr frank;
     actionLog_data := actionLog_data Sample.upstream;
     clock := λ _, 1710504000000%Z;
     toLowerCase := toLowerCase Sample.upstream |}.

End Cases.

(** ** The vocabulary of the further properties *)

Module Terms.

Import View.

(** What the operator has set on the page: the refs that no request
    changes. *)
Definition settings (r : Refs)
    : string * string * SortOrder * ViewMode * (string * string * string * string) :=
  (authToken r, selectedCountryId r, sortOrder r, viewMode r,
   (filterSourceCountryId r, filterDestinationCountryId r,
    filterStartDate r, filterEndDate r)).

Definition changes_requests (l : list Api.Request) : list Api.Request :=
  filter (λ q, Api.endpoint (Api.url q) = "actionLog.getPaginated") l.

(** A request for a first page: no cursor, a hundred entries. *)
Definition first_page (q : Api.Request) : Prop :=
  match Api.input (Api.url q) with
  | Api.InUsers _ cursor limit => cursor = "" ∧ limit = 100%Z
  | Api.InActionLog limit _ _ _ cursor => cursor = "" ∧ limit = 100%Z
  | _ => True
  end.

Definition roster_requests (l : list Api.Request) : list Api.Request :=
  filter (λ q, Api.endpoint (Api.url q) = "user.getUsersByCountry") l.

(** The world after a sequence of operations of the client. *)
Definition after_all (LocalTZA : Z → bool → Z)
    (legacyParse : string → option Z) (upstream : Api.Upstream)
    (ops : list Api.Operation) (w : Api.World) : Api.World :=
  foldl (λ w op, Api.after LocalTZA legacyParse upstream op w) w ops.

(** The requests of a log that ask for one country by its identifier. *)
Definition country_requests (countryId : string) (l : list Api.Request)
    : list Api.Request :=
  filter (λ q, q = Api.country_request countryId) l.

(** The order of the rows under a sort order. *)
Definition in_order (o : SortOrder) (a b : FlattenedChange) : Prop :=
  match o with
  | asc => (Spec.time_of a ≤ Spec.time_of b)%Z
  | desc => (Spec.time_of b ≤ Spec.time_of a)%Z
  end.

(** The client holds the token that the page shows. *)
Definition Synced (a : App) : Prop :=
  Api.authToken (world a) = authToken (refs a).

(** The time by which the timeline orders a change. *)
Definition stamp (LocalTZA : Z → bool → Z) (legacyParse : string → option Z)
    (c : Diagram.Change) : JsDate.Date :=
  JsDate.of_string LocalTZA legacyParse
    (default "" (Js.or (Diagram.dateString c) (Some ""))).

Definition stamp_time (LocalTZA : Z → bool → Z)
    (legacyParse : string → option Z) (c : Diagram.Change) : Z :=
  default 0%Z (stamp LocalTZA legacyParse c).

(** The props that the page passes to the timeline of a player. *)
Definition timeline_of (player : PlayerData) : Diagram.Props :=
  {| Diagram.changes := Diagram.of_api <$> citizenshipChanges player;
     Diagram.username := Api.username (user player) |}.

(** The identifier of a side of a row of the overview. *)
Definition row_countryId (row : FlattenedChange) (type : Diagram.Side)
    : option string :=
  match type with
  | Diagram.from => fromCountryId row
  | Diagram.to => toCountryId row
  end.

(** A closed picker has no search pending. *)
Definition closed_clear (st : CountrySelect.State) : Prop :=
  CountrySelect.isOpen st = false → CountrySelect.searchQuery st = "".

(** [t] occurs in [s]. *)
Definition occurs (t s : string) : Prop :=
  ∃ before after, s = before +:+ t +:+ after.

End Terms.

(** * Properties of the embedding *)

(** ** Dates *)

Module DateFacts.

Import JsDate.

Local Open Scope Z_scope.

Lemma DayFromYear_step y : DayFromYear (y + 1) = DayFromYear y + DaysInYear y.
Proof.
  unfold DayFromYear, DaysInYear, InLeapYear_of.
  destruct (Z.eqb_spec (y mod 4) 0), (Z.eqb_spec (y mod 100) 0),
    (Z.eqb_spec (y mod 400) 0); simpl; Z.div_mod_to_equations; lia.
Qed.

Lemma DayFromYear_mono y1 y2 : y1 <= y2 → DayFromYear y1 <= DayFromYear y2.
Proof.
  intros H. destruct (Z.eq_dec y1 y2) as [->|Hne]; [lia|].
  unfold DayFromYear. Z.div_mod_to_equations. lia.
Qed.

(** [YearFromDay d] is the year of day [d]: the day lies between the first
    day of that year and the first day of the next. *)
Lemma YearFromDay_spec d :
  DayFromYear (YearFromDay d) <= d < DayFromYear (YearFromDay d + 1).
Proof.
  unfold YearFromDay.
  set (y := 1970 + d * 400 / 146097).
  assert (Hy : DayFromYear (y - 1) <= d < DayFromYear (y + 2)).
  { unfold DayFromYear, y. Z.div_mod_to_equations. lia. }
  destruct (Z.leb_spec (DayFromYear (y + 1)) d).
  - split; [done|]. replace (y + 1 + 1) with (y + 2) by lia. lia.
  - destruct (Z.ltb_spec d (DayFromYear y)).
    + split; [lia|]. replace (y - 1 + 1) with y by lia. done.
    + lia.
Qed.

(** It is the largest year that starts on or before the day, as ECMA-262
    defines [YearFromTime]. *)
Lemma YearFromDay_largest d y : DayFromYear y <= d → y <= YearFromDay d.
Proof.
  intros H. destruct (Z.le_gt_cases y (YearFromDay d)) as [|Hgt]; [done|].
  pose proof (YearFromDay_spec d) as [_ Hlt].
  pose proof (DayFromYear_mono (YearFromDay d + 1) y). lia.
Qed.

Lemma DayWithinYear_range t :
  0 <= DayWithinYear t < DaysInYear (YearFromTime t).
Proof.
  unfold DayWithinYear, YearFromTime.
  pose proof (YearFromDay_spec (Day t)).
  pose proof (DayFromYear_step (YearFromDay (Day t))). lia.
Qed.

Lemma MonthFromTime_range t : 0 <= MonthFromTime t <= 11.
Proof.
  unfold MonthFromTime.
  repeat match goal with |- context [if ?b then _ else _] => destruct b end;
    lia.
Qed.

(** The day of the month is at least 1 and at most the length of the
    month. *)
Lemma DateFromTime_range t :
  1 <= DateFromTime t <= DaysInMonth (YearFromTime t) (MonthFromTime t).
Proof.
  pose proof (DayWithinYear_range t) as Hd.
  pose proof (DayFromYear_step (YearFromTime t)) as Hs.
  unfold DateFromTime, MonthFromTime, DaysInMonth, MakeDay, InLeapYear,
    DaysInYear in *.
  destruct (InLeapYear_of (YearFromTime t)) eqn:Hleap;
  repeat match goal with
    | |- context [if (?a <? ?b) then _ else _] => destruct (Z.ltb_spec a b)
    end;
  repeat match goal with
    | |- context [?a `div` 12] =>
        let v := eval vm_compute in (a `div` 12) in change (a `div` 12) with v
    | |- context [?a `mod` 12] =>
        let v := eval vm_compute in (a `mod` 12) in change (a `mod` 12) with v
    end;
  rewrite ?Z.add_0_r, ?Hleap;
  repeat match goal with
    | |- context [monthStart ?a ?b] =>
        let v := eval vm_compute in (monthStart a b) in
        change (monthStart a b) with v
    end;
  lia.
Qed.

(** Moving the day of the month by [k] moves the day number by [k]. *)
Lemma MakeDay_of_time t k :
  MakeDay (YearFromTime t) (MonthFromTime t) (DateFromTime t + k) = Day t + k.
Proof.
  pose proof (MonthFromTime_range t) as Hm.
  unfold MakeDay. rewrite Z.div_small, Z.mod_small, Z.add_0_r by lia.
  unfold DateFromTime, DayWithinYear.
  change (if InLeapYear_of (YearFromTime t) then 1 else 0) with (InLeapYear t).
  lia.
Qed.

Lemma MakeDate_Day t : MakeDate (Day t) (TimeWithinDay t) = t.
Proof.
  unfold MakeDate, Day, TimeWithinDay, msPerDay.
  Z.div_mod_to_equations. lia.
Qed.

Section Zone.

Variable LocalTZA : Z → bool → Z.

(** [d.setDate(d.getDate() + k)] moves a date by [k] days of local time. *)
Lemma setDate_getDate t k :
  setDate LocalTZA (Some t) (x ← getDate LocalTZA (Some t); Some (x + k))
  = TimeClip (UTC LocalTZA (LocalTime LocalTZA t + k * msPerDay)).
Proof.
  cbn. f_equal. f_equal. rewrite MakeDay_of_time.
  rewrite <- (MakeDate_Day (LocalTime LocalTZA t)) at 3.
  unfold MakeDate. lia.
Qed.

(** [setHours] keeps the local day and replaces the time within it. *)
Lemma setHours_local t h mi sec ms :
  setHours LocalTZA (Some t) h mi sec ms
  = TimeClip (UTC LocalTZA (MakeDate (Day (LocalTime LocalTZA t))
                                     (MakeTime h mi sec ms))).
Proof. reflexivity. Qed.

End Zone.

(** Known dates: the epoch, a leap day with an offset, a local time in New
    York, the calendar fields of the leap day, and ten days back across
    the turn of the year. *)
Example of_string_epoch :
  of_string Sample.utc Sample.no_legacy "1970-01-01" = Some 0.
Proof. reflexivity. Qed.

Example of_string_leap_day :
  of_string Sample.utc Sample.no_legacy "2024-02-29T23:00:00+05:30"
  = Some 1709227800000.
Proof. reflexivity. Qed.

Example of_string_local :
  of_string Sample.new_york Sample.no_legacy "2024-01-01T23:00:00"
  = Some 1704168000000.
Proof. reflexivity. Qed.

Example of_string_illegal_day :
  of_string Sample.utc Sample.no_legacy "2023-02-29" = None.
Proof. reflexivity. Qed.

Example calendar_leap_day :
  (YearFromTime 1709227800000, MonthFromTime 1709227800000,
   DateFromTime 1709227800000) = (2024, 1, 29).
Proof. reflexivity. Qed.

Example calendar_before_epoch :
  (YearFromTime (-1), MonthFromTime (-1), DateFromTime (-1)) = (1969, 11, 31).
Proof. reflexivity. Qed.

Example setDate_across_years :
  setDate Sample.utc (of_string Sample.utc Sample.no_legacy "2024-01-05")
    (x ← getDate Sample.utc
           (of_string Sample.utc Sample.no_legacy "2024-01-05");
     Some (x - 10))
  = of_string Sample.utc Sample.no_legacy "2023-12-26".
Proof. reflexivity. Qed.

End DateFacts.

(** ** The API client *)

Module ApiFacts.

Import Eff Api.

Lemma truthy_Some s : Js.truthy (Some s) = true ↔ s ≠ "".
Proof.
  simpl. rewrite negb_true_iff. split.
  - intros H ->. discriminate.
  - intros H. apply String.eqb_neq. exact H.
Qed.

Lemma truthy_empty : Js.truthy (Some "") = false.
Proof. reflexivity. Qed.

Section Client.

Variable LocalTZA : Z → bool → Z.
Variable legacyParse : string → option Z.
Variable upstream : Upstream.

Local Abbreviation after := (Api.after LocalTZA legacyParse upstream).

Lemma getCitizenshipChanges_no_token userId cursor w :
  authToken w = "" →
  getCitizenshipChanges upstream userId cursor w
  = (Throw (ErrorObject "Authorization token is required for this operation"),
     w).
Proof.
  intros Hno. unfold getCitizenshipChanges, bind, get. rewrite Hno.
  reflexivity.
Qed.

(** With a token, the call sends one request that carries the token, and
    throws what the request throws. *)
Lemma getCitizenshipChanges_with_token userId cursor w :
  authToken w ≠ "" →
  getCitizenshipChanges upstream userId cursor w
  = (match actionLog_data upstream (requests w)
             (changes_request (authToken w) userId cursor) with
     | inl msg => Throw (RequestFailure msg)
     | inr r => Return r
     end,
     with_requests
       (requests w ++ [changes_request (authToken w) userId cursor]) w).
Proof.
  intros Htok. apply truthy_Some in Htok.
  unfold getCitizenshipChanges, bind, get. rewrite Htok. simpl.
  unfold axios_get, buildUrl, changes_request.
  destruct (actionLog_data upstream _ _); reflexivity.
Qed.

(** C1. Without a token (none set, or the empty string set),
    [getCitizenshipChanges] throws its authorization error at once: the
    world is left as it was, so no request has been sent; and the error is
    not the one a failed request throws, whatever the failure is. *)
Theorem getCitizenshipChanges_requires_token userId cursor w :
  authToken w = "" →
  getCitizenshipChanges upstream userId cursor w
  = (Throw (ErrorObject "Authorization token is required for this operation"),
     w)
  ∧ requests (getCitizenshipChanges upstream userId cursor w).2 = requests w
  ∧ ∀ (w' : World) (msg : string),
      authToken w' ≠ "" →
      actionLog_data upstream (requests w')
        (changes_request (authToken w') userId cursor) = inl msg →
      (getCitizenshipChanges upstream userId cursor w').1
      = Throw (RequestFailure msg)
      ∧ (getCitizenshipChanges upstream userId cursor w').1
        ≠ (getCitizenshipChanges upstream userId cursor w).1.
Proof.
  intros Hno.
  rewrite (getCitizenshipChanges_no_token _ _ _ Hno).
  split; [reflexivity|]. split; [reflexivity|].
  intros w' msg Htok Hfail.
  rewrite (getCitizenshipChanges_with_token _ _ _ Htok), Hfail. simpl.
  split; [reflexivity|discriminate].
Qed.

(** The flag URL is set from a country code that is not empty, and nothing
    else of the record changes. *)
Lemma add_flag_code c k :
  code c = Some k → k ≠ "" →
  add_flag upstream c
  = with_flagUrl
      (Some ("https://flagcdn.com/w40/" +:+ toLowerCase upstream k +:+ ".png"))
      c.
Proof.
  intros Hc Hk. unfold add_flag. rewrite Hc.
  apply truthy_Some in Hk. rewrite Hk. reflexivity.
Qed.

Lemma add_flag_no_code c :
  Js.truthy (code c) = false → add_flag upstream c = c.
Proof.
  unfold add_flag. destruct (code c) as [k|]; [|done]. intros ->. done.
Qed.

Lemma add_flag_id c : country_id (add_flag upstream c) = country_id c.
Proof.
  unfold add_flag. destruct (code c) as [k|]; [|done].
  destruct (Js.truthy (Some k)); reflexivity.
Qed.

(** [getCountryById] by cases on the cache and on the answer. *)
Lemma getCountryById_eq countryId w :
  getCountryById upstream countryId w
  = match countryCache w !! countryId with
    | Some c => (Return (Some c), w)
    | None =>
        let w' :=
          with_requests (requests w ++ [country_request countryId]) w in
        match country_data upstream (requests w)
                (country_request countryId) with
        | inr c =>
            (Return (Some (add_flag upstream c)),
             with_countryCache
               (<[countryId := add_flag upstream c]> (countryCache w)) w')
        | inl msg =>
            (Return None,
             with_console
               (console w
                ++ [("Error fetching country " +:+ countryId +:+ ":",
                     RequestFailure msg)]) w')
        end
    end.
Proof.
  unfold getCountryById, bind, get, try_catch, axios_get, buildUrl.
  fold (country_request countryId).
  destruct (countryCache w !! countryId); [reflexivity|].
  destruct (country_data upstream _ _); reflexivity.
Qed.

(** C8. [getCountryById] on a cached identifier returns the cached entry
    and leaves the world as it was (no request is sent); on a miss it sends
    one request and, when that succeeds, returns the country with its flag
    URL added (when it has a code) and stores it under the identifier: the
    cache then holds that record there and what it held elsewhere, nothing
    is logged, and a second call returns the record without a request;
    when the request fails it logs the failure and returns [null], and the
    cache is as it was. *)
Theorem getCountryById_cache countryId w :
  (∀ c, countryCache w !! countryId = Some c →
        getCountryById upstream countryId w = (Return (Some c), w))
  ∧ (countryCache w !! countryId = None →
     ∀ w', w' = with_requests (requests w ++ [country_request countryId]) w →
     requests (getCountryById upstream countryId w).2
     = requests w ++ [country_request countryId]
     ∧ authToken (getCountryById upstream countryId w).2 = authToken w
     ∧ match country_data upstream (requests w) (country_request countryId) with
       | inr c =>
           getCountryById upstream countryId w
           = (Return (Some (add_flag upstream c)),
              with_countryCache
                (<[countryId := add_flag upstream c]> (countryCache w)) w')
           ∧ countryCache (getCountryById upstream countryId w).2 !! countryId
             = Some (add_flag upstream c)
           ∧ (∀ k, k ≠ countryId →
                countryCache (getCountryById upstream countryId w).2 !! k
                = countryCache w !! k)
           ∧ console (getCountryById upstream countryId w).2 = console w
           ∧ getCountryById upstream countryId
               (getCountryById upstream countryId w).2
             = (Return (Some (add_flag upstream c)),
                (getCountryById upstream countryId w).2)
           ∧ country_id (add_flag upstream c) = country_id c
           ∧ name (add_flag upstream c) = name c
           ∧ code (add_flag upstream c) = code c
           ∧ (∀ k, code c = Some k → k ≠ "" →
                   flagUrl (add_flag upstream c)
                   = Some ("https://flagcdn.com/w40/"
                           +:+ toLowerCase upstream k +:+ ".png"))
           ∧ (Js.truthy (code c) = false → add_flag upstream c = c)
       | inl msg =>
           getCountryById upstream countryId w
           = (Return None,
              with_console
                (console w
                 ++ [("Error fetching country " +:+ countryId +:+ ":",
                      RequestFailure msg)]) w')
           ∧ countryCache (getCountryById upstream countryId w).2
             = countryCache w
           ∧ console (getCountryById upstream countryId w).2
             = console w
               ++ [("Error fetching country " +:+ countryId +:+ ":",
                    RequestFailure msg)]
       end).
Proof.
  split.
  - intros c Hc. rewrite getCountryById_eq, Hc. reflexivity.
  - intros Hmiss w' ->.
    assert (Hfields : ∀ c,
      country_id (add_flag upstream c) = country_id c
      ∧ name (add_flag upstream c) = name c
      ∧ code (add_flag upstream c) = code c).
    { intros c. unfold add_flag. destruct (code c) as [k|] eqn:Hk; [|done].
      destruct (Js.truthy (Some k)); [|done]. by rewrite <- Hk. }
    rewrite (getCountryById_eq countryId w), Hmiss. cbv zeta.
    destruct (country_data upstream _ _) as [msg|c].
    + split; [reflexivity|]. split; [reflexivity|].
      split; [reflexivity|]. split; reflexivity.
    + split; [reflexivity|]. split; [reflexivity|].
      split; [reflexivity|]. cbn [snd countryCache with_countryCache].
      split; [apply lookup_insert_eq|].
      split; [by intros k Hk; apply lookup_insert_ne|].
      split; [reflexivity|].
      split.
      { rewrite getCountryById_eq. cbn [countryCache with_countryCache].
        by rewrite lookup_insert_eq. }
      destruct (Hfields c) as (Hid & Hname & Hcode).
      split; [exact Hid|]. split; [exact Hname|]. split; [exact Hcode|].
      split.
      * intros k Hc Hk. rewrite (add_flag_code _ _ Hc Hk). reflexivity.
      * apply add_flag_no_code.
Qed.

(** *** The activity of a user *)

(** The cut-off is the local time of the reading of the clock, ten days
    of local time earlier. *)
Lemma tenDaysAgo_eq now :
  tenDaysAgo LocalTZA now
  = JsDate.TimeClip
      (JsDate.UTC LocalTZA
         (JsDate.LocalTime LocalTZA now - 10 * JsDate.msPerDay))%Z.
Proof.
  unfold tenDaysAgo, JsDate.of_now.
  exact (DateFacts.setDate_getDate LocalTZA now (-10)).
Qed.

Lemma TimeClip_Some t c : JsDate.TimeClip t = Some c → c = t.
Proof. unfold JsDate.TimeClip. case_match; congruence. Qed.

Lemma of_string_empty : JsDate.of_string LocalTZA legacyParse "" = None.
Proof. reflexivity. Qed.

(** The cut-off is the reading of the clock less ten days, corrected by
    the difference of the offsets of the zone at the two ends. *)
Lemma cutoff_offsets now :
  (JsDate.UTC LocalTZA (JsDate.LocalTime LocalTZA now - 10 * JsDate.msPerDay)
   = now - 864000000
     + (LocalTZA now true
        - LocalTZA (JsDate.LocalTime LocalTZA now - 10 * JsDate.msPerDay)
                   false))%Z.
Proof. unfold JsDate.UTC, JsDate.LocalTime, JsDate.msPerDay. lia. Qed.

(** [getUserLite] when the request is answered. *)
Lemma getUserLite_active_eq userId w u :
  user_data upstream (requests w) (user_request userId) = inr u →
  let now := clock upstream (requests w ++ [user_request userId]) in
  let cutoff :=
    (JsDate.UTC LocalTZA
       (JsDate.LocalTime LocalTZA now - 10 * JsDate.msPerDay))%Z in
  ∃ b : bool,
    getUserLite LocalTZA legacyParse upstream userId w
    = (Return (with_active b u),
       with_requests (requests w ++ [user_request userId]) w)
    ∧ (b = true ↔
       ∃ s t, lastConnectionAt u = Some s
              ∧ JsDate.of_string LocalTZA legacyParse s = Some t
              ∧ JsDate.TimeClip cutoff = Some cutoff
              ∧ (cutoff ≤ t)%Z)
    ∧ (lastConnectionAt u = None → b = false)
    ∧ (∀ off, (∀ t isUTC, LocalTZA t isUTC = off) →
              cutoff = (now - 864000000)%Z).
Proof.
  intros Hresp now cutoff.
  assert (Hzone : ∀ off, (∀ t isUTC, LocalTZA t isUTC = off) →
                         cutoff = (now - 864000000)%Z).
  { intros off Hoff. unfold cutoff, JsDate.UTC, JsDate.LocalTime.
    rewrite !Hoff. unfold JsDate.msPerDay. lia. }
  unfold getUserLite, bind, get, axios_get, buildUrl.
  fold (user_request userId). rewrite Hresp.
  cbn [requests with_requests]. fold now.
  destruct (lastConnectionAt u) as [s|] eqn:Hs.
  - destruct (Js.truthy (Some s)) eqn:Htruthy.
    + eexists. split; [reflexivity|]. split; [|split; [done|exact Hzone]].
      rewrite tenDaysAgo_eq. fold cutoff.
      unfold JsDate.ge. split.
      * intros Hge.
        destruct (JsDate.of_string _ _ s) as [t|] eqn:Ht; [|done].
        destruct (JsDate.TimeClip cutoff) as [c|] eqn:Hc; [|done].
        pose proof (TimeClip_Some _ _ Hc) as ->.
        exists s, t. repeat split; try done. by apply Z.leb_le.
      * intros (s' & t & [= <-] & -> & -> & Hle). by apply Z.leb_le.
    + exists false. split; [reflexivity|].
      split; [|split; [done|exact Hzone]].
      split; [done|]. intros (s' & t & [= <-] & Ht & _).
      assert (s = "") as ->.
      { destruct (decide (s = "")) as [|Hne]; [done|].
        apply truthy_Some in Hne. congruence. }
      by rewrite of_string_empty in Ht.
  - exists false. split; [reflexivity|].
    split; [|split; [done|exact Hzone]].
    split; [done|]. by intros (s' & t & [=] & _).
Qed.

(** *** The cache over the operations of the client *)

Lemma cache_all_cons c cs cache :
  cache_all (c :: cs) cache = cache_all cs (<[country_id c := c]> cache).
Proof. reflexivity. Qed.

Lemma cache_all_app cs1 cs2 cache :
  cache_all (cs1 ++ cs2) cache = cache_all cs2 (cache_all cs1 cache).
Proof. apply foldl_app. Qed.

Lemma cache_all_lookup_other cs cache k :
  k ∉ country_id <$> cs → cache_all cs cache !! k = cache !! k.
Proof.
  revert cache. induction cs as [|c cs IH]; intros cache Hk; [done|].
  rewrite fmap_cons in Hk. apply not_elem_of_cons in Hk as [Hne Hk].
  rewrite cache_all_cons, IH by done.
  apply lookup_insert_ne. congruence.
Qed.

Lemma cache_all_is_Some cs cache k :
  is_Some (cache !! k) → is_Some (cache_all cs cache !! k).
Proof.
  revert cache. induction cs as [|c cs IH]; intros cache Hk; [done|].
  simpl. apply IH. rewrite lookup_insert. case_decide; [eauto|done].
Qed.

(** Every country of the list is in the cache afterwards, as the last
    record of the list that has its identifier. *)
Lemma cache_all_lookup_last cs1 c cs2 cache :
  country_id c ∉ country_id <$> cs2 →
  cache_all (cs1 ++ c :: cs2) cache !! country_id c = Some c.
Proof.
  intros Hlast.
  rewrite cache_all_app, cache_all_cons, cache_all_lookup_other by done.
  apply lookup_insert_eq.
Qed.

Lemma getAllCountries_cache w :
  countryCache (getAllCountries upstream w).2
  = match countries_data upstream (requests w) countries_request with
    | inr cs => cache_all (add_flag upstream <$> cs) (countryCache w)
    | inl _ => countryCache w
    end.
Proof.
  unfold getAllCountries, try_catch, bind, axios_get, buildUrl.
  fold countries_request.
  destruct (countries_data upstream _ _); reflexivity.
Qed.

Lemma cache_all_elem cs cache k :
  k ∈ country_id <$> cs →
  ∃ c', c' ∈ cs ∧ country_id c' = k ∧ cache_all cs cache !! k = Some c'.
Proof.
  revert cache. induction cs as [|c0 cs IH]; intros cache Hk.
  { by apply elem_of_nil in Hk. }
  rewrite cache_all_cons.
  destruct (decide (k ∈ country_id <$> cs)) as [Hin|Hout].
  - destruct (IH (<[country_id c0 := c0]> cache) Hin) as (c' & Hc' & Hid & Hl).
    exists c'. split; [by right|done].
  - rewrite fmap_cons in Hk. apply elem_of_cons in Hk as [->|Hk]; [|done].
    exists c0. split; [by left|]. split; [done|].
    rewrite cache_all_lookup_other by done. apply lookup_insert_eq.
Qed.


Lemma after_cache_other op w :
  op ≠ GetAllCountries →
  (∀ c, op ≠ GetCountryById c) →
  countryCache (after op w) = countryCache w.
Proof.
  intros Hall Hby. destruct op; try done; simpl.
  - by destruct (Hby countryId).
  - unfold getUsersByCountry, axios_get.
    by destruct (users_data upstream _ _).
  - unfold getUserLite, bind, axios_get, get.
    destruct (user_data upstream _ _) as [|u]; [done|].
    destruct (lastConnectionAt u) as [s|]; [|done].
    destruct (Js.truthy (Some s)); done.
  - unfold getCitizenshipChanges, bind, get, axios_get.
    destruct (negb (Js.truthy _)); [done|].
    by destruct (actionLog_data upstream _ _).
Qed.

Lemma getCountryById_keeps countryId w k c :
  countryCache w !! k = Some c →
  countryCache (getCountryById upstream countryId w).2 !! k = Some c.
Proof.
  intros Hk. rewrite getCountryById_eq.
  destruct (countryCache w !! countryId) as [c'|] eqn:Hc; [done|].
  destruct (country_data upstream _ _) as [msg|c']; [done|]. simpl.
  rewrite lookup_insert_ne; [done|]. intros ->. congruence.
Qed.

(** C9, as amended. No operation of the client removes a key of the
    cache; every operation but [getAllCountries] leaves each entry as it
    is; [getAllCountries] leaves the entries of the countries that are
    not in its answer as they are and replaces the entry of each country
    that is in its answer by the record just fetched (the last one of the
    answer with that identifier, with its flag URL added); and a
    [getAllCountries] whose request fails leaves the whole cache as it
    is. *)
Theorem cache_never_evicts op w k :
  (is_Some (countryCache w !! k) → is_Some (countryCache (after op w) !! k))
  ∧ (op ≠ GetAllCountries →
     ∀ c, countryCache w !! k = Some c →
          countryCache (after op w) !! k = Some c)
  ∧ (op = GetAllCountries →
     ∀ cs, countries_data upstream (requests w) countries_request = inr cs →
       (k ∉ country_id <$> cs →
        countryCache (after op w) !! k = countryCache w !! k)
       ∧ (∀ cs1 c cs2, cs = cs1 ++ c :: cs2 → country_id c = k →
            k ∉ country_id <$> cs2 →
            countryCache (after op w) !! k = Some (add_flag upstream c)))
  ∧ (op = GetAllCountries →
     ∀ msg, countries_data upstream (requests w) countries_request = inl msg →
       countryCache (after op w) = countryCache w).
Proof.
  assert (Hkeep : op ≠ GetAllCountries →
     ∀ c, countryCache w !! k = Some c →
          countryCache (after op w) !! k = Some c).
  { intros Hop c Hc. destruct op as [cid| | | | | |]; try done;
      try (rewrite after_cache_other; [done|done|intros ?; discriminate]).
    simpl. by apply getCountryById_keeps. }
  split; [|split; [exact Hkeep|split]].
  - intros [c Hc].
    assert (op = GetAllCountries ∨ op ≠ GetAllCountries) as [->|Hop]
      by (destruct op; (by left) || (by right)).
    + simpl. rewrite getAllCountries_cache.
      destruct (countries_data upstream _ _); [eauto|].
      apply cache_all_is_Some. eauto.
    + rewrite (Hkeep Hop c Hc). eauto.
  - intros -> cs Hcs. simpl. rewrite getAllCountries_cache, Hcs. split.
    + intros Hk. apply cache_all_lookup_other.
      rewrite <- list_fmap_compose.
      erewrite list_fmap_ext; [exact Hk|]. intros ? c _. apply add_flag_id.
    + intros cs1 c cs2 -> <- Hlast.
      rewrite fmap_app, fmap_cons, <- (add_flag_id c).
      apply cache_all_lookup_last.
      rewrite <- list_fmap_compose.
      erewrite list_fmap_ext; [rewrite add_flag_id; exact Hlast|].
      intros ? c' _. apply add_flag_id.
  - intros -> msg Hfail. simpl. by rewrite getAllCountries_cache, Hfail.
Qed.

End Client.

(** The theorem of C1 at the start of the client, where no token has been
    set. *)
Lemma getCitizenshipChanges_requires_token_witness :
  authToken initial = ""
  ∧ getCitizenshipChanges Sample.upstream "u1" "" initial
    = (Throw (ErrorObject "Authorization token is required for this operation"),
       initial)
  ∧ requests (getCitizenshipChanges Sample.upstream "u1" "" initial).2 = []
  ∧ (getCitizenshipChanges Sample.upstream "u4" ""
       (with_authToken "secret" initial)).1
    = Throw (RequestFailure "Request failed with status code 500").
Proof.
  split; [reflexivity|].
  destruct (getCitizenshipChanges_requires_token Sample.upstream "u1" ""
              initial eq_refl) as (Hthrow & Hreq & _).
  destruct (getCitizenshipChanges_requires_token Sample.upstream "u4" ""
              initial eq_refl) as (_ & _ & Hnet).
  split; [exact Hthrow|]. split; [exact Hreq|].
  refine (proj1 (Hnet (with_authToken "secret" initial)
                      "Request failed with status code 500" _ eq_refl)).
  vm_compute. discriminate.
Defined.

(** C2, as amended. When the upstream answers the request for a user,
    [getUserLite] sends that one request and returns the record as it came
    with [active] set, and [active] is true exactly when the record has a
    last-connection timestamp that parses to a time at or after the
    cut-off; equality with the cut-off counts as active, and without a
    timestamp [active] is false.  The cut-off is the reading of the clock
    moved back by ten days of the local calendar: the reading less
    864000000 ms, corrected by the difference between the offset of the
    zone at the reading and its offset at the cut-off, so exactly 240 hours
    earlier in a zone of constant offset.  On the sample host, whose
    offset is constant, the user last seen at 2024-01-02T00:00:00.000Z,
    which is 864000000 ms before the reading of the clock, is active, and
    the user last seen one millisecond earlier is not. *)
Theorem getUserLite_active :
  (∀ LocalTZA legacyParse upstream userId w u,
     user_data upstream (requests w) (user_request userId) = inr u →
     let now := clock upstream (requests w ++ [user_request userId]) in
     let cutoff :=
       (JsDate.UTC LocalTZA
          (JsDate.LocalTime LocalTZA now - 10 * JsDate.msPerDay))%Z in
     ∃ b : bool,
       getUserLite LocalTZA legacyParse upstream userId w
       = (Return (with_active b u),
          with_requests (requests w ++ [user_request userId]) w)
       ∧ (b = true ↔
          ∃ s t, lastConnectionAt u = Some s
                 ∧ JsDate.of_string LocalTZA legacyParse s = Some t
                 ∧ JsDate.TimeClip cutoff = Some cutoff
                 ∧ (cutoff ≤ t)%Z)
       ∧ (lastConnectionAt u = None → b = false)
       ∧ (∀ off, (∀ t isUTC, LocalTZA t isUTC = off) →
                 cutoff = (now - 864000000)%Z)
       ∧ (cutoff
          = now - 864000000
            + (LocalTZA now true
               - LocalTZA (JsDate.LocalTime LocalTZA now
                           - 10 * JsDate.msPerDay) false))%Z
       ∧ (∃ r w',
            getUserLite LocalTZA legacyParse upstream userId w = (Return r, w')
            ∧ active r = Some b
            ∧ user_id r = user_id u
            ∧ username r = username u
            ∧ lastConnectionAt r = lastConnectionAt u
            ∧ requests w' = requests w ++ [user_request userId]
            ∧ countryCache w' = countryCache w
            ∧ console w' = console w))
  ∧ clock Cases.january [user_request "u4"] = 1705017600000%Z
  ∧ JsDate.of_string Sample.new_york Sample.no_legacy
      "2024-01-02T00:00:00.000Z"
    = Some (1705017600000 - 864000000)%Z
  ∧ (getUserLite Sample.new_york Sample.no_legacy Cases.january "u4"
       initial).1
    = Return {| user_id := "u4"; username := "dave";
                lastConnectionAt := Some "2024-01-02T00:00:00.000Z";
                active := Some true |}
  ∧ JsDate.of_string Sample.new_york Sample.no_legacy
      "2024-01-01T23:59:59.999Z"
    = Some (1705017600000 - 864000000 - 1)%Z
  ∧ (getUserLite Sample.new_york Sample.no_legacy Cases.january "u5"
       initial).1
    = Return {| user_id := "u5"; username := "erin";
                lastConnectionAt := Some "2024-01-01T23:59:59.999Z";
                active := Some false |}.
Proof.
  split.
  - intros LocalTZA legacyParse upstream userId w u Hresp now cutoff.
    destruct (getUserLite_active_eq LocalTZA legacyParse upstream userId w u
                Hresp) as (b & Hcall & Hiff & Hnone & Hzone).
    exists b. split; [exact Hcall|]. split; [exact Hiff|].
    split; [exact Hnone|]. split; [exact Hzone|].
    split; [apply cutoff_offsets|].
    eexists _, _. split; [exact Hcall|]. by repeat split.
  - vm_compute. by repeat split.
Qed.

(** The theorem of C2 for the fourth user of the sample, last seen at the
    very cut-off of a host in New York in January: the request is answered,
    the timestamp parses to the cut-off, and the user is active. *)
Lemma getUserLite_active_witness :
  user_data Cases.january (requests initial) (user_request "u4")
  = inr Sample.dave
  ∧ ∃ b : bool,
      getUserLite Sample.new_york Sample.no_legacy Cases.january "u4" initial
      = (Return (with_active b Sample.dave),
         with_requests (requests initial ++ [user_request "u4"]) initial)
      ∧ (b = true ↔
         ∃ s t, lastConnectionAt Sample.dave = Some s
                ∧ JsDate.of_string Sample.new_york Sample.no_legacy s = Some t
                ∧ JsDate.TimeClip 1704153600000 = Some 1704153600000%Z
                ∧ (1704153600000 ≤ t)%Z)
      ∧ b = true.
Proof.
  split; [reflexivity|].
  destruct (proj1 getUserLite_active Sample.new_york Sample.no_legacy
              Cases.january "u4" initial Sample.dave eq_refl)
    as (b & Hcall & Hiff & _).
  exists b. split; [exact Hcall|]. split; [exact Hiff|].
  apply Hiff. exists "2024-01-02T00:00:00.000Z", 1704153600000%Z.
  split; [reflexivity|]. split; [reflexivity|]. split; [reflexivity|].
  vm_compute. discriminate.
Defined.

(** C2, as stated, fails on a host whose clocks change: in New York on
    2024-03-15T12:00:00.000Z, five days after the clocks went forward, ten
    days of the calendar are 239 hours, the cut-off is
    2024-03-05T13:00:00.000Z, and a user last seen exactly 864000000 ms
    before the reading of the clock is not active. *)
Lemma getUserLite_inactive_across_dst :
  clock Cases.spring [user_request "u6"] = 1710504000000%Z
  ∧ JsDate.of_string Cases.eastern Sample.no_legacy
      "2024-03-05T12:00:00.000Z"
    = Some (1710504000000 - 864000000)%Z
  ∧ tenDaysAgo Cases.eastern 1710504000000
    = Some (1710504000000 - 864000000 + 3600000)%Z
  ∧ (getUserLite Cases.eastern Sample.no_legacy Cases.spring "u6" initial).1
    = Return {| user_id := "u6"; username := "frank";
                lastConnectionAt := Some "2024-03-05T12:00:00.000Z";
                active := Some false |}
  ∧ (getUserLite Sample.new_york Sample.no_legacy Cases.spring "u6"
       initial).1
    = Return {| user_id := "u6"; username := "frank";
                lastConnectionAt := Some "2024-03-05T12:00:00.000Z";
                active := Some true |}.
Proof. vm_compute. by repeat split. Qed.

(** The theorem of C8 on an empty cache and on the cache it leaves: the
    record of France with its flag is returned and stored, and a second
    call finds it without a request; offline, the failure is logged, [null]
    is returned and the cache stays empty. *)
Lemma getCountryById_cache_witness :
  countryCache initial !! "fr" = None
  ∧ (getCountryById Sample.upstream "fr" initial).1
    = Return (Some {| country_id := "fr"; name := "France";
                      code := Some "FR";
                      flagUrl := Some "https://flagcdn.com/w40/fr.png" |})
  ∧ countryCache (getCountryById Sample.upstream "fr" initial).2 !! "fr"
    = Some {| country_id := "fr"; name := "France"; code := Some "FR";
              flagUrl := Some "https://flagcdn.com/w40/fr.png" |}
  ∧ requests (getCountryById Sample.upstream "fr" initial).2
    = [country_request "fr"]
  ∧ getCountryById Sample.upstream "fr"
      (getCountryById Sample.upstream "fr" initial).2
    = (Return (Some {| country_id := "fr"; name := "France";
                       code := Some "FR";
                       flagUrl := Some "https://flagcdn.com/w40/fr.png" |}),
       (getCountryById Sample.upstream "fr" initial).2)
  ∧ (getCountryById Sample.offline "fr" initial).1 = Return None
  ∧ countryCache (getCountryById Sample.offline "fr" initial).2 = ∅
  ∧ console (getCountryById Sample.offline "fr" initial).2
    = [("Error fetching country fr:", RequestFailure "Network Error")].
Proof.
  split; [reflexivity|].
  pose proof (proj2 (getCountryById_cache Sample.upstream "fr" initial)
                eq_refl _ eq_refl)
    as (Hreq & _ & Hcall & Hstored & _ & _ & Hagain & _).
  pose proof (proj2 (getCountryById_cache Sample.offline "fr" initial)
                eq_refl _ eq_refl)
    as (_ & _ & Hfail & Hkept & Hlogged).
  split; [exact (f_equal fst Hcall)|]. split; [exact Hstored|].
  split; [exact Hreq|]. split; [exact Hagain|].
  split; [exact (f_equal fst Hfail)|]. split; [exact Hkept|exact Hlogged].
Defined.

(** The theorem of C9 on the cache that holds France: [getCountryById]
    keeps the entry, [getAllCountries] replaces it by the listed record,
    and a [getAllCountries] that fails leaves the cache as it is. *)
Lemma cache_never_evicts_witness :
  countryCache (after Sample.utc Sample.no_legacy Sample.upstream
                  (GetCountryById "fr") initial) !! "fr"
  = Some (add_flag Sample.upstream Sample.france_by_id)
  ∧ countryCache
      (after Sample.utc Sample.no_legacy Sample.upstream (GetCountryById "de")
         (after Sample.utc Sample.no_legacy Sample.upstream
            (GetCountryById "fr") initial)) !! "fr"
    = Some (add_flag Sample.upstream Sample.france_by_id)
  ∧ countryCache
      (after Sample.utc Sample.no_legacy Sample.upstream GetAllCountries
         (after Sample.utc Sample.no_legacy Sample.upstream
            (GetCountryById "fr") initial)) !! "fr"
    = Some (add_flag Sample.upstream Sample.france_listed)
  ∧ countryCache
      (after Sample.utc Sample.no_legacy Sample.offline GetAllCountries
         (after Sample.utc Sample.no_legacy Sample.upstream
            (GetCountryById "fr") initial))
    = countryCache
        (after Sample.utc Sample.no_legacy Sample.upstream
           (GetCountryById "fr") initial).
Proof.
  split; [reflexivity|]. split; [|split].
  - apply (cache_never_evicts Sample.utc Sample.no_legacy Sample.upstream
             (GetCountryById "de")); [discriminate|reflexivity].
  - apply (proj2 (proj1 (proj2 (proj2 (cache_never_evicts Sample.utc
                                         Sample.no_legacy Sample.upstream
                                         GetAllCountries _ "fr")))
                    eq_refl [Sample.france_listed] eq_refl)
             [] Sample.france_listed []); [reflexivity|reflexivity|].
    apply not_elem_of_nil.
  - exact (proj2 (proj2 (proj2 (cache_never_evicts Sample.utc
                                  Sample.no_legacy Sample.offline
                                  GetAllCountries _ "fr")))
             eq_refl "Network Error" eq_refl).
Defined.

(** C9, as stated, fails: the entry that [getCountryById] stored for a
    country is replaced when [getAllCountries] answers with another record
    for the same identifier. *)
Lemma getAllCountries_replaces_entry :
  countryCache
    (Api.after Sample.utc Sample.no_legacy Sample.upstream
       (GetCountryById "fr") initial) !! "fr"
  = Some (add_flag Sample.upstream Sample.france_by_id)
  ∧ countryCache
      (Api.after Sample.utc Sample.no_legacy Sample.upstream GetAllCountries
         (Api.after Sample.utc Sample.no_legacy Sample.upstream
            (GetCountryById "fr") initial)) !! "fr"
    = Some (add_flag Sample.upstream Sample.france_listed)
  ∧ name (add_flag Sample.upstream Sample.france_by_id) = "France"
  ∧ name (add_flag Sample.upstream Sample.france_listed) = "French Republic"
  ∧ bool_decide
      (countryCache
         (Api.after Sample.utc Sample.no_legacy Sample.upstream
            GetAllCountries
            (Api.after Sample.utc Sample.no_legacy Sample.upstream
               (GetCountryById "fr") initial)) !! "fr"
       = countryCache
           (Api.after Sample.utc Sample.no_legacy Sample.upstream
              (GetCountryById "fr") initial) !! "fr")
    = false.
Proof. vm_compute. repeat split; reflexivity. Qed.

End ApiFacts.

(** ** Sorting *)

Module SortFacts.

Import Spec.

Local Open Scope Z_scope.

Section Sort.

Context {A : Type}.

Implicit Types (c : A → A → option Z) (l : list A).

Lemma sort_insert_perm c x l : Js.sort_insert c x l ≡ₚ x :: l.
Proof.
  induction l as [|y l IH]; simpl; [done|].
  case_match; [done|]. rewrite IH. apply Permutation_swap.
Qed.

Lemma sort_perm c l : Js.sort c l ≡ₚ l.
Proof.
  induction l as [|x l IH]; simpl; [done|].
  by rewrite sort_insert_perm, IH.
Qed.

Lemma sort_insert_ext c c' x l :
  (∀ y, y ∈ l → Js.SortCompare c x y = Js.SortCompare c' x y) →
  Js.sort_insert c x l = Js.sort_insert c' x l.
Proof.
  induction l as [|y l IH]; intros H; simpl; [done|].
  rewrite (H y), IH; [done| |by left].
  intros z Hz. apply H. by right.
Qed.

(** The sort depends on the comparator only through its values on the
    elements of the list. *)
Lemma sort_ext c c' l :
  (∀ x y, x ∈ l → y ∈ l → Js.SortCompare c x y = Js.SortCompare c' x y) →
  Js.sort c l = Js.sort c' l.
Proof.
  induction l as [|x l IH]; intros H; simpl; [done|].
  rewrite IH.
  - apply sort_insert_ext. intros y Hy. apply H; [by left|].
    right. by rewrite <- (sort_perm c' l).
  - intros y z Hy Hz. apply H; by right.
Qed.

Variable key : A → Z.

Lemma sort_insert_sorted x l :
  StronglySorted (λ a b, key a ≤ key b) l →
  StronglySorted (λ a b, key a ≤ key b) (Js.sort_insert (by_key key) x l).
Proof.
  induction 1 as [|y l Hs IH Hy]; simpl.
  { repeat constructor. }
  change (Js.SortCompare (by_key key) x y) with (key x - key y).
  destruct (Z.leb_spec (key x - key y) 0) as [Hle|Hgt].
  - constructor; [by constructor|].
    constructor; [lia|]. eapply Forall_impl; [exact Hy|].
    simpl. intros. lia.
  - constructor; [exact IH|].
    rewrite sort_insert_perm. constructor; [lia|done].
Qed.

Lemma sort_sorted l :
  StronglySorted (λ a b, key a ≤ key b) (Js.sort (by_key key) l).
Proof.
  induction l as [|x l IH]; simpl; [constructor|].
  by apply sort_insert_sorted.
Qed.

Lemma sort_insert_filter k x l :
  filter (λ y, key y = k) (Js.sort_insert (by_key key) x l)
  = filter (λ y, key y = k) (x :: l).
Proof.
  induction l as [|y l IH]; cbn [Js.sort_insert]; [done|].
  change (Js.SortCompare (by_key key) x y) with (key x - key y).
  destruct (Z.leb_spec (key x - key y) 0) as [Hle|Hgt]; [done|].
  rewrite (filter_cons _ y), IH, !(filter_cons _ x), (filter_cons _ y).
  destruct (decide (key x = k)), (decide (key y = k)); try done. lia.
Qed.

(** Stability: the elements of one key come out in the order they went
    in. *)
Lemma sort_stable k l :
  filter (λ y, key y = k) (Js.sort (by_key key) l)
  = filter (λ y, key y = k) l.
Proof.
  induction l as [|x l IH]; cbn [Js.sort]; [done|].
  by rewrite sort_insert_filter, !filter_cons, IH.
Qed.

Lemma filter_key_head k x l :
  filter (λ y, key y = k) (x :: l)
  = if decide (key x = k) then x :: filter (λ y, key y = k) l
    else filter (λ y, key y = k) l.
Proof. by rewrite filter_cons. Qed.

(** Two sorted lists that hold the same elements of each key, in the same
    order, are equal. *)
Lemma sorted_stable_unique l1 l2 :
  StronglySorted (λ a b, key a ≤ key b) l1 →
  StronglySorted (λ a b, key a ≤ key b) l2 →
  (∀ k, filter (λ y, key y = k) l1 = filter (λ y, key y = k) l2) →
  l1 = l2.
Proof.
  intros Hs1. revert l2.
  induction Hs1 as [|x l1 Hs1 IH Hx]; intros l2 Hs2 Hf.
  - destruct l2 as [|y l2]; [done|].
    specialize (Hf (key y)). rewrite filter_key_head, decide_True in Hf by done.
    discriminate.
  - destruct Hs2 as [|y l2 Hs2 Hy].
    { specialize (Hf (key x)).
      rewrite filter_key_head, decide_True in Hf by done. discriminate. }
    assert (Hxy : key x ≤ key y).
    { pose proof (Hf (key y)) as H.
      rewrite (filter_key_head _ y), decide_True in H by done.
      assert (Hin : y ∈ filter (λ z, key z = key y) (x :: l1))
        by (rewrite H; by left).
      apply list_elem_of_filter in Hin as [_ Hin].
      apply elem_of_cons in Hin as [->|Hin]; [lia|].
      rewrite Forall_forall in Hx. by apply Hx. }
    assert (Hyx : key y ≤ key x).
    { pose proof (Hf (key x)) as H.
      rewrite (filter_key_head _ x), decide_True in H by done.
      assert (Hin : x ∈ filter (λ z, key z = key x) (y :: l2))
        by (rewrite <- H; by left).
      apply list_elem_of_filter in Hin as [_ Hin].
      apply elem_of_cons in Hin as [->|Hin]; [lia|].
      rewrite Forall_forall in Hy. by apply Hy. }
    assert (Hhead : x = y ∧ ∀ k, filter (λ z, key z = k) l1
                                 = filter (λ z, key z = k) l2).
    { pose proof (Hf (key x)) as H.
      rewrite !filter_key_head, !decide_True in H by lia.
      injection H as -> H. split; [done|]. intros k.
      specialize (Hf k). rewrite !filter_key_head in Hf.
      destruct (decide (key y = k)); [by injection Hf|done]. }
    destruct Hhead as [-> Hrest]. f_equal. by apply IH.
Qed.

(** So the sort is the only one there is: any arrangement that is sorted
    by the key and keeps the elements of each key in their order is the
    one the model computes. *)
Lemma sort_unique l l' :
  StronglySorted (λ a b, key a ≤ key b) l' →
  (∀ k, filter (λ y, key y = k) l' = filter (λ y, key y = k) l) →
  l' = Js.sort (by_key key) l.
Proof.
  intros Hs Hf. apply sorted_stable_unique; [done|apply sort_sorted|].
  intros k. by rewrite sort_stable.
Qed.

End Sort.

Lemma StronglySorted_weaken {A} (R1 R2 : relation A) l :
  (∀ x y, R1 x y → R2 x y) → StronglySorted R1 l → StronglySorted R2 l.
Proof.
  intros H. induction 1; constructor; [done|].
  eapply Forall_impl; eauto.
Qed.

#[local] Instance Z_ge_flip_antisymm : AntiSymm (=) (flip Z.le).
Proof. intros x y. unfold flip. lia. Qed.

(** The keys of a descending sort are the keys of the ascending sort,
    reversed. *)
Lemma sort_keys_reverse {A} (key : A → Z) (l : list A) :
  key <$> Js.sort (by_key (λ x, - key x)) l
  = reverse (key <$> Js.sort (by_key key) l).
Proof.
  apply (StronglySorted_unique (flip Z.le)).
  - apply StronglySorted_fmap with (R1 := λ a b, - key a ≤ - key b);
      [|apply sort_sorted].
    intros x y. unfold flip. lia.
  - apply Sorted_StronglySorted; [intros x y z; unfold flip; lia|].
    apply Sorted_reverse, StronglySorted_Sorted.
    apply StronglySorted_fmap with (R1 := λ a b, key a ≤ key b); [done|].
    apply sort_sorted.
  - by rewrite reverse_Permutation, !sort_perm.
Qed.

End SortFacts.

(** ** The computed values of the view *)

Module ViewFacts.

Import View Spec.

Local Open Scope Z_scope.

Lemma filter_ext_in {A} (P Q : A → Prop) `{!∀ x, Decision (P x)}
    `{!∀ x, Decision (Q x)} (l : list A) :
  (∀ x, x ∈ l → P x ↔ Q x) → filter P l = filter Q l.
Proof.
  induction l as [|x l IH]; intros Hiff; [done|].
  rewrite !filter_cons, IH by (intros; apply Hiff; by right).
  pose proof (Hiff x ltac:(by left)) as Hx.
  destruct (decide (P x)), (decide (Q x)); tauto || done.
Qed.

Lemma filter_never {A} (l : list A) : filter (λ _, False) l = [].
Proof. induction l; [done|]. rewrite filter_cons_False; tauto. Qed.

Section Computed.

Variable LocalTZA : Z → bool → Z.
Variable legacyParse : string → option Z.
Variable toLocaleDateString : Z → string.

Local Abbreviation flatten := (View.flatten LocalTZA legacyParse).
Local Abbreviation flatten_change :=
  (View.flatten_change LocalTZA legacyParse).
Local Abbreviation allChanges := (View.allChanges LocalTZA legacyParse).
Local Abbreviation new_Date := (View.new_Date LocalTZA legacyParse).
Local Abbreviation startDate := (Spec.startDate LocalTZA legacyParse).
Local Abbreviation endDate := (Spec.endDate LocalTZA legacyParse).
Local Abbreviation passes := (Spec.passes LocalTZA legacyParse).

(** *** Flattening *)

Lemma flatten_cons player players :
  flatten (player :: players)
  = (flatten_change player <$> citizenshipChanges player) ++ flatten players.
Proof. reflexivity. Qed.

(** One row per change, in the order of the players and of their
    changes. *)
Lemma flatten_changes players :
  change <$> flatten players = players ≫= citizenshipChanges.
Proof.
  induction players as [|p ps IH]; [done|].
  rewrite flatten_cons, fmap_app, IH, <- list_fmap_compose.
  simpl. f_equal. induction (citizenshipChanges p) as [|c l IHl]; [done|].
  rewrite fmap_cons. by f_equal.
Qed.

Lemma flatten_length players :
  length (flatten players)
  = sum_list (length ∘ citizenshipChanges <$> players).
Proof.
  induction players as [|p ps IH]; [done|].
  rewrite flatten_cons, length_app, length_fmap, IH. done.
Qed.

(** The identifiers come from the new field when it is not empty and from
    the legacy field otherwise. *)
Lemma flatten_change_from player c d :
  Api.data c = Some d →
  fromCountryId (flatten_change player c)
  = (if Js.truthy (Api.fromCountryId d) then Api.fromCountryId d
     else Api.from d)
  ∧ toCountryId (flatten_change player c)
    = (if Js.truthy (Api.toCountryId d) then Api.toCountryId d
       else Api.to d).
Proof. intros Hd. unfold View.flatten_change. simpl. rewrite Hd. done. Qed.

(** The date is parsed from [createdAt] when that is not empty, whatever
    [timestamp] holds. *)
Lemma flatten_change_date_createdAt player c s :
  Api.createdAt c = Some s → s ≠ "" →
  date (flatten_change player c) = new_Date s.
Proof.
  intros Hc Hs. apply ApiFacts.truthy_Some in Hs.
  unfold View.flatten_change. simpl. rewrite Hc.
  unfold Js.or at 2. rewrite Hs. unfold Js.or. rewrite Hs. done.
Qed.

Lemma flatten_change_date_timestamp player c s :
  Js.truthy (Api.createdAt c) = false →
  Api.timestamp c = Some s → s ≠ "" →
  date (flatten_change player c) = new_Date s.
Proof.
  intros Hc Ht Hs. apply ApiFacts.truthy_Some in Hs.
  unfold View.flatten_change. simpl.
  unfold Js.or at 2. rewrite Hc, Ht. unfold Js.or. rewrite Hs. done.
Qed.


Lemma formatDate_invalid : formatDate toLocaleDateString None = "Invalid date".
Proof. reflexivity. Qed.

(** Flattening gives one row per change, in the order of the players and
    of their changes, each row with the names of its player; the
    identifiers of a row are those of the new fields of its change when
    these are not empty and those of the legacy fields otherwise (none
    without [data]); and a row without a date that parses is shown as
    "Invalid date". *)
Theorem flatten_rows players :
  change <$> flatten players = players ≫= citizenshipChanges
  ∧ length (flatten players)
    = sum_list (length ∘ citizenshipChanges <$> players)
  ∧ Forall (λ r, ∃ p, p ∈ players ∧ change r ∈ citizenshipChanges p
                      ∧ r = flatten_change p (change r)) (flatten players)
  ∧ (∀ p c,
       username (flatten_change p c) = Api.username (user p)
       ∧ userId (flatten_change p c) = Api.user_id (user p)
       ∧ (Api.data c = None →
          fromCountryId (flatten_change p c) = None
          ∧ toCountryId (flatten_change p c) = None)
       ∧ (∀ d, Api.data c = Some d →
          (Js.truthy (Api.fromCountryId d) = true →
           fromCountryId (flatten_change p c) = Api.fromCountryId d)
          ∧ (Js.truthy (Api.fromCountryId d) = false →
             fromCountryId (flatten_change p c) = Api.from d)
          ∧ (Js.truthy (Api.toCountryId d) = true →
             toCountryId (flatten_change p c) = Api.toCountryId d)
          ∧ (Js.truthy (Api.toCountryId d) = false →
             toCountryId (flatten_change p c) = Api.to d))
       ∧ (date (flatten_change p c) = None →
          formatDate toLocaleDateString (date (flatten_change p c))
          = "Invalid date")).
Proof.
  split; [apply flatten_changes|]. split; [apply flatten_length|]. split.
  - induction players as [|p ps IH]; [constructor|].
    rewrite flatten_cons. apply Forall_app. split.
    + apply Forall_fmap, Forall_forall. intros c Hc.
      exists p. simpl. split; [by left|done].
    + eapply Forall_impl; [exact IH|].
      intros r (p' & Hp' & Hc & Hr). exists p'. split; [by right|done].
  - intros p c. split; [done|]. split; [done|]. split; [|split].
    + intros Hd. unfold View.flatten_change. simpl. by rewrite Hd.
    + intros d Hd. destruct (flatten_change_from p c d Hd) as [Hf Ht].
      rewrite Hf, Ht. by repeat split; intros ->.
    + intros ->. reflexivity.
Qed.

(** *** Sorting *)

Lemma compareFn_asc a b :
  valid a → valid b →
  Js.SortCompare (compareFn asc) a b
  = Js.SortCompare (by_key time_of) a b.
Proof.
  unfold valid, time_of, Js.SortCompare, by_key, compareFn.
  intros [x Hx] [y Hy]. rewrite Hx, Hy. done.
Qed.

Lemma compareFn_desc a b :
  valid a → valid b →
  Js.SortCompare (compareFn desc) a b
  = Js.SortCompare (by_key (λ r, - time_of r)) a b.
Proof.
  unfold valid, time_of, Js.SortCompare, by_key, compareFn.
  intros [x Hx] [y Hy]. rewrite Hx, Hy. simpl. lia.
Qed.

Lemma sort_asc l :
  Forall valid l →
  Js.sort (compareFn asc) l = Js.sort (by_key time_of) l.
Proof.
  intros Hv. apply SortFacts.sort_ext. intros x y Hx Hy.
  rewrite Forall_forall in Hv. apply compareFn_asc; auto.
Qed.

Lemma sort_desc l :
  Forall valid l →
  Js.sort (compareFn desc) l
  = Js.sort (by_key (λ r, - time_of r)) l.
Proof.
  intros Hv. apply SortFacts.sort_ext. intros x y Hx Hy.
  rewrite Forall_forall in Hv. apply compareFn_desc; auto.
Qed.

Lemma date_time_of l :
  Forall valid l → date <$> l = Some <$> (time_of <$> l).
Proof.
  induction 1 as [|r l [t Ht] _ IH]; [done|].
  rewrite !fmap_cons, IH. f_equal. unfold time_of. by rewrite Ht.
Qed.

Lemma sort_dates_reverse l :
  Forall valid l →
  date <$> Js.sort (compareFn desc) l
  = reverse (date <$> Js.sort (compareFn asc) l).
Proof.
  intros Hv. rewrite sort_asc, sort_desc by done.
  rewrite !date_time_of by (by rewrite SortFacts.sort_perm).
  by rewrite SortFacts.sort_keys_reverse, fmap_reverse.
Qed.

Lemma sort_dates_stable o d l :
  Forall valid l →
  filter (λ r, date r = d) (Js.sort (compareFn o) l)
  = filter (λ r, date r = d) l.
Proof.
  intros Hv.
  assert (Hs : Forall valid (Js.sort (compareFn o) l))
    by (by rewrite SortFacts.sort_perm).
  rewrite Forall_forall in Hv, Hs.
  destruct d as [k|].
  - rewrite (filter_ext_in _ (λ r, time_of r = k) (Js.sort _ _)),
      (filter_ext_in _ (λ r, time_of r = k) l).
    + destruct o.
      * rewrite sort_asc by (by apply Forall_forall).
        apply SortFacts.sort_stable.
      * rewrite sort_desc by (by apply Forall_forall).
        rewrite (filter_ext_in _ (λ r, - time_of r = - k)) by (intros; lia).
        rewrite SortFacts.sort_stable.
        apply filter_ext_in. intros. lia.
    + intros r Hr. destruct (Hv r Hr) as [t Ht].
      unfold time_of. rewrite Ht. simpl. split; congruence.
    + intros r Hr. destruct (Hs r Hr) as [t Ht].
      unfold time_of. rewrite Ht. simpl. split; congruence.
  - rewrite (filter_ext_in _ (λ _, False) (Js.sort _ _)),
      (filter_ext_in _ (λ _, False) l).
    + by rewrite !filter_never.
    + intros r Hr. destruct (Hv r Hr) as [t Ht]. rewrite Ht. done.
    + intros r Hr. destruct (Hs r Hr) as [t Ht]. rewrite Ht. done.
Qed.

Lemma sort_dates_sorted o l :
  Forall valid l →
  StronglySorted
    (λ a b, match o with
            | asc => time_of a ≤ time_of b
            | desc => time_of b ≤ time_of a
            end)
    (Js.sort (compareFn o) l).
Proof.
  intros Hv. destruct o.
  - rewrite sort_asc by done. apply SortFacts.sort_sorted.
  - rewrite sort_desc by done.
    eapply SortFacts.StronglySorted_weaken;
      [|apply (SortFacts.sort_sorted (λ r, - time_of r))].
    simpl. intros. lia.
Qed.

(** C6, as amended. When every row has a valid date, the rows in either
    order are the flattened rows rearranged and sorted by date in that
    order; the dates in the toggled order are the dates in the first
    order, reversed; and in both orders the rows of one date stay as the
    flattening produced them. *)
Theorem allChanges_toggle players sortOrder :
  Forall valid (flatten players) →
  allChanges players sortOrder ≡ₚ flatten players
  ∧ StronglySorted
      (λ a b, match sortOrder with
              | asc => time_of a ≤ time_of b
              | desc => time_of b ≤ time_of a
              end)
      (allChanges players sortOrder)
  ∧ date <$> allChanges players (toggleSort sortOrder)
    = reverse (date <$> allChanges players sortOrder)
  ∧ ∀ d o,
      filter (λ r, date r = d) (allChanges players o)
      = filter (λ r, date r = d) (flatten players).
Proof.
  intros Hv. unfold View.allChanges.
  split; [apply SortFacts.sort_perm|].
  split; [by apply sort_dates_sorted|]. split.
  - destruct sortOrder; simpl.
    + by apply sort_dates_reverse.
    + rewrite sort_dates_reverse by done. by rewrite reverse_involutive.
  - intros d o. by apply sort_dates_stable.
Qed.

(** *** Filtering *)

Lemma filter_if {A} (b : bool) (P : A → Prop) `{!∀ x, Decision (P x)}
    (l : list A) :
  (if b then filter P l else l) = filter (λ x, b = true → P x) l.
Proof.
  destruct b.
  - apply filter_ext_in. intros x _. tauto.
  - rewrite (filter_ext_in _ (λ _, True)) by (intros x _; split; done).
    induction l as [|x l IH]; [done|].
    rewrite filter_cons_True by done. by f_equal.
Qed.

(** The four filters in sequence keep exactly the rows that pass every
    filter that is set, in their order: equality with the chosen source
    and destination, a date at or after the start bound and at or before
    the end bound; a filter that is not set excludes no row. *)
Theorem filteredChanges_passes rows source destination start stop :
  filteredChanges LocalTZA legacyParse rows source destination start stop
  = filter (passes source destination start stop) rows.
Proof.
  unfold filteredChanges. cbv zeta.
  rewrite 4!filter_if, 3!list_filter_filter.
  apply filter_ext_in. intros r _. unfold passes, startDate, endDate.
  rewrite !ApiFacts.truthy_Some. unfold Js.strict_eq.
  rewrite !bool_decide_spec, !Is_true_true. tauto.
Qed.

Lemma new_Date_date_only s y m d :
  JsDate.parse_date s = Some (y, m, d, EmptyString) →
  JsDate.legal_date y m d = true →
  new_Date s = JsDate.TimeClip (JsDate.MakeDate (JsDate.MakeDay y (m - 1) d) 0).
Proof.
  intros Hp Hl. unfold View.new_Date, JsDate.of_string, JsDate.parse,
    JsDate.parse_iso.
  rewrite Hp. simpl. rewrite Hl. done.
Qed.

Lemma Day_shift day off :
  JsDate.Day (JsDate.MakeDate day 0 + off) = day + off `div` JsDate.msPerDay.
Proof.
  unfold JsDate.Day, JsDate.MakeDate. rewrite Z.add_0_r, Z.add_comm.
  rewrite Z.div_add by done. lia.
Qed.

(** In a zone of constant offset, the bound for a date-only string is the
    given time of day on the local day that contains the UTC midnight of
    the date: the day itself east of Greenwich, the day before west of
    it. *)
Lemma setHours_date_only off s y m d t h mi sec ms :
  (∀ t isUTC, LocalTZA t isUTC = off) →
  JsDate.parse_date s = Some (y, m, d, EmptyString) →
  JsDate.legal_date y m d = true →
  new_Date s = Some t →
  JsDate.setHours LocalTZA (new_Date s) h mi sec ms
  = JsDate.TimeClip
      (JsDate.UTC LocalTZA
         (JsDate.MakeDate
            (JsDate.MakeDay y (m - 1) d + off `div` JsDate.msPerDay)
            (JsDate.MakeTime h mi sec ms))).
Proof.
  intros Hoff Hp Hl Ht. rewrite Ht.
  rewrite (new_Date_date_only _ _ _ _ Hp Hl) in Ht.
  apply ApiFacts.TimeClip_Some in Ht. subst t.
  rewrite DateFacts.setHours_local. unfold JsDate.LocalTime.
  by rewrite Hoff, Day_shift.
Qed.

(** The bounds of the date filters for a date-only string, in a zone of
    constant offset: the first and the last millisecond of that day in
    local time when the zone is at or east of Greenwich, and of the day
    before when it is west of it. *)
Theorem filter_bounds_fixed_offset off s y m d t :
  (∀ t isUTC, LocalTZA t isUTC = off) →
  JsDate.parse_date s = Some (y, m, d, EmptyString) →
  JsDate.legal_date y m d = true →
  new_Date s = Some t →
  (0 ≤ off < JsDate.msPerDay →
   startDate s
   = JsDate.TimeClip
       (JsDate.UTC LocalTZA
          (JsDate.MakeDate (JsDate.MakeDay y (m - 1) d)
                           (JsDate.MakeTime 0 0 0 0)))
   ∧ endDate s
     = JsDate.TimeClip
         (JsDate.UTC LocalTZA
            (JsDate.MakeDate (JsDate.MakeDay y (m - 1) d)
                             (JsDate.MakeTime 23 59 59 999))))
  ∧ (- JsDate.msPerDay ≤ off < 0 →
     startDate s
     = JsDate.TimeClip
         (JsDate.UTC LocalTZA
            (JsDate.MakeDate (JsDate.MakeDay y (m - 1) d - 1)
                             (JsDate.MakeTime 0 0 0 0)))
     ∧ endDate s
       = JsDate.TimeClip
           (JsDate.UTC LocalTZA
              (JsDate.MakeDate (JsDate.MakeDay y (m - 1) d - 1)
                               (JsDate.MakeTime 23 59 59 999)))).
Proof.
  clear toLocaleDateString.
  intros Hoff Hp Hl Ht. unfold Spec.startDate, Spec.endDate.
  rewrite !(setHours_date_only off s y m d t) by done.
  split; intros Hrange.
  - rewrite Z.div_small, Z.add_0_r by done. done.
  - replace (off `div` JsDate.msPerDay) with (-1); [done|].
    unfold JsDate.msPerDay in *. Z.div_mod_to_equations. lia.
Qed.

End Computed.

(** The bounds for 2024-01-01 in the UTC zone and in New York. *)
Lemma filter_bounds_fixed_offset_witness :
  (∀ (t : Z) (isUTC : bool), Sample.utc t isUTC = 0)
  ∧ JsDate.parse_date "2024-01-01" = Some (2024, 1, 1, EmptyString)
  ∧ JsDate.legal_date 2024 1 1 = true
  ∧ View.new_Date Sample.utc Sample.no_legacy "2024-01-01"
    = Some 1704067200000
  ∧ startDate Sample.utc Sample.no_legacy "2024-01-01" = Some 1704067200000
  ∧ endDate Sample.utc Sample.no_legacy "2024-01-01" = Some 1704153599999
  ∧ startDate Sample.new_york Sample.no_legacy "2024-01-01"
    = Some 1703998800000
  ∧ endDate Sample.new_york Sample.no_legacy "2024-01-01"
    = Some 1704085199999.
Proof.
  split; [reflexivity|]. split; [reflexivity|]. split; [reflexivity|].
  split; [reflexivity|].
  destruct (proj1 (filter_bounds_fixed_offset Sample.utc Sample.no_legacy
                     0 "2024-01-01" 2024 1 1 1704067200000
                     (λ _ _, eq_refl) eq_refl eq_refl eq_refl))
    as [Hs He]; [done|].
  destruct (proj2 (filter_bounds_fixed_offset Sample.new_york
                     Sample.no_legacy (-18000000) "2024-01-01" 2024 1 1
                     1704067200000 (λ _ _, eq_refl) eq_refl eq_refl eq_refl))
    as [Hs' He']; [done|].
  split; [exact Hs|]. split; [exact He|]. split; [exact Hs'|exact He'].
Defined.

(** C4 at the failing input. In New York, with both date filters set to
    2024-01-01, the row of that day at 23:00 local time is left out and the
    row of the day before at noon is kept; in the UTC zone the same filters
    keep the row of that day only.  The bounds in New York are the first
    and the last millisecond of 2023-12-31 in local time, a day before
    those of 2024-01-01. *)
Theorem filteredChanges_new_york :
  Api.change_id ∘ change <$>
    filteredChanges Sample.new_york Sample.no_legacy
      (View.allChanges Sample.new_york Sample.no_legacy
         [Sample.player Sample.alice Sample.alice_changes] asc)
      "" "" "2024-01-01" "2024-01-01"
  = ["c1"]
  ∧ Api.createdAt ∘ change <$>
      filteredChanges Sample.new_york Sample.no_legacy
        (View.allChanges Sample.new_york Sample.no_legacy
           [Sample.player Sample.alice Sample.alice_changes] asc)
        "" "" "2024-01-01" "2024-01-01"
    = [Some "2023-12-31T12:00:00"]
  ∧ Api.change_id ∘ change <$>
      filteredChanges Sample.utc Sample.no_legacy
        (View.allChanges Sample.utc Sample.no_legacy
           [Sample.player Sample.alice Sample.alice_changes] asc)
        "" "" "2024-01-01" "2024-01-01"
    = ["c2"]
  ∧ startDate Sample.new_york Sample.no_legacy "2024-01-01"
    = Some 1703998800000
  ∧ JsDate.UTC Sample.new_york
      (JsDate.MakeDate (JsDate.MakeDay 2024 0 1) (JsDate.MakeTime 0 0 0 0))
    = 1704085200000
  ∧ endDate Sample.new_york Sample.no_legacy "2024-01-01"
    = Some 1704085199999
  ∧ JsDate.UTC Sample.new_york
      (JsDate.MakeDate (JsDate.MakeDay 2024 0 1)
                       (JsDate.MakeTime 23 59 59 999))
    = 1704171599999.
Proof. vm_compute. repeat split; reflexivity. Qed.

(** C3 at the failing input. A change created on 2 January whose
    [timestamp] is 1 January gets the date of its creation. *)
Theorem flatten_change_restamped :
  Api.timestamp Sample.restamped_change = Some "2024-01-01T00:00:00.000Z"
  ∧ Api.createdAt Sample.restamped_change = Some "2024-01-02T00:00:00.000Z"
  ∧ date (View.flatten_change Sample.utc Sample.no_legacy
            (Sample.player Sample.alice [Sample.restamped_change])
            Sample.restamped_change)
    = View.new_Date Sample.utc Sample.no_legacy "2024-01-02T00:00:00.000Z"
  ∧ View.new_Date Sample.utc Sample.no_legacy "2024-01-02T00:00:00.000Z"
    = Some 1704153600000
  ∧ View.new_Date Sample.utc Sample.no_legacy "2024-01-01T00:00:00.000Z"
    = Some 1704067200000
  ∧ bool_decide
      (date (View.flatten_change Sample.utc Sample.no_legacy
               (Sample.player Sample.alice [Sample.restamped_change])
               Sample.restamped_change)
       = View.new_Date Sample.utc Sample.no_legacy
           "2024-01-01T00:00:00.000Z")
    = false.
Proof. vm_compute. repeat split; reflexivity. Qed.

(** *** Grouping *)

Example first_seen_example :
  first_seen ["bob"; "alice"; "bob"; "carol"; "alice"]
  = ["bob"; "alice"; "carol"].
Proof. reflexivity. Qed.

Lemma first_seen_elem x l : x ∈ first_seen l ↔ x ∈ l.
Proof.
  induction l as [|y l IH]; [done|]. simpl.
  rewrite !elem_of_cons, list_elem_of_filter, IH.
  destruct (decide (x = y)); tauto.
Qed.

Lemma first_seen_NoDup l : NoDup (first_seen l).
Proof.
  induction l as [|y l IH]; simpl; [constructor|].
  constructor; [|by apply NoDup_filter].
  rewrite list_elem_of_filter. tauto.
Qed.

Lemma first_seen_snoc l x :
  first_seen (l ++ [x])
  = if decide (x ∈ l) then first_seen l else first_seen l ++ [x].
Proof.
  induction l as [|y l IH]; [done|].
  cbn [app first_seen]. rewrite IH.
  destruct (decide (x ∈ l)) as [Hin|Hin],
    (decide (x ∈ y :: l)) as [Hin'|Hin']; rewrite elem_of_cons in Hin'.
  - done.
  - tauto.
  - destruct Hin' as [->|]; [|done].
    rewrite filter_app, filter_cons_False, filter_nil, app_nil_r; [done|].
    intros H. by apply H.
  - rewrite filter_app, filter_cons_True, filter_nil; [done|].
    intros ->. tauto.
Qed.

Section Tabulated.

Context {V : Type} (f : string → V).

Lemma map_get_tabulated k (ks : list string) :
  Js.map_get k ((λ u, (u, f u)) <$> ks)
  = if decide (k ∈ ks) then Some (f k) else None.
Proof.
  induction ks as [|u ks IH]; [done|].
  cbn [fmap list_fmap Js.map_get].
  destruct (String.eqb_spec k u) as [->|Hne].
  - rewrite decide_True by (by left). done.
  - rewrite IH. destruct (decide (k ∈ ks)) as [Hin|Hin].
    + rewrite decide_True by (by right). done.
    + rewrite decide_False; [done|]. rewrite elem_of_cons. tauto.
Qed.

Lemma map_set_absent k v (m : Js.Map V) :
  k ∉ m.*1 → Js.map_set k v m = m ++ [(k, v)].
Proof.
  induction m as [|[u w] m IH]; intros Hk; [done|].
  rewrite fmap_cons in Hk. apply not_elem_of_cons in Hk as [Hne Hk].
  cbn [Js.map_set app]. simpl in Hne.
  destruct (String.eqb_spec k u); [done|]. by rewrite IH.
Qed.

Lemma map_set_present k v (ks : list string) :
  NoDup ks → k ∈ ks →
  Js.map_set k v ((λ u, (u, f u)) <$> ks)
  = (λ u, (u, if decide (u = k) then v else f u)) <$> ks.
Proof.
  induction 1 as [|u ks Hu Hnd IH]; intros Hk; [by apply elem_of_nil in Hk|].
  cbn [fmap list_fmap Js.map_set].
  destruct (String.eqb_spec k u) as [->|Hne].
  - rewrite decide_True by done. f_equal.
    apply list_fmap_ext. intros i u' Hu'.
    rewrite decide_False; [done|]. intros ->.
    apply Hu. by eapply list_elem_of_lookup_2.
  - rewrite decide_False by done. f_equal. apply IH.
    apply elem_of_cons in Hk as [->|]; done.
Qed.

Lemma tabulated_keys (ks : list string) : ((λ u, (u, f u)) <$> ks).*1 = ks.
Proof. induction ks as [|u ks IH]; [done|]. rewrite !fmap_cons, IH. done. Qed.

End Tabulated.

Lemma map_get_app {V} k (m m' : Js.Map V) :
  Js.map_get k (m ++ m')
  = match Js.map_get k m with
    | Some v => Some v
    | None => Js.map_get k m'
    end.
Proof.
  induction m as [|[u w] m IH]; [done|].
  cbn [app Js.map_get]. by destruct (String.eqb k u).
Qed.

Lemma map_set_app_absent {V} k v (m m' : Js.Map V) :
  k ∉ m.*1 → Js.map_set k v (m ++ m') = m ++ Js.map_set k v m'.
Proof.
  induction m as [|[u w] m IH]; intros Hk; [done|].
  rewrite fmap_cons in Hk. apply not_elem_of_cons in Hk as [Hne Hk].
  cbn [Js.map_set app]. simpl in Hne.
  destruct (String.eqb_spec k u); [done|]. by rewrite IH.
Qed.

Lemma rows_of_snoc u l r :
  rows_of u (l ++ [r])
  = rows_of u l ++ (if decide (username r = u) then [r] else []).
Proof. unfold rows_of. by rewrite filter_app, filter_cons, filter_nil. Qed.

Lemma rows_of_absent u l : u ∉ username <$> l → rows_of u l = [].
Proof.
  induction l as [|r l IH]; intros Hu; [done|].
  rewrite fmap_cons in Hu. apply not_elem_of_cons in Hu as [Hne Hu].
  unfold rows_of. rewrite filter_cons_False by congruence. by apply IH.
Qed.

Lemma usernames_snoc l r :
  username <$> (l ++ [r]) = (username <$> l) ++ [username r].
Proof. by rewrite fmap_app. Qed.

Lemma entries_snoc_present l r :
  username r ∈ username <$> l →
  entries (l ++ [r])
  = (λ u, (u, if decide (u = username r) then rows_of (username r) l ++ [r]
              else rows_of u l)) <$> first_seen (username <$> l).
Proof.
  intros Hin. unfold entries.
  rewrite usernames_snoc, first_seen_snoc, decide_True by done.
  apply list_fmap_ext. intros i u _. f_equal. rewrite rows_of_snoc.
  destruct (decide (u = username r)) as [->|Hne].
  - by rewrite decide_True.
  - rewrite decide_False by done. by rewrite app_nil_r.
Qed.

Lemma entries_snoc_absent l r :
  username r ∉ username <$> l →
  entries (l ++ [r]) = entries l ++ [(username r, [r])].
Proof.
  intros Hin. unfold entries.
  rewrite usernames_snoc, first_seen_snoc, decide_False by done.
  rewrite fmap_app. simpl.
  rewrite rows_of_snoc, rows_of_absent, decide_True by done.
  f_equal. apply list_fmap_ext. intros i u Hu. f_equal.
  rewrite rows_of_snoc, decide_False, app_nil_r; [done|].
  intros <-. apply Hin, first_seen_elem.
  by eapply list_elem_of_lookup_2.
Qed.

Lemma entries_keys l : (entries l).*1 = first_seen (username <$> l).
Proof. apply tabulated_keys. Qed.

Lemma entries_get u l :
  Js.map_get u (entries l)
  = if decide (u ∈ username <$> l) then Some (rows_of u l) else None.
Proof.
  unfold entries. rewrite map_get_tabulated.
  destruct (decide (u ∈ username <$> l)) as [Hin|Hin].
  - by rewrite decide_True by (by apply first_seen_elem).
  - by rewrite decide_False by (by rewrite first_seen_elem).
Qed.

(** One round of the loop extends the map by one row. *)
Lemma group_step_entries l r :
  group_step (entries l) r = Some (entries (l ++ [r])).
Proof.
  unfold group_step, Js.map_has. rewrite entries_get.
  destruct (decide (username r ∈ username <$> l)) as [Hin|Hin].
  - rewrite entries_snoc_present by done.
    cbn [negb]. rewrite entries_get, decide_True by done.
    simpl. f_equal. unfold entries.
    apply map_set_present; [apply first_seen_NoDup|by apply first_seen_elem].
  - rewrite entries_snoc_absent by done.
    cbn [negb].
    rewrite map_set_absent by (by rewrite entries_keys, first_seen_elem).
    rewrite map_get_app, entries_get, decide_False by done.
    simpl. rewrite String.eqb_refl. simpl. f_equal.
    rewrite map_set_app_absent
      by (by rewrite entries_keys, first_seen_elem).
    simpl. by rewrite String.eqb_refl.
Qed.

Lemma group_all_entries l l' :
  group_all (entries l) l' = Some (entries (l ++ l')).
Proof.
  revert l. induction l' as [|r l' IH]; intros l.
  - by rewrite app_nil_r.
  - cbn [group_all]. rewrite group_step_entries. simpl.
    rewrite IH, <- app_assoc. done.
Qed.

Lemma rows_of_present u l :
  u ∈ username <$> l → ∃ r rest, rows_of u l = r :: rest.
Proof.
  intros Hu. apply list_elem_of_fmap in Hu as (r & -> & Hr).
  assert (Hin : r ∈ rows_of (username r) l)
    by (by apply list_elem_of_filter).
  destruct (rows_of (username r) l) as [|r' rest]; [|by eauto].
  by apply elem_of_nil in Hin.
Qed.

Lemma groupedChanges_eq l :
  groupedChanges l = Some (group_for l <$> first_seen (username <$> l)).
Proof.
  unfold groupedChanges.
  change (@nil (string * list FlattenedChange)) with (entries []).
  rewrite group_all_entries. simpl. unfold entries.
  apply mapM_Some. apply Forall2_fmap.
  apply Forall_Forall2_diag, Forall_forall. intros u Hu.
  apply first_seen_elem, rows_of_present in Hu as (r & rest & Hr).
  unfold group_of, group_for. rewrite Hr. done.
Qed.

Lemma filter_or_disjoint {A} (P Q : A → Prop) `{!∀ x, Decision (P x)}
    `{!∀ x, Decision (Q x)} (l : list A) :
  (∀ x, P x → Q x → False) →
  filter (λ x, P x ∨ Q x) l ≡ₚ filter P l ++ filter Q l.
Proof.
  intros Hdis. induction l as [|x l IH]; [done|].
  rewrite !filter_cons.
  destruct (decide (P x)) as [HP|HP], (decide (Q x)) as [HQ|HQ].
  - destruct (Hdis x HP HQ).
  - rewrite decide_True by tauto. simpl. by rewrite IH.
  - rewrite decide_True by tauto. rewrite IH.
    apply Permutation_middle.
  - rewrite decide_False by tauto. done.
Qed.

Lemma concat_rows_of l (ks : list string) :
  NoDup ks →
  concat ((λ u, rows_of u l) <$> ks) ≡ₚ filter (λ r, username r ∈ ks) l.
Proof.
  induction 1 as [|u ks Hu Hnd IH].
  - simpl. rewrite (filter_ext_in _ (λ _, False)), filter_never; [done|].
    intros r _. rewrite elem_of_nil. done.
  - rewrite fmap_cons. cbn [concat]. rewrite IH. unfold rows_of.
    rewrite <- filter_or_disjoint by (intros r <-; done).
    rewrite (filter_ext_in (λ r, username r ∈ u :: ks)
               (λ r, username r = u ∨ username r ∈ ks)); [done|].
    intros r _. apply elem_of_cons.
Qed.

(** C5. Grouping returns (it does not throw) one group per distinct
    username, in the order in which the usernames first appear in the
    rows; each group holds exactly the rows of its username in their order
    in the input and carries the user identifier of the first of them; the
    groups together hold every row once: their rows are a rearrangement of
    the input and their sizes add up to its length. *)
Theorem groupedChanges_partition (rows : list FlattenedChange) :
  ∃ groups,
    groupedChanges rows = Some groups
    ∧ group_username <$> groups = first_seen (username <$> rows)
    ∧ NoDup (group_username <$> groups)
    ∧ (∀ g, g ∈ groups →
         changes g = filter (λ r, username r = group_username g) rows
         ∧ ∃ first rest, changes g = first :: rest
                         ∧ group_userId g = userId first)
    ∧ concat (changes <$> groups) ≡ₚ rows
    ∧ sum_list (length ∘ changes <$> groups) = length rows.
Proof.
  exists (group_for rows <$> first_seen (username <$> rows)).
  assert (Hnames : group_username <$>
      (group_for rows <$> first_seen (username <$> rows))
      = first_seen (username <$> rows)).
  { rewrite <- list_fmap_compose. apply list_fmap_id. }
  assert (Hperm : concat (changes <$>
      (group_for rows <$> first_seen (username <$> rows))) ≡ₚ rows).
  { rewrite <- list_fmap_compose.
    change (changes ∘ group_for rows) with (λ u, rows_of u rows).
    rewrite concat_rows_of by apply first_seen_NoDup.
    rewrite (filter_ext_in _ (λ _, True)).
    - clear. induction rows as [|r l IH]; [done|].
      rewrite filter_cons_True by done. by rewrite IH.
    - intros r Hr. rewrite first_seen_elem. split; [done|]. intros _.
      by apply list_elem_of_fmap_2. }
  split; [apply groupedChanges_eq|].
  split; [exact Hnames|].
  split; [rewrite Hnames; apply first_seen_NoDup|].
  split; [|split; [exact Hperm|]].
  - intros g Hg. apply list_elem_of_fmap in Hg as (u & -> & Hu).
    split; [done|].
    apply first_seen_elem, rows_of_present in Hu as (r & rest & Hr).
    exists r, rest. unfold group_for. simpl. rewrite Hr. done.
  - rewrite <- (Permutation_length Hperm), length_concat.
    by rewrite (list_fmap_compose changes length).
Qed.


(** The theorem of C6 on the three dated changes of the sample: newest
    first is the reverse of oldest first. *)
Lemma allChanges_toggle_witness :
  Forall valid
    (View.flatten Sample.utc Sample.no_legacy
       [Sample.player Sample.alice Sample.alice_changes])
  ∧ date <$> View.allChanges Sample.utc Sample.no_legacy
               [Sample.player Sample.alice Sample.alice_changes] desc
    = [Some 1704153601000; Some 1704150000000; Some 1704024000000]
  ∧ date <$> View.allChanges Sample.utc Sample.no_legacy
               [Sample.player Sample.alice Sample.alice_changes]
               (toggleSort desc)
    = reverse [Some 1704153601000; Some 1704150000000; Some 1704024000000].
Proof.
  assert (Hvalid : Forall valid
    (View.flatten Sample.utc Sample.no_legacy
       [Sample.player Sample.alice Sample.alice_changes])).
  { vm_compute. repeat (constructor; [eexists; reflexivity|]). constructor. }
  split; [exact Hvalid|]. split; [reflexivity|].
  exact (proj1 (proj2 (proj2 (allChanges_toggle Sample.utc Sample.no_legacy
                  [Sample.player Sample.alice Sample.alice_changes] desc
                  Hvalid)))).
Defined.

(** C6, as stated, fails on a row without a valid date: the comparator
    answers NaN for every pair that contains it, the three rows stay as
    they are in both orders, so the later date precedes the earlier one in
    the ascending order and toggling reverses nothing. *)
Lemma allChanges_invalid_date_unsorted :
  date <$> View.allChanges Sample.utc Sample.no_legacy
             [Sample.player Sample.alice Sample.undated_changes] asc
  = [Some 1704240000000; None; Some 1704067200000]
  ∧ date <$> View.allChanges Sample.utc Sample.no_legacy
               [Sample.player Sample.alice Sample.undated_changes]
               (toggleSort asc)
    = [Some 1704240000000; None; Some 1704067200000]
  ∧ bool_decide
      (date <$> View.allChanges Sample.utc Sample.no_legacy
                  [Sample.player Sample.alice Sample.undated_changes]
                  (toggleSort asc)
       = reverse
           (date <$> View.allChanges Sample.utc Sample.no_legacy
                       [Sample.player Sample.alice Sample.undated_changes]
                       asc))
    = false.
Proof. vm_compute. repeat split; reflexivity. Qed.

End ViewFacts.

(** ** The batch fetch *)

Module FetchFacts.

Import Eff View Spec.

Local Open Scope Z_scope.

Lemma update_playerData_last f l p :
  update_playerData f (l ++ [p]) = l ++ [f p].
Proof.
  unfold update_playerData. rewrite reverse_app. simpl.
  by rewrite reverse_cons, reverse_involutive.
Qed.

Section Fetch.

Variable LocalTZA : Z → bool → Z.
Variable legacyParse : string → option Z.
Variable upstream : Api.Upstream.

Local Abbreviation getUserLite :=
  (Api.getUserLite LocalTZA legacyParse upstream).
Local Abbreviation getCitizenshipChanges :=
  (Api.getCitizenshipChanges upstream).
Local Abbreviation process_user :=
  (View.process_user LocalTZA legacyParse upstream).
Local Abbreviation fetchPlayersAndChanges :=
  (View.fetchPlayersAndChanges LocalTZA legacyParse upstream).
Local Abbreviation Processed :=
  (Spec.Processed LocalTZA legacyParse upstream).

(** *** One user of the roster, by the outcomes of the two calls *)

Lemma process_user_lite_throws user a e w' :
  getUserLite (Api.user_id user) (world a) = (Throw e, w') →
  process_user user a
  = (Return tt,
     {| refs := bump (refs a); world := logged user e w';
        observed := observed a ++ [bump (refs a)] |}).
Proof.
  intros Hlite.
  unfold View.process_user, bind, try_catch, await, lift, modify, assign,
    observe, with_refs, with_world.
  cbn -[Api.getUserLite]. rewrite Hlite. reflexivity.
Qed.

Lemma process_user_inactive user a u w' :
  getUserLite (Api.user_id user) (world a) = (Return u, w') →
  default false (Api.active u) = false →
  process_user user a
  = (Return tt,
     {| refs := count_inactive (bump (refs a)); world := w';
        observed := observed a ++ [bump (refs a)] |}).
Proof.
  intros Hlite Hact.
  unfold View.process_user, bind, try_catch, await, lift, modify, assign,
    observe, with_refs, with_world.
  cbn -[Api.getUserLite]. rewrite Hlite. cbn -[Api.getUserLite].
  rewrite Hact. reflexivity.
Qed.

Lemma process_user_loaded user a u w' response w'' :
  getUserLite (Api.user_id user) (world a) = (Return u, w') →
  default false (Api.active u) = true →
  getCitizenshipChanges (Api.user_id user) "" w' = (Return response, w'') →
  process_user user a
  = (Return tt,
     {| refs := push (loaded u response) (count_active (bump (refs a)));
        world := w'';
        observed := observed a
                    ++ [bump (refs a);
                        push (pending u) (count_active (bump (refs a)))] |}).
Proof.
  intros Hlite Hact Hchanges.
  unfold View.process_user, bind, try_catch, await, lift, modify, assign,
    observe, with_refs, with_world.
  cbn -[Api.getUserLite Api.getCitizenshipChanges]. rewrite Hlite.
  cbn -[Api.getUserLite Api.getCitizenshipChanges]. rewrite Hact.
  cbn -[Api.getUserLite Api.getCitizenshipChanges]. rewrite Hchanges.
  cbn -[update_playerData]. rewrite update_playerData_last, <- app_assoc.
  reflexivity.
Qed.

Lemma process_user_failed user a u w' e w'' :
  getUserLite (Api.user_id user) (world a) = (Return u, w') →
  default false (Api.active u) = true →
  getCitizenshipChanges (Api.user_id user) "" w' = (Throw e, w'') →
  process_user user a
  = (Return tt,
     {| refs := push (failed u e) (count_active (bump (refs a)));
        world := w'';
        observed := observed a
                    ++ [bump (refs a);
                        push (pending u) (count_active (bump (refs a)))] |}).
Proof.
  intros Hlite Hact Hchanges.
  unfold View.process_user, bind, try_catch, await, lift, modify, assign,
    observe, with_refs, with_world.
  cbn -[Api.getUserLite Api.getCitizenshipChanges]. rewrite Hlite.
  cbn -[Api.getUserLite Api.getCitizenshipChanges]. rewrite Hact.
  cbn -[Api.getUserLite Api.getCitizenshipChanges]. rewrite Hchanges.
  cbn -[update_playerData]. rewrite update_playerData_last, <- app_assoc.
  reflexivity.
Qed.

(** *** The requests of the calls *)





Lemma getCitizenshipChanges_console userId cursor w :
  Api.console (getCitizenshipChanges userId cursor w).2 = Api.console w.
Proof.
  destruct (decide (Api.authToken w = "")) as [Hno|Htok].
  - by rewrite ApiFacts.getCitizenshipChanges_no_token.
  - by rewrite ApiFacts.getCitizenshipChanges_with_token.
Qed.

Lemma getUsersByCountry_eq countryId w :
  Api.getUsersByCountry upstream countryId "" 100 w
  = (match Api.users_data upstream (Api.requests w)
             (Api.roster_request countryId) with
     | inl msg => Throw (RequestFailure msg)
     | inr r => Return r
     end,
     Api.with_requests (Api.requests w ++ [Api.roster_request countryId]) w).
Proof.
  unfold Api.getUsersByCountry, Api.axios_get, Api.buildUrl.
  fold (Api.roster_request countryId).
  by destruct (Api.users_data upstream _ _).
Qed.

(** *** What one round of the loop does *)

(** The body of the loop never throws: it ends in one of the four ways. *)
Lemma process_user_returns user a :
  ∃ a', process_user user a = (Return tt, a') ∧ Processed user a a'.
Proof.
  destruct (getUserLite (Api.user_id user) (world a)) as [[u|e] w'] eqn:Hlite.
  - destruct (default false (Api.active u)) eqn:Hact.
    + destruct (getCitizenshipChanges (Api.user_id user) "" w')
        as [[response|e] w''] eqn:Hchanges.
      * eexists. split; [by eapply process_user_loaded|].
        by eapply changes_loaded.
      * eexists. split; [by eapply process_user_failed|].
        by eapply changes_throw.
    + eexists. split; [by eapply process_user_inactive|].
      by eapply lite_inactive.
  - eexists. split; [by eapply process_user_lite_throws|].
    by eapply lite_throws.
Qed.



(** *** The whole fetch *)

Lemma fetch_no_country a :
  selectedCountryId (refs a) = "" →
  fetchPlayersAndChanges a
  = (Return tt, with_refs (set_error "Please select a country" (refs a)) a).
Proof.
  intros Hsel. unfold View.fetchPlayersAndChanges, bind, get.
  rewrite Hsel. reflexivity.
Qed.

Lemma fetch_no_token a :
  selectedCountryId (refs a) ≠ "" →
  authToken (refs a) = "" →
  fetchPlayersAndChanges a
  = (Return tt,
     with_refs (set_error "Please enter an authorization token" (refs a)) a).
Proof.
  intros Hsel Htok. apply ApiFacts.truthy_Some in Hsel.
  unfold View.fetchPlayersAndChanges, bind, get.
  rewrite Hsel, Htok. reflexivity.
Qed.

Lemma fetch_roster_throws a e w' :
  selectedCountryId (refs a) ≠ "" →
  authToken (refs a) ≠ "" →
  Api.getUsersByCountry upstream (selectedCountryId (refs a)) "" 100 (world a)
  = (Throw e, w') →
  fetchPlayersAndChanges a
  = (Return tt,
     {| refs := set_loading false
                  (set_error ("Failed to fetch players: " +:+ message e)
                             (reset (refs a)));
        world := w';
        observed := observed a ++ [reset (refs a)] |}).
Proof.
  intros Hsel Htok Hroster.
  apply ApiFacts.truthy_Some in Hsel. apply ApiFacts.truthy_Some in Htok.
  unfold View.fetchPlayersAndChanges, bind, get, finally, try_catch, await,
    lift, modify, assign, observe, with_refs, with_world.
  rewrite Hsel, Htok. cbn -[Api.getUsersByCountry]. rewrite Hroster.
  reflexivity.
Qed.

Lemma fetch_roster_returns a response w' :
  selectedCountryId (refs a) ≠ "" →
  authToken (refs a) ≠ "" →
  Api.getUsersByCountry upstream (selectedCountryId (refs a)) "" 100 (world a)
  = (Return response, w') →
  fetchPlayersAndChanges a
  = (let users := default [] (Api.users_items response) in
     let '(o, a') :=
       try_catch
         (for_of users process_user)
         (λ err, assign (set_error ("Failed to fetch players: "
                                    +:+ message err)))
         {| refs := counted_roster (length users) (reset (refs a));
            world := w';
            observed := observed a ++ [reset (refs a)] |} in
     (o, with_refs (set_loading false (refs a')) a')).
Proof.
  intros Hsel Htok Hroster.
  apply ApiFacts.truthy_Some in Hsel. apply ApiFacts.truthy_Some in Htok.
  unfold View.fetchPlayersAndChanges, bind, get, finally, try_catch, await,
    lift, modify, assign, observe, with_refs, with_world.
  rewrite Hsel, Htok. cbn -[Api.getUsersByCountry for_of]. rewrite Hroster.
  reflexivity.
Qed.


(** *** The counters *)

Lemma Counted_weaken n r : 0 ≤ n → Counted n r → Counted 0 r.
Proof. unfold Counted. lia. Qed.

Lemma Processed_counted user a a' n :
  Processed user a a' → 0 ≤ n →
  Counted (n + 1) (refs a) → Forall (Counted 0) (observed a) →
  Counted n (refs a') ∧ Forall (Counted 0) (observed a').
Proof.
  intros Hstep Hn Hc Hobs.
  assert (Hb : Counted n (bump (refs a)))
    by (unfold Counted, bump in *; simpl; lia).
  assert (Hp : ∀ u, Counted 0 (push (pending u) (count_active (bump (refs a)))))
    by (intros u; unfold Counted, bump in *; simpl; lia).
  apply (Counted_weaken n) in Hb as Hb0; [|done].
  destruct Hstep as [e w' _ ->|u w' _ _ ->
                    |u w' resp w'' _ _ _ ->|u w' e w'' _ _ _ ->]; simpl.
  - split; [done|]. apply Forall_app. split; [done|]. by constructor.
  - split; [unfold Counted, bump in *; simpl; lia|].
    apply Forall_app. split; [done|]. by constructor.
  - split; [unfold Counted, bump in *; simpl; lia|].
    apply Forall_app. split; [done|].
    constructor; [done|]. constructor; [apply Hp|constructor].
  - split; [unfold Counted, bump in *; simpl; lia|].
    apply Forall_app. split; [done|].
    constructor; [done|]. constructor; [apply Hp|constructor].
Qed.

Lemma loop_counted users a :
  Counted (Z.of_nat (length users)) (refs a) →
  Forall (Counted 0) (observed a) →
  ∃ a', for_of users process_user a = (Return tt, a') ∧ Good a'.
Proof.
  revert a. induction users as [|user users IH]; intros a Hc Hobs.
  - exists a. done.
  - destruct (process_user_returns user a) as (a1 & Hrun & Hstep).
    apply (Processed_counted _ _ _ (Z.of_nat (length users))) in Hstep
      as [Hc1 Hobs1]; [|lia| |done].
    + destruct (IH a1 Hc1 Hobs1) as (a' & Hrun' & Hgood).
      exists a'. cbn [for_of]. unfold bind at 1. by rewrite Hrun.
    + rewrite length_cons in Hc.
      by replace (Z.of_nat (length users) + 1) with (Z.of_nat (S (length users)))
        by lia.
Qed.

Lemma fetch_good a :
  Good a → ∃ a', fetchPlayersAndChanges a = (Return tt, a') ∧ Good a'.
Proof.
  intros [Hobs Hc].
  destruct (decide (selectedCountryId (refs a) = "")) as [Hsel|Hsel].
  { rewrite fetch_no_country by done. eexists. split; [done|]. by split. }
  destruct (decide (authToken (refs a) = "")) as [Htok|Htok].
  { rewrite fetch_no_token by done. eexists. split; [done|]. by split. }
  assert (Hreset : Counted 0 (reset (refs a)))
    by (unfold Counted; simpl; lia).
  destruct (Api.getUsersByCountry upstream (selectedCountryId (refs a)) "" 100
              (world a)) as [[response|e] w'] eqn:Hroster.
  - rewrite (fetch_roster_returns _ _ _ Hsel Htok Hroster). cbv zeta.
    set (users := default [] (Api.users_items response)).
    edestruct (loop_counted users) as (a2 & Hrun & Hobs2 & Hc2);
      [| |unfold try_catch; rewrite Hrun].
    + unfold Counted. simpl. lia.
    + simpl. apply Forall_app. split; [done|]. by constructor.
    + eexists. split; [reflexivity|]. by split.
  - rewrite (fetch_roster_throws _ _ _ Hsel Htok Hroster).
    eexists. split; [reflexivity|]. split; simpl.
    + apply Forall_app. split; [done|]. by constructor.
    + exact Hreset.
Qed.

Lemma handle_good e a :
  Good a →
  ∃ a', handle LocalTZA legacyParse upstream e a = (Return tt, a') ∧ Good a'.
Proof.
  intros Hgood. destruct e as [|v|c| |]; simpl.
  - destruct Hgood as [Hobs Hc].
    unfold onMounted, bind, finally, try_catch, await, lift, modify, assign,
      observe, with_refs, with_world.
    cbn -[Api.getAllCountries].
    destruct (Api.getAllCountries upstream (world a)) as [[cs|err] w'];
      (eexists; split; [reflexivity|]); split; simpl; try done;
      apply Forall_app; split; try done; by constructor.
  - eexists. split; [reflexivity|]. exact Hgood.
  - eexists. split; [reflexivity|]. exact Hgood.
  - by apply fetch_good.
  - eexists. split; [reflexivity|]. exact Hgood.
Qed.

Lemma run_good events a :
  Good a →
  ∃ a', run LocalTZA legacyParse upstream events a = (Return tt, a')
        ∧ Good a'.
Proof.
  revert a. induction events as [|e events IH]; intros a Hgood.
  - by exists a.
  - destruct (handle_good e a Hgood) as (a1 & Hrun & Hobs1 & Hc1).
    destruct (IH (observe a1)) as (a' & Hrun' & Hgood').
    { split; [|done]. simpl. apply Forall_app. split; [done|].
      by constructor. }
    exists a'. unfold run in *. cbn [for_of]. unfold bind, modify.
    unfold bind, modify in Hrun'. by rewrite Hrun.
Qed.

Lemma initial_good : Good View.initial.
Proof. split; [constructor|]. unfold Counted. simpl. lia. Qed.

End Fetch.


(** C10. Whatever the operator does from the start of the page, every
    handler returns, and at every [await] and at the end the counters
    satisfy [active + inactive <= current <= total = stats.total].  A user
    whose request fails is counted in [current] and in neither tally; in
    the sample roster of four, where one request fails, the tallies add up
    to three. *)
Theorem counters_invariant :
  (∀ LocalTZA legacyParse upstream events,
     ∃ a', run LocalTZA legacyParse upstream events View.initial
           = (Return tt, a')
       ∧ Forall (Counted 0) (observed a')
       ∧ Counted 0 (refs a'))
  ∧ (∀ LocalTZA legacyParse upstream user a e w',
       Api.getUserLite LocalTZA legacyParse upstream (Api.user_id user)
         (world a) = (Throw e, w') →
       ∃ a', View.process_user LocalTZA legacyParse upstream user a
             = (Return tt, a')
         ∧ current (progress (refs a')) = current (progress (refs a)) + 1
         ∧ stats (refs a') = stats (refs a))
  ∧ (∃ a', run Sample.new_york Sample.no_legacy Sample.upstream
             [TypeToken "secret"; SelectCountry "fr"; ClickFetch] View.initial
           = (Return tt, a')
       ∧ progress (refs a') = {| current := 4; total := 4 |}
       ∧ stats (refs a')
         = {| stats_total := 4; stats_active := 2; stats_inactive := 1 |}).
Proof.
  split; [|split].
  - intros. apply run_good, initial_good.
  - intros LocalTZA legacyParse upstream user a e w' Hlite.
    eexists. split; [by apply process_user_lite_throws|]. done.
  - eexists. split; [vm_compute; reflexivity|]. done.
Qed.

End FetchFacts.

(** ** The client as a whole: failures and the credential *)

Module ClientFacts.

Import Eff Api.

Section Client.

Variable LocalTZA : Z → bool → Z.
Variable legacyParse : string → option Z.
Variable upstream : Upstream.

Local Abbreviation after := (Api.after LocalTZA legacyParse upstream).

Lemma getUserLite_eq userId w :
  ∃ o, getUserLite LocalTZA legacyParse upstream userId w
       = (o, with_requests (requests w ++ [user_request userId]) w)
       ∧ match user_data upstream (requests w) (user_request userId) with
         | inl msg => o = Throw (RequestFailure msg)
         | inr u => ∃ b, o = Return (with_active b u)
         end.
Proof.
  unfold getUserLite, bind, get, axios_get, buildUrl.
  fold (user_request userId).
  destruct (user_data upstream _ _) as [msg|u]; [by eexists|].
  destruct (lastConnectionAt u) as [s|]; [|by eexists; split; [|by eexists]].
  destruct (Js.truthy (Some s)); (eexists; split; [done|by eexists]).
Qed.

(** What fails and how.  The two country calls never throw: a cached
    country is returned as it is; an answered request gives a country, or
    the countries, and logs nothing; a failed request is logged and
    answered by [null], or by the empty list, and leaves the cache alone.
    The roster call and the user call throw exactly when their request
    fails, with the failure of the request, and return otherwise; both
    send their one request, and neither writes to the console or to the
    cache. *)
Theorem failure_policy w :
  (∀ countryId,
     match countryCache w !! countryId with
     | Some c => getCountryById upstream countryId w = (Return (Some c), w)
     | None =>
         match country_data upstream (requests w)
                 (country_request countryId) with
         | inr c =>
             ∃ c', (getCountryById upstream countryId w).1 = Return (Some c')
               ∧ country_id c' = country_id c
               ∧ console (getCountryById upstream countryId w).2 = console w
         | inl msg =>
             (getCountryById upstream countryId w).1 = Return None
             ∧ console (getCountryById upstream countryId w).2
               = console w
                 ++ [("Error fetching country " +:+ countryId +:+ ":",
                      RequestFailure msg)]
             ∧ countryCache (getCountryById upstream countryId w).2
               = countryCache w
         end
     end)
  ∧ match countries_data upstream (requests w) countries_request with
    | inr cs =>
        ∃ l, (getAllCountries upstream w).1 = Return l
          ∧ country_id <$> l = country_id <$> cs
          ∧ console (getAllCountries upstream w).2 = console w
    | inl msg =>
        (getAllCountries upstream w).1 = Return []
        ∧ console (getAllCountries upstream w).2
          = console w ++ [("Error fetching countries:", RequestFailure msg)]
        ∧ countryCache (getAllCountries upstream w).2 = countryCache w
    end
  ∧ (∀ countryId cursor limit,
       (getUsersByCountry upstream countryId cursor limit w).1
       = match users_data upstream (requests w)
                 {| url := {| endpoint := "user.getUsersByCountry";
                              input := InUsers countryId cursor limit |};
                    authorization := None |} with
         | inl msg => Throw (RequestFailure msg)
         | inr response => Return response
         end
       ∧ requests (getUsersByCountry upstream countryId cursor limit w).2
         = requests w
           ++ [{| url := {| endpoint := "user.getUsersByCountry";
                            input := InUsers countryId cursor limit |};
                  authorization := None |}]
       ∧ console (getUsersByCountry upstream countryId cursor limit w).2
         = console w
       ∧ countryCache (getUsersByCountry upstream countryId cursor limit w).2
         = countryCache w)
  ∧ (∀ userId,
       match user_data upstream (requests w) (user_request userId) with
       | inl msg =>
           (getUserLite LocalTZA legacyParse upstream userId w).1
           = Throw (RequestFailure msg)
       | inr u =>
           ∃ b, (getUserLite LocalTZA legacyParse upstream userId w).1
                = Return (with_active b u)
                ∧ active (with_active b u) = Some b
       end
       ∧ requests (getUserLite LocalTZA legacyParse upstream userId w).2
         = requests w ++ [user_request userId]
       ∧ console (getUserLite LocalTZA legacyParse upstream userId w).2
         = console w
       ∧ countryCache (getUserLite LocalTZA legacyParse upstream userId w).2
         = countryCache w).
Proof.
  split; [|split; [|split]].
  - intros countryId. rewrite ApiFacts.getCountryById_eq.
    destruct (countryCache w !! countryId); [done|]. cbv zeta.
    destruct (country_data upstream _ _) as [msg|c]; [done|].
    eexists. split; [reflexivity|]. split; [apply ApiFacts.add_flag_id|done].
  - unfold getAllCountries, try_catch, bind, axios_get, buildUrl.
    fold countries_request.
    destruct (countries_data upstream _ _) as [msg|cs]; [done|].
    eexists. split; [reflexivity|]. split; [|done]. simpl.
    rewrite <- list_fmap_compose. apply list_fmap_ext.
    intros ? c _. apply ApiFacts.add_flag_id.
  - intros countryId cursor limit.
    unfold getUsersByCountry, axios_get, buildUrl.
    by destruct (users_data upstream _ _).
  - intros userId.
    destruct (getUserLite_eq userId w) as (o & Heq & Hcase).
    rewrite Heq. cbn [fst snd].
    split; [|done].
    destruct (user_data upstream _ _) as [msg|u]; [done|].
    destruct Hcase as [b ->]. by exists b.
Qed.

(** The requests an operation sends: the log afterwards is the log before
    followed by at most one request. *)
Lemma after_requests op w :
  ∃ sent, requests (after op w) = requests w ++ sent
    ∧ (length sent ≤ 1)%nat
    ∧ authToken (after op w)
      = match op with SetAuthToken t => t | _ => authToken w end
    ∧ ∀ q, q ∈ sent →
        match authorization q with
        | None => True
        | Some t =>
            t = authToken w ∧ t ≠ ""
            ∧ endpoint (url q) = "actionLog.getPaginated"
            ∧ ∃ userId cursor, op = GetCitizenshipChanges userId cursor
        end.
Proof.
  assert (Hnone : ∀ w', requests w' = requests w →
    authToken w' = authToken w →
    ∃ sent : list Request,
      requests w' = requests w ++ sent ∧ (length sent ≤ 1)%nat
      ∧ authToken w' = authToken w
      ∧ ∀ q, q ∈ sent → match authorization q with
                        | None => True
                        | Some t => False
                        end).
  { intros w' Hr Ht. exists []. rewrite app_nil_r.
    repeat split; [done|simpl; lia|done|].
    intros q Hq. by apply elem_of_nil in Hq. }
  assert (Hone : ∀ q0 w', requests w' = requests w ++ [q0] →
    authToken w' = authToken w →
    authorization q0 = None →
    ∃ sent : list Request,
      requests w' = requests w ++ sent ∧ (length sent ≤ 1)%nat
      ∧ authToken w' = authToken w
      ∧ ∀ q, q ∈ sent → match authorization q with
                        | None => True
                        | Some t => False
                        end).
  { intros q0 w' Hr Ht Hq0. exists [q0].
    repeat split; [done|simpl; lia|done|].
    intros q Hq. apply list_elem_of_singleton in Hq as ->. by rewrite Hq0. }
  assert (Hweaken : ∀ w' t',
    (∃ sent : list Request,
      requests w' = requests w ++ sent ∧ (length sent ≤ 1)%nat
      ∧ authToken w' = t'
      ∧ ∀ q, q ∈ sent → match authorization q with
                        | None => True
                        | Some t => False
                        end) →
    ∃ sent, requests w' = requests w ++ sent ∧ (length sent ≤ 1)%nat
      ∧ authToken w' = t'
      ∧ ∀ q, q ∈ sent →
          match authorization q with
          | None => True
          | Some t =>
              t = authToken w ∧ t ≠ ""
              ∧ endpoint (url q) = "actionLog.getPaginated"
              ∧ ∃ userId cursor, op = GetCitizenshipChanges userId cursor
          end).
  { intros w' t' (sent & Hr & Hl & Ht & Hq). exists sent.
    repeat split; try done. intros q Hin. specialize (Hq q Hin).
    by destruct (authorization q). }
  destruct op as [c| |c|t|c cur l|u|u cur]; cbn [Api.after].
  - apply Hweaken. rewrite ApiFacts.getCountryById_eq.
    destruct (countryCache w !! c); [by apply Hnone|].
    destruct (country_data upstream _ _);
      by apply (Hone (country_request c)).
  - apply Hweaken.
    unfold getAllCountries, try_catch, bind, axios_get, buildUrl.
    destruct (countries_data upstream _ _);
      by apply (Hone countries_request).
  - apply Hweaken. by apply Hnone.
  - exists []. rewrite app_nil_r. repeat split; [simpl; lia|].
    intros q Hq. by apply elem_of_nil in Hq.
  - apply Hweaken. unfold getUsersByCountry, axios_get, buildUrl.
    destruct (users_data upstream _ _);
      by eapply (Hone {| url := _; authorization := None |}).
  - apply Hweaken.
    destruct (getUserLite_eq u w) as (o & -> & _).
    by apply (Hone (user_request u)).
  - destruct (decide (authToken w = "")) as [Hno|Htok].
    + apply Hweaken. rewrite ApiFacts.getCitizenshipChanges_no_token by done.
      by apply Hnone.
    + rewrite ApiFacts.getCitizenshipChanges_with_token by done.
      exists [changes_request (authToken w) u cur].
      repeat split; [simpl; lia|].
      intros q Hq. apply list_elem_of_singleton in Hq as ->. simpl.
      repeat split; try done. by exists u, cur.
Qed.

(** The credential goes nowhere but to the action log.  Whatever the
    client is asked to do, it sends at most one request; a request with an
    [Authorization] header is a request of [getCitizenshipChanges] to
    [actionLog.getPaginated], and the header is the token set last, which
    is not empty; and only [setAuthToken] changes the token. *)
Theorem token_only_to_action_log op w :
  ∃ sent, requests (after op w) = requests w ++ sent
    ∧ (length sent ≤ 1)%nat
    ∧ (∀ q t, q ∈ sent → authorization q = Some t →
         t = authToken w ∧ t ≠ ""
         ∧ endpoint (url q) = "actionLog.getPaginated"
         ∧ ∃ userId cursor, op = GetCitizenshipChanges userId cursor)
    ∧ ((∀ t, op ≠ SetAuthToken t) → authToken (after op w) = authToken w)
    ∧ (∀ t, authToken (after (SetAuthToken t) w) = t).
Proof.
  destruct (after_requests op w) as (sent & Hr & Hl & Ht & Hq).
  exists sent. split; [done|]. split; [done|]. split; [|split].
  - intros q t Hin Hauth. specialize (Hq q Hin). by rewrite Hauth in Hq.
  - intros Hop. rewrite Ht. destruct op; try done. by destruct (Hop token).
  - done.
Qed.

End Client.

End ClientFacts.

(** ** The page around the fetch *)

Module PageFacts.

Import Eff View Spec Terms.

Local Open Scope Z_scope.

Section Page.

Variable LocalTZA : Z → bool → Z.
Variable legacyParse : string → option Z.
Variable upstream : Api.Upstream.

Local Abbreviation getUserLite :=
  (Api.getUserLite LocalTZA legacyParse upstream).
Local Abbreviation getCitizenshipChanges :=
  (Api.getCitizenshipChanges upstream).
Local Abbreviation process_user :=
  (View.process_user LocalTZA legacyParse upstream).
Local Abbreviation fetchPlayersAndChanges :=
  (View.fetchPlayersAndChanges LocalTZA legacyParse upstream).
Local Abbreviation onMounted := (View.onMounted upstream).
Local Abbreviation handle := (View.handle LocalTZA legacyParse upstream).
Local Abbreviation run := (View.run LocalTZA legacyParse upstream).
Local Abbreviation Processed :=
  (Spec.Processed LocalTZA legacyParse upstream).

(** *** The hook that loads the countries *)

Lemma getAllCountries_eq w :
  Api.getAllCountries upstream w
  = match Api.countries_data upstream (Api.requests w)
            Api.countries_request with
    | inr cs =>
        (Return (Api.add_flag upstream <$> cs),
         Api.with_countryCache
           (Api.cache_all (Api.add_flag upstream <$> cs) (Api.countryCache w))
           (Api.with_requests (Api.requests w ++ [Api.countries_request]) w))
    | inl msg =>
        (Return [],
         Api.with_console
           (Api.console w
            ++ [("Error fetching countries:", RequestFailure msg)])
           (Api.with_requests (Api.requests w ++ [Api.countries_request]) w))
    end.
Proof.
  unfold Api.getAllCountries, try_catch, bind, Api.axios_get, Api.buildUrl.
  fold Api.countries_request.
  destruct (Api.countries_data upstream _ _); reflexivity.
Qed.


(** *** What a round of the loop leaves alone *)

Lemma getUserLite_world userId w o w' :
  getUserLite userId w = (o, w') →
  w' = Api.with_requests (Api.requests w ++ [Api.user_request userId]) w.
Proof.
  intros Hcall.
  destruct (ClientFacts.getUserLite_eq LocalTZA legacyParse upstream userId w)
    as (o' & Heq & _).
  rewrite Heq in Hcall. by injection Hcall as _ <-.
Qed.

Lemma changes_requests_app l l' :
  changes_requests (l ++ l') = changes_requests l ++ changes_requests l'.
Proof. apply filter_app. Qed.

Lemma changes_requests_user l userId :
  changes_requests (l ++ [Api.user_request userId]) = changes_requests l.
Proof.
  rewrite changes_requests_app. unfold changes_requests at 2.
  rewrite filter_cons_False, filter_nil, app_nil_r; done.
Qed.

Lemma changes_requests_changes l t userId cursor :
  changes_requests (l ++ [Api.changes_request t userId cursor])
  = changes_requests l ++ [Api.changes_request t userId cursor].
Proof.
  rewrite changes_requests_app. unfold changes_requests at 2.
  by rewrite filter_cons_True, filter_nil.
Qed.

(** A round leaves the settings of the page alone, and a player that it
    adds is no longer loading when it ends. *)
Lemma Processed_frame user a a' :
  Processed user a a' →
  settings (refs a') = settings (refs a)
  ∧ countries (refs a') = countries (refs a)
  ∧ loadingCountries (refs a') = loadingCountries (refs a)
  ∧ ∃ added, players (refs a') = players (refs a) ++ added
             ∧ Forall (λ p, player_loading p = false) added.
Proof.
  destruct 1 as [e w' Hlite ->|u w' Hlite Hact ->
                |u w' resp w'' Hlite Hact Hch ->|u w' e w'' Hlite Hact Hch ->];
    simpl; repeat split; try done.
  - exists []. by rewrite app_nil_r.
  - exists []. by rewrite app_nil_r.
  - exists [loaded u resp]. split; [done|]. by constructor.
  - exists [failed u e]. split; [done|]. by constructor.
Qed.

(** With a token in the client, a round sends the request for the changes
    of the user when the user is active, with that token, and adds one
    player for it; it sends none and adds none otherwise. *)
Lemma Processed_token user a a' t :
  Processed user a a' →
  Api.authToken (world a) = t → t ≠ "" →
  Api.authToken (world a') = t
  ∧ ∃ ids added,
      sublist ids [Api.user_id user]
      ∧ players (refs a') = players (refs a) ++ added
      ∧ length added = length ids
      ∧ changes_requests (Api.requests (world a'))
        = changes_requests (Api.requests (world a))
          ++ ((λ id, Api.changes_request t id "") <$> ids).
Proof.
  intros Hstep Ht Hne.
  destruct Hstep as [e w' Hlite ->|u w' Hlite Hact ->
                    |u w' resp w'' Hlite Hact Hch ->
                    |u w' e w'' Hlite Hact Hch ->];
    apply getUserLite_world in Hlite as ->; simpl.
  - split; [done|]. exists [], []. rewrite !app_nil_r.
    repeat split; [apply sublist_nil_l|].
    by rewrite changes_requests_user.
  - split; [done|]. exists [], []. rewrite !app_nil_r.
    repeat split; [apply sublist_nil_l|].
    by rewrite changes_requests_user.
  - rewrite ApiFacts.getCitizenshipChanges_with_token in Hch
      by (simpl; congruence).
    injection Hch as _ <-. simpl. split; [done|].
    exists [Api.user_id user], [loaded u resp]. repeat split; [done|].
    rewrite Ht. by rewrite changes_requests_changes, changes_requests_user.
  - rewrite ApiFacts.getCitizenshipChanges_with_token in Hch
      by (simpl; congruence).
    injection Hch as _ <-. simpl. split; [done|].
    exists [Api.user_id user], [failed u e]. repeat split; [done|].
    rewrite Ht. by rewrite changes_requests_changes, changes_requests_user.
Qed.

Lemma loop_frame users a :
  ∃ a', for_of users process_user a = (Return tt, a')
    ∧ settings (refs a') = settings (refs a)
    ∧ countries (refs a') = countries (refs a)
    ∧ loadingCountries (refs a') = loadingCountries (refs a)
    ∧ ∃ added, players (refs a') = players (refs a) ++ added
               ∧ Forall (λ p, player_loading p = false) added.
Proof.
  revert a. induction users as [|user users IH]; intros a.
  - exists a. repeat split; try done. exists []. by rewrite app_nil_r.
  - destruct (FetchFacts.process_user_returns LocalTZA legacyParse upstream
                user a) as (a1 & Hrun & Hstep).
    apply Processed_frame in Hstep as (Hs & Hc & Hl & added & Hp & Hall).
    destruct (IH a1) as (a' & Hrun' & Hs' & Hc' & Hl' & added' & Hp' & Hall').
    exists a'. cbn [for_of]. unfold bind at 1. rewrite Hrun.
    split; [exact Hrun'|]. rewrite Hs', Hc', Hl', Hp', Hs, Hc, Hl, Hp.
    repeat split; try done.
    exists (added ++ added'). rewrite app_assoc. split; [done|].
    by apply Forall_app.
Qed.

Lemma loop_token users a t :
  Api.authToken (world a) = t → t ≠ "" →
  ∃ a', for_of users process_user a = (Return tt, a')
    ∧ Api.authToken (world a') = t
    ∧ ∃ ids added,
        sublist ids (Api.user_id <$> users)
        ∧ players (refs a') = players (refs a) ++ added
        ∧ length added = length ids
        ∧ changes_requests (Api.requests (world a'))
          = changes_requests (Api.requests (world a))
            ++ ((λ id, Api.changes_request t id "") <$> ids).
Proof.
  intros Ht Hne. revert a Ht.
  induction users as [|user users IH]; intros a Ht.
  - exists a. repeat split; try done. exists [], [].
    rewrite !app_nil_r. by repeat split.
  - destruct (FetchFacts.process_user_returns LocalTZA legacyParse upstream
                user a) as (a1 & Hrun & Hstep).
    apply (Processed_token _ _ _ t) in Hstep
      as (Ht1 & ids & added & Hsub & Hp & Hlen & Hr); [|done|done].
    destruct (IH a1 Ht1)
      as (a' & Hrun' & Ht' & ids' & added' & Hsub' & Hp' & Hlen' & Hr').
    exists a'. cbn [for_of]. unfold bind at 1. rewrite Hrun.
    split; [exact Hrun'|]. split; [exact Ht'|].
    exists (ids ++ ids'), (added ++ added').
    rewrite Hp', Hp, Hr', Hr, fmap_app, !app_assoc, !length_app.
    repeat split; try done; [|lia].
    rewrite fmap_cons. by apply (sublist_app _ [_]).
Qed.

(** *** The fetch as a whole *)

(** Whatever the page holds, the fetch returns and leaves the settings
    and the countries alone.  Without a country, or with a country and
    without a token, it only writes its message to the error ref: no
    request goes out and the players, the counters and the loading flag
    stay.  With both, it ends with the loading flag down and with no
    player left loading. *)
Theorem fetch_frame a :
  ∃ a', fetchPlayersAndChanges a = (Return tt, a')
    ∧ settings (refs a') = settings (refs a)
    ∧ countries (refs a') = countries (refs a)
    ∧ loadingCountries (refs a') = loadingCountries (refs a)
    ∧ (selectedCountryId (refs a) = "" →
       a' = with_refs (set_error "Please select a country" (refs a)) a)
    ∧ (selectedCountryId (refs a) ≠ "" → authToken (refs a) = "" →
       a' = with_refs (set_error "Please enter an authorization token"
                                 (refs a)) a)
    ∧ (selectedCountryId (refs a) ≠ "" → authToken (refs a) ≠ "" →
       loading (refs a') = false
       ∧ Forall (λ p, player_loading p = false) (players (refs a'))).
Proof.
  destruct (decide (selectedCountryId (refs a) = "")) as [Hsel|Hsel].
  { rewrite FetchFacts.fetch_no_country by done. eexists.
    split; [reflexivity|]. repeat split; try done. }
  destruct (decide (authToken (refs a) = "")) as [Htok|Htok].
  { rewrite FetchFacts.fetch_no_token by done. eexists.
    split; [reflexivity|]. repeat split; try done. }
  destruct (Api.getUsersByCountry upstream (selectedCountryId (refs a)) "" 100
              (world a)) as [[response|e] w'] eqn:Hroster.
  - rewrite (FetchFacts.fetch_roster_returns _ _ _ _ _ _ Hsel Htok Hroster).
    cbv zeta. set (users := default [] (Api.users_items response)).
    set (a1 := {| refs := counted_roster (length users) (reset (refs a));
                  world := w';
                  observed := observed a ++ [reset (refs a)] |}).
    destruct (loop_frame users a1)
      as (a2 & Hrun & Hs & Hc & Hl & added & Hp & Hall).
    unfold try_catch. rewrite Hrun. eexists. split; [reflexivity|].
    simpl. repeat split; try done.
    rewrite Hp. by apply Forall_app.
  - rewrite (FetchFacts.fetch_roster_throws _ _ _ _ _ _ Hsel Htok Hroster).
    eexists. split; [reflexivity|]. simpl. repeat split; try done.
Qed.

(** *** The pages that are asked for *)

Lemma Processed_requests user a a' :
  Processed user a a' →
  ∃ sent, Api.requests (world a') = Api.requests (world a) ++ sent
    ∧ Forall first_page sent ∧ roster_requests sent = [].
Proof.
  assert (Hch : ∀ w o w'',
    getCitizenshipChanges (Api.user_id user) "" w = (o, w'') →
    ∃ sent, Api.requests w'' = Api.requests w ++ sent
      ∧ Forall first_page sent ∧ roster_requests sent = []).
  { intros w o w'' Hcall.
    destruct (decide (Api.authToken w = "")) as [Hno|Htok].
    - rewrite ApiFacts.getCitizenshipChanges_no_token in Hcall by done.
      injection Hcall as _ <-. exists []. by rewrite app_nil_r.
    - rewrite ApiFacts.getCitizenshipChanges_with_token in Hcall by done.
      injection Hcall as _ <-. eexists. split; [reflexivity|].
      split; [|done]. by constructor. }
  assert (Hlite : Forall first_page [Api.user_request (Api.user_id user)]
                  ∧ roster_requests [Api.user_request (Api.user_id user)] = [])
    by (split; [by constructor|done]).
  destruct Hlite as [Hp Hr].
  destruct 1 as [e w' Hlite ->|u w' Hlite Hact ->
                |u w' resp w'' Hlite Hact Hcall ->
                |u w' e w'' Hlite Hact Hcall ->];
    apply getUserLite_world in Hlite as ->; simpl.
  - by eexists.
  - by eexists.
  - destruct (Hch _ _ _ Hcall) as (sent & -> & Hp' & Hr'). simpl.
    exists (Api.user_request (Api.user_id user) :: sent).
    rewrite <- app_assoc. split; [done|]. split; [by constructor|].
    unfold roster_requests in *. by rewrite filter_cons_False.
  - destruct (Hch _ _ _ Hcall) as (sent & -> & Hp' & Hr'). simpl.
    exists (Api.user_request (Api.user_id user) :: sent).
    rewrite <- app_assoc. split; [done|]. split; [by constructor|].
    unfold roster_requests in *. by rewrite filter_cons_False.
Qed.

Lemma loop_requests users a :
  ∃ a' sent, for_of users process_user a = (Return tt, a')
    ∧ Api.requests (world a') = Api.requests (world a) ++ sent
    ∧ Forall first_page sent ∧ roster_requests sent = [].
Proof.
  revert a. induction users as [|user users IH]; intros a.
  - exists a, []. by rewrite app_nil_r.
  - destruct (FetchFacts.process_user_returns LocalTZA legacyParse upstream
                user a) as (a1 & Hrun & Hstep).
    apply Processed_requests in Hstep as (sent & Hs & Hp & Hr).
    destruct (IH a1) as (a' & sent' & Hrun' & Hs' & Hp' & Hr').
    exists a', (sent ++ sent'). cbn [for_of]. unfold bind at 1. rewrite Hrun.
    split; [exact Hrun'|]. rewrite Hs', Hs, app_assoc. split; [done|].
    split; [by apply Forall_app|].
    unfold roster_requests in *. by rewrite filter_app, Hr, Hr'.
Qed.

(** The fetch never goes beyond a first page: every request that it
    sends for a roster or for a change log has no cursor and asks for a
    hundred entries, whatever cursor the answers carried.  When it passes
    its two checks it sends one request for the roster of the country
    selected, first, and none after. *)
Theorem fetch_first_pages_only a :
  ∃ a' sent, fetchPlayersAndChanges a = (Return tt, a')
    ∧ Api.requests (world a') = Api.requests (world a) ++ sent
    ∧ Forall first_page sent
    ∧ (selectedCountryId (refs a) ≠ "" → authToken (refs a) ≠ "" →
       ∃ rest, sent = Api.roster_request (selectedCountryId (refs a)) :: rest
               ∧ roster_requests rest = []).
Proof.
  destruct (decide (selectedCountryId (refs a) = "")) as [Hsel|Hsel].
  { rewrite FetchFacts.fetch_no_country by done. eexists _, [].
    split; [reflexivity|]. simpl. by rewrite app_nil_r. }
  destruct (decide (authToken (refs a) = "")) as [Htok|Htok].
  { rewrite FetchFacts.fetch_no_token by done. eexists _, [].
    split; [reflexivity|]. simpl. by rewrite app_nil_r. }
  assert (Hfirst : first_page (Api.roster_request (selectedCountryId (refs a))))
    by done.
  destruct (Api.getUsersByCountry upstream (selectedCountryId (refs a)) "" 100
              (world a)) as [[response|e] w'] eqn:Hroster.
  - assert (Hw : Api.requests w'
                 = Api.requests (world a)
                   ++ [Api.roster_request (selectedCountryId (refs a))]).
    { rewrite FetchFacts.getUsersByCountry_eq in Hroster.
      by injection Hroster as _ <-. }
    rewrite (FetchFacts.fetch_roster_returns _ _ _ _ _ _ Hsel Htok Hroster).
    cbv zeta. set (users := default [] (Api.users_items response)).
    set (a1 := {| refs := counted_roster (length users) (reset (refs a));
                  world := w';
                  observed := observed a ++ [reset (refs a)] |}).
    destruct (loop_requests users a1) as (a2 & sent & Hrun & Hs & Hp & Hr).
    unfold try_catch. rewrite Hrun.
    exists (with_refs (set_loading false (refs a2)) a2),
           (Api.roster_request (selectedCountryId (refs a)) :: sent).
    split; [reflexivity|]. simpl. rewrite Hs. unfold a1. simpl. rewrite Hw.
    rewrite <- app_assoc. split; [done|]. split; [by constructor|].
    intros _ _. by exists sent.
  - assert (Hw : Api.requests w'
                 = Api.requests (world a)
                   ++ [Api.roster_request (selectedCountryId (refs a))]).
    { rewrite FetchFacts.getUsersByCountry_eq in Hroster.
      by injection Hroster as _ <-. }
    rewrite (FetchFacts.fetch_roster_throws _ _ _ _ _ _ Hsel Htok Hroster).
    eexists _, [Api.roster_request (selectedCountryId (refs a))].
    split; [reflexivity|]. simpl. split; [done|]. split; [by constructor|].
    intros _ _. by exists [].
Qed.

(** *** The token of the page and the token of the client *)

Lemma fetch_synced a :
  Synced a →
  ∃ a', fetchPlayersAndChanges a = (Return tt, a') ∧ Synced a'.
Proof.
  intros Hsync.
  destruct (decide (selectedCountryId (refs a) = "")) as [Hsel|Hsel].
  { rewrite FetchFacts.fetch_no_country by done. by eexists. }
  destruct (decide (authToken (refs a) = "")) as [Htok|Htok].
  { rewrite FetchFacts.fetch_no_token by done. by eexists. }
  destruct (Api.getUsersByCountry upstream (selectedCountryId (refs a)) "" 100
              (world a)) as [[response|e] w'] eqn:Hroster.
  - assert (Hw : Api.authToken w' = authToken (refs a)).
    { rewrite FetchFacts.getUsersByCountry_eq in Hroster.
      by injection Hroster as _ <-. }
    rewrite (FetchFacts.fetch_roster_returns _ _ _ _ _ _ Hsel Htok Hroster).
    cbv zeta. set (users := default [] (Api.users_items response)).
    set (a1 := {| refs := counted_roster (length users) (reset (refs a));
                  world := w';
                  observed := observed a ++ [reset (refs a)] |}).
    destruct (loop_token users a1 (authToken (refs a)))
      as (a2 & Hrun & Ht & _); [exact Hw|done|].
    destruct (loop_frame users a1) as (a2' & Hrun' & Hs & _).
    rewrite Hrun in Hrun'. injection Hrun' as <-.
    unfold try_catch. rewrite Hrun. eexists. split; [reflexivity|].
    unfold Synced. simpl. rewrite Ht.
    unfold settings in Hs. simpl in Hs. congruence.
  - assert (Hw : Api.authToken w' = authToken (refs a)).
    { rewrite FetchFacts.getUsersByCountry_eq in Hroster.
      by injection Hroster as _ <-. }
    rewrite (FetchFacts.fetch_roster_throws _ _ _ _ _ _ Hsel Htok Hroster).
    eexists. split; [reflexivity|]. exact Hw.
Qed.

Lemma handle_synced e a :
  Synced a → ∃ a', handle e a = (Return tt, a') ∧ Synced a'.
Proof.
  intros Hsync. destruct e as [|v|c| |]; simpl.
  - unfold View.onMounted, bind, finally, try_catch, await, lift, modify,
      assign, observe, with_refs, with_world.
    cbn -[Api.getAllCountries]. rewrite getAllCountries_eq.
    destruct (Api.countries_data upstream _ _) as [msg|cs];
      (eexists; split; [reflexivity|]); exact Hsync.
  - eexists. split; [reflexivity|]. done.
  - eexists. split; [reflexivity|]. exact Hsync.
  - by apply fetch_synced.
  - eexists. split; [reflexivity|]. exact Hsync.
Qed.

Lemma run_synced events a :
  Synced a → ∃ a', run events a = (Return tt, a') ∧ Synced a'.
Proof.
  revert a. induction events as [|e events IH]; intros a Hsync.
  - by exists a.
  - destruct (handle_synced e a Hsync) as (a1 & Hrun & Hsync1).
    destruct (IH (observe a1) Hsync1) as (a' & Hrun' & Hsync').
    exists a'. unfold View.run in *. cbn [for_of]. unfold bind, modify.
    unfold bind, modify in Hrun'. by rewrite Hrun.
Qed.

(** For handlers that run one after the other, none while another is
    waiting: whatever the operator has done on the page since it was
    opened, the client holds the token that the page shows.  So a fetch
    that passes its two checks, and during which the token is not edited,
    never fails for want of a token: once the roster has come, it asks for
    the changes of some of the users of the roster, in their order, each
    with the token of the page, and shows one player for each of these
    requests and no other. *)
Theorem fetch_sends_typed_token events :
  ∃ a, run events View.initial = (Return tt, a)
    ∧ Api.authToken (world a) = authToken (refs a)
    ∧ ∀ response w',
        selectedCountryId (refs a) ≠ "" → authToken (refs a) ≠ "" →
        Api.getUsersByCountry upstream (selectedCountryId (refs a)) "" 100
          (world a) = (Return response, w') →
        ∃ a' ids,
          fetchPlayersAndChanges a = (Return tt, a')
          ∧ sublist ids (Api.user_id <$> default [] (Api.users_items response))
          ∧ length (players (refs a')) = length ids
          ∧ changes_requests (Api.requests (world a'))
            = changes_requests (Api.requests (world a))
              ++ ((λ id, Api.changes_request (authToken (refs a)) id "")
                    <$> ids).
Proof.
  destruct (run_synced events View.initial) as (a & Hrun & Hsync); [done|].
  exists a. split; [exact Hrun|]. split; [exact Hsync|].
  intros response w' Hsel Htok Hroster.
  assert (Hw : w' = Api.with_requests
                      (Api.requests (world a)
                       ++ [Api.roster_request (selectedCountryId (refs a))])
                      (world a)).
  { rewrite FetchFacts.getUsersByCountry_eq in Hroster.
    by injection Hroster as _ <-. }
  rewrite (FetchFacts.fetch_roster_returns _ _ _ _ _ _ Hsel Htok Hroster).
  cbv zeta. set (users := default [] (Api.users_items response)).
  set (a1 := {| refs := counted_roster (length users) (reset (refs a));
                world := w';
                observed := observed a ++ [reset (refs a)] |}).
  destruct (loop_token users a1 (authToken (refs a)))
    as (a2 & Hloop & Ht & ids & added & Hsub & Hp & Hlen & Hr);
    [unfold a1; simpl; rewrite Hw; exact Hsync|done|].
  unfold try_catch. rewrite Hloop.
  exists (with_refs (set_loading false (refs a2)) a2), ids.
  split; [reflexivity|]. split; [exact Hsub|]. simpl.
  rewrite Hp, Hr. simpl. split; [exact Hlen|].
  rewrite Hw. simpl. rewrite changes_requests_app.
  unfold changes_requests at 2.
  rewrite filter_cons_False, filter_nil, app_nil_r; done.
Qed.

End Page.

End PageFacts.

(** ** The labels and the country list *)

Module LabelFacts.

Import Eff Api.

Local Open Scope Z_scope.

(** *** Sorting with a comparator of the host *)

Section Sort.

Context {A : Type}.

Variable cmp : A → A → Z.

Hypothesis cmp_total : ∀ x y, cmp x y ≤ 0 ∨ cmp y x ≤ 0.
Hypothesis cmp_trans : ∀ x y z, cmp x y ≤ 0 → cmp y z ≤ 0 → cmp x z ≤ 0.

Local Abbreviation comparefn := (λ a b : A, Some (cmp a b)).

Lemma sort_insert_ordered x l :
  StronglySorted (λ a b, cmp a b ≤ 0) l →
  StronglySorted (λ a b, cmp a b ≤ 0) (Js.sort_insert comparefn x l).
Proof.
  induction 1 as [|y l Hl IH Hy]; cbn [Js.sort_insert].
  - repeat constructor.
  - change (Js.SortCompare comparefn x y) with (cmp x y).
    destruct (Z.leb_spec (cmp x y) 0) as [Hle|Hgt].
    + constructor; [by constructor|].
      constructor; [done|]. eapply Forall_impl; [exact Hy|].
      intros z Hz. by eapply cmp_trans.
    + constructor; [done|].
      rewrite SortFacts.sort_insert_perm. constructor; [|done].
      destruct (cmp_total x y); [lia|done].
Qed.

Lemma sort_ordered l :
  StronglySorted (λ a b, cmp a b ≤ 0) (Js.sort comparefn l).
Proof.
  induction l as [|x l IH]; cbn [Js.sort]; [constructor|].
  by apply sort_insert_ordered.
Qed.

(** Stability, for a property [P] that elements which compare equal
    share: an element is never moved past one it is not before. *)
Lemma sort_insert_kept (P : A → Prop) `{!∀ x, Decision (P x)} x l :
  (∀ y, P x → P y → cmp x y ≤ 0) →
  filter P (Js.sort_insert comparefn x l) = filter P (x :: l).
Proof.
  intros Hsame. induction l as [|y l IH]; cbn [Js.sort_insert]; [done|].
  change (Js.SortCompare comparefn x y) with (cmp x y).
  destruct (Z.leb_spec (cmp x y) 0) as [Hle|Hgt]; [done|].
  rewrite filter_cons, IH, !(filter_cons _ x), (filter_cons _ y).
  destruct (decide (P y)) as [Hy|Hy]; [|done].
  destruct (decide (P x)) as [Hx|Hx]; [|done].
  specialize (Hsame y Hx Hy). lia.
Qed.

Lemma sort_kept (P : A → Prop) `{!∀ x, Decision (P x)} l :
  (∀ x y, P x → P y → cmp x y ≤ 0) →
  filter P (Js.sort comparefn l) = filter P l.
Proof.
  intros Hsame. induction l as [|x l IH]; cbn [Js.sort]; [done|].
  rewrite sort_insert_kept by auto. by rewrite !filter_cons, IH.
Qed.

End Sort.

Lemma NoDup_fmap_eq {A B} (f : A → B) (l : list A) x y :
  NoDup (f <$> l) → x ∈ l → y ∈ l → f x = f y → x = y.
Proof.
  induction l as [|z l IH]; intros Hnd Hx Hy Hf.
  { by apply elem_of_nil in Hx. }
  rewrite fmap_cons in Hnd. apply NoDup_cons in Hnd as [Hz Hnd].
  apply elem_of_cons in Hx as [->|Hx]; apply elem_of_cons in Hy as [->|Hy].
  - done.
  - destruct Hz. rewrite Hf. by apply list_elem_of_fmap_2.
  - destruct Hz. rewrite <- Hf. by apply list_elem_of_fmap_2.
  - by apply IH.
Qed.

Section Countries.

Variable localeCompare : string → string → Z.

Local Abbreviation sortedCountries := (Page.sortedCountries localeCompare).

(** Whatever [localeCompare] answers, the picker lists the countries that
    were loaded, each as often as it was loaded; and when [localeCompare]
    is a consistent order (any two names compare one way or the other, and
    the comparison is transitive), they are listed in that order,
    countries of one name in the order in which they were loaded. *)
Theorem sortedCountries_ordered countries :
  sortedCountries countries ≡ₚ countries
  ∧ ((∀ s t, localeCompare s t ≤ 0 ∨ localeCompare t s ≤ 0) →
     (∀ s t u, localeCompare s t ≤ 0 → localeCompare t u ≤ 0 →
               localeCompare s u ≤ 0) →
     StronglySorted (λ a b, localeCompare (name a) (name b) ≤ 0)
       (sortedCountries countries)
     ∧ ∀ n, filter (λ c, name c = n) (sortedCountries countries)
            = filter (λ c, name c = n) countries).
Proof.
  split; [apply SortFacts.sort_perm|]. intros Htotal Htrans. split.
  - apply (sort_ordered (λ a b, localeCompare (name a) (name b))).
    + intros x y. apply Htotal.
    + intros x y z. apply Htrans.
  - intros n.
    apply (sort_kept (λ a b, localeCompare (name a) (name b))).
    intros x y -> <-. by destruct (Htotal (name y) (name y)).
Qed.

End Countries.

Lemma code_order_total s t :
  Cases.code_order s t ≤ 0 ∨ Cases.code_order t s ≤ 0.
Proof.
  unfold Cases.code_order. rewrite (String.compare_antisym t s).
  destruct (String.compare s t); simpl; lia.
Qed.

Lemma code_order_trans s t u :
  Cases.code_order s t ≤ 0 → Cases.code_order t u ≤ 0 →
  Cases.code_order s u ≤ 0.
Proof.
  unfold Cases.code_order.
  change String.compare with OrderedTypeEx.String_as_OT.cmp.
  destruct (OrderedTypeEx.String_as_OT.cmp s t) eqn:H1; try lia;
    destruct (OrderedTypeEx.String_as_OT.cmp t u) eqn:H2; try lia;
    intros _ _.
  - apply OrderedTypeEx.String_as_OT.cmp_eq in H1, H2. subst.
    assert (OrderedTypeEx.String_as_OT.cmp u u = Eq) as ->
      by (by apply OrderedTypeEx.String_as_OT.cmp_eq).
    lia.
  - apply OrderedTypeEx.String_as_OT.cmp_eq in H1. subst. rewrite H2. lia.
  - apply OrderedTypeEx.String_as_OT.cmp_eq in H2. subst. rewrite H1. lia.
  - apply OrderedTypeEx.String_as_OT.cmp_lt in H1, H2.
    pose proof (OrderedTypeEx.String_as_OT.lt_trans _ _ _ H1 H2) as H.
    apply OrderedTypeEx.String_as_OT.cmp_lt in H. rewrite H. lia.
Qed.

(** The atlas under the order of the code units. *)
Lemma sortedCountries_ordered_witness :
  (∀ s t, Cases.code_order s t ≤ 0 ∨ Cases.code_order t s ≤ 0)
  ∧ (∀ s t u, Cases.code_order s t ≤ 0 → Cases.code_order t u ≤ 0 →
              Cases.code_order s u ≤ 0)
  ∧ Page.sortedCountries Cases.code_order Cases.atlas ≡ₚ Cases.atlas
  ∧ StronglySorted
      (λ a b, Cases.code_order (name a) (name b) ≤ 0)
      (Page.sortedCountries Cases.code_order Cases.atlas)
  ∧ ∀ n, filter (λ c, name c = n)
                (Page.sortedCountries Cases.code_order Cases.atlas)
         = filter (λ c, name c = n) Cases.atlas.
Proof.
  split; [exact code_order_total|]. split; [exact code_order_trans|].
  split;
    [exact (proj1 (sortedCountries_ordered Cases.code_order Cases.atlas))|].
  exact (proj2 (sortedCountries_ordered Cases.code_order Cases.atlas)
           code_order_total code_order_trans).
Defined.

(** *** The labels of the table *)

Lemma add_flag_name upstream c : name (add_flag upstream c) = name c.
Proof.
  unfold add_flag. destruct (code c) as [k|]; [|done].
  destruct (Js.truthy (Some k)); reflexivity.
Qed.

Section Labels.

Variable upstream : Upstream.

(** The two label functions only read the cache: they send nothing and
    change nothing, and a name is never empty.  No identifier gives
    ['Unknown'] and no flag; an identifier that the cache does not hold
    is shown as it is, without a flag.  Once [getAllCountries] has been
    answered, every country of the answer that has an identifier is
    labelled with the name (the identifier when the name is empty) and
    the flag of a record of the answer with that identifier, which is the
    country itself when no two countries of the answer share an
    identifier. *)
Theorem country_labels w :
  (∀ o, ∃ s f,
     Page.getCountryName o w = (Return s, w)
     ∧ Page.getCountryFlag o w = (Return f, w)
     ∧ s ≠ ""
     ∧ (Js.truthy o = false → s = "Unknown" ∧ f = None)
     ∧ (∀ id, o = Some id → id ≠ "" → countryCache w !! id = None →
              s = id ∧ f = None))
  ∧ (∀ cs c,
       countries_data upstream (requests w) countries_request = inr cs →
       c ∈ cs → country_id c ≠ "" →
       ∃ c', c' ∈ cs ∧ country_id c' = country_id c
         ∧ (NoDup (country_id <$> cs) → c' = c)
         ∧ Page.getCountryName (Some (country_id c))
             (getAllCountries upstream w).2
           = (Return (if decide (name c' = "") then country_id c
                      else name c'),
              (getAllCountries upstream w).2)
         ∧ Page.getCountryFlag (Some (country_id c))
             (getAllCountries upstream w).2
           = (Return (flagUrl (add_flag upstream c')),
              (getAllCountries upstream w).2)).
Proof.
  split.
  - intros o. destruct (Js.truthy o) eqn:Ho.
    2:{ exists "Unknown", None.
        unfold Page.getCountryName, Page.getCountryFlag. rewrite Ho.
        do 4 (split; [done|]).
        intros id -> Hne. apply ApiFacts.truthy_Some in Hne. congruence. }
    destruct o as [id|]; [|done].
    assert (Hne : id ≠ "") by (by apply ApiFacts.truthy_Some).
    unfold Page.getCountryName, Page.getCountryFlag, getCountryFromCache,
      bind, get, ret.
    rewrite Ho. change (default "" (Some id)) with id. cbn [negb].
    destruct (countryCache w !! id) as [c|] eqn:Hc.
    + exists (if decide (name c = "") then id else name c), (flagUrl c).
      split; [|split; [done|split; [|split; [done|]]]].
      * unfold Js.or. cbn [fmap option_fmap option_map].
        destruct (decide (name c = "")) as [->|Hn]; [done|].
        apply ApiFacts.truthy_Some in Hn. by rewrite Hn.
      * by destruct (decide (name c = "")).
      * intros id' [= <-] _ Hnone. congruence.
    + exists id, None. split; [done|]. split; [done|]. split; [done|].
      split; [done|]. by intros id' [= <-].
  - intros cs c Hcs Hc Hid.
    destruct (ApiFacts.cache_all_elem (add_flag upstream <$> cs)
                (countryCache w)
                (country_id c)) as (c1 & Hc1 & Hid1 & Hl).
    { rewrite <- (ApiFacts.add_flag_id upstream c).
      by apply list_elem_of_fmap_2, list_elem_of_fmap_2. }
    apply list_elem_of_fmap in Hc1 as (c' & -> & Hc').
    rewrite ApiFacts.add_flag_id in Hid1.
    exists c'. split; [done|]. split; [done|]. split.
    { intros Hnd. by eapply (NoDup_fmap_eq country_id). }
    pose proof (ApiFacts.getAllCountries_cache upstream w) as Hcache.
    rewrite Hcs in Hcache.
    apply ApiFacts.truthy_Some in Hid.
    unfold Page.getCountryName, Page.getCountryFlag, getCountryFromCache,
      bind, get, ret.
    rewrite Hid. simpl. rewrite Hcache, Hl. simpl.
    split; [|done].
    unfold Js.or. rewrite add_flag_name.
    destruct (decide (name c' = "")) as [->|Hn]; [done|].
    apply ApiFacts.truthy_Some in Hn. by rewrite Hn.
Qed.

End Labels.

End LabelFacts.

(** ** The country picker *)

Module PickerFacts.

Import CountrySelect Terms.

(** *** Strings *)

Lemma string_app_assoc (s t u : string) : (s +:+ t) +:+ u = s +:+ t +:+ u.
Proof.
  induction s as [|a s IH]; [done|].
  change (String a ((s +:+ t) +:+ u) = String a (s +:+ t +:+ u)).
  by rewrite IH.
Qed.

Lemma prefix_app (t s : string) :
  String.prefix t s = true ↔ ∃ rest, s = t +:+ rest.
Proof.
  revert s. induction t as [|a t IH]; intros [|b s]; simpl.
  - split; [by exists ""|done].
  - split; [by exists (String b s)|done].
  - split; [done|]. by intros [rest [=]].
  - destruct (ascii_dec a b) as [->|Hab].
    + rewrite IH. split; intros [rest H]; exists rest.
      * by rewrite H.
      * simpl in H. by injection H.
    + split; [done|]. intros [rest H]. simpl in H. by injection H.
Qed.

(** [includes] is what it should be: the search string occurs. *)
Lemma includes_occurs (s t : string) : includes s t = true ↔ occurs t s.
Proof.
  split.
  - induction s as [|a s IH]; cbn [includes].
    + destruct (String.prefix t "") eqn:Hp; [|done].
      intros _. apply prefix_app in Hp as [rest ->]. by exists "", rest.
    + destruct (String.prefix t (String a s)) eqn:Hp.
      * intros _. apply prefix_app in Hp as [rest ->]. by exists "", rest.
      * intros (before & after & ->)%IH.
        by exists (String a before), after.
  - intros (before & after & ->).
    induction before as [|a before IH].
    + assert (Hp : String.prefix t (t +:+ after) = true)
        by (apply prefix_app; by exists after).
      change ("" +:+ t +:+ after) with (t +:+ after).
      destruct (t +:+ after); cbn [includes]; by rewrite Hp.
    + change (String a before +:+ t +:+ after)
        with (String a (before +:+ t +:+ after)).
      cbn [includes]. rewrite IH. by destruct (String.prefix _ _).
Qed.

Lemma occurs_trans (s t u : string) : occurs s t → occurs t u → occurs s u.
Proof.
  intros (b1 & a1 & ->) (b2 & a2 & ->).
  exists (b2 +:+ b1), (a1 +:+ a2).
  by rewrite !string_app_assoc.
Qed.

Lemma filter_sublist_impl {A} (P Q : A → Prop)
    `{!∀ x, Decision (P x)} `{!∀ x, Decision (Q x)} (l : list A) :
  (∀ x, P x → Q x) → sublist (filter P l) (filter Q l).
Proof.
  intros Himpl. induction l as [|x l IH]; [done|].
  rewrite !filter_cons.
  destruct (decide (P x)) as [HP|HP].
  - rewrite decide_True by auto. by constructor.
  - destruct (decide (Q x)); [by constructor|done].
Qed.

Lemma find_NoDup (l : list Api.Country) c :
  NoDup (Api.country_id <$> l) → c ∈ l →
  List.find (λ c', String.eqb (Api.country_id c') (Api.country_id c)) l
  = Some c.
Proof.
  induction l as [|x l IH]; intros Hnd Hc.
  { by apply elem_of_nil in Hc. }
  rewrite fmap_cons in Hnd. apply NoDup_cons in Hnd as [Hx Hnd].
  cbn [List.find]. apply elem_of_cons in Hc as [->|Hc].
  - by rewrite String.eqb_refl.
  - destruct (String.eqb_spec (Api.country_id x) (Api.country_id c))
      as [Heq|Hne]; [|by apply IH].
    destruct Hx. rewrite Heq. by apply list_elem_of_fmap_2.
Qed.

Section Picker.

Variable toLowerCase : string → string.

Local Abbreviation filteredCountries :=
  (CountrySelect.filteredCountries toLowerCase).
Local Abbreviation handle := (CountrySelect.handle toLowerCase).
Local Abbreviation run := (CountrySelect.run toLowerCase).

(** *** The search *)

Lemma filteredCountries_sublist props st :
  sublist (filteredCountries props st) (countries props).
Proof.
  unfold CountrySelect.filteredCountries.
  destruct (negb _); [done|]. apply sublist_filter.
Qed.

(** The search keeps the order of the countries and drops the ones whose
    lowered name does not contain the lowered query; an empty query drops
    none.  A query whose lowered form contains that of another one is at
    least as strict: typing on only narrows the list, and the case of the
    letters typed makes no difference. *)
Theorem search_narrows props st :
  sublist (filteredCountries props st) (countries props)
  ∧ (∀ c, c ∈ filteredCountries props st
          ↔ c ∈ countries props
            ∧ (searchQuery st = ""
               ∨ occurs (toLowerCase (searchQuery st))
                        (toLowerCase (Api.name c))))
  ∧ (∀ st', searchQuery st' ≠ "" →
            occurs (toLowerCase (searchQuery st))
                   (toLowerCase (searchQuery st')) →
            sublist (filteredCountries props st')
                    (filteredCountries props st)).
Proof.
  split; [apply filteredCountries_sublist|]. split.
  - intros c. unfold CountrySelect.filteredCountries.
    destruct (decide (searchQuery st = "")) as [Hq|Hq].
    + rewrite Hq. simpl.
      split; [intros Hc; split; [done|by left]|by intros [Hc _]].
    + apply ApiFacts.truthy_Some in Hq as Hq'. rewrite Hq'. cbn [negb].
      rewrite list_elem_of_filter, includes_occurs.
      split; [intros [Ho Hc]; split; [done|by right]|].
      intros [Hc [Ho|Ho]]; [done|by split].
  - intros st' Hq' Hocc. unfold CountrySelect.filteredCountries.
    apply ApiFacts.truthy_Some in Hq'. rewrite Hq'. cbn [negb].
    destruct (Js.truthy (Some (searchQuery st))); cbn [negb];
      [|apply sublist_filter].
    apply filter_sublist_impl. intros c.
    rewrite !includes_occurs. intros Hc. by eapply occurs_trans.
Qed.

(** *** A session *)

Lemma handle_step props e st :
  closed_clear st →
  closed_clear (handle props e st)
  ∧ (∃ new, emitted (handle props e st) = emitted st ++ new
       ∧ Forall (λ v, v = "" ∨ ∃ c, c ∈ countries props
                                    ∧ Api.country_id c = v) new)
  ∧ (disabled props = true → isOpen st = false → handle props e st = st).
Proof.
  intros Hinv.
  assert (Hsame : closed_clear st
    ∧ (∃ new, emitted st = emitted st ++ new
         ∧ Forall (λ v, v = "" ∨ ∃ c, c ∈ countries props
                                      ∧ Api.country_id c = v) new)
    ∧ (disabled props = true → isOpen st = false → st = st)).
  { split; [done|]. split; [|done]. exists []. by rewrite app_nil_r. }
  destruct e as [|text| |c|]; cbn [CountrySelect.handle].
  - unfold toggleDropdown. destruct (disabled props); [done|].
    cbn [negb]. split; [|split; [|done]].
    + unfold closed_clear. simpl. by destruct (isOpen st).
    + exists []. by rewrite app_nil_r.
  - destruct (isOpen st) eqn:Hopen; [|done].
    split; [|split; [|congruence]].
    + unfold closed_clear. simpl. congruence.
    + exists []. by rewrite app_nil_r.
  - destruct (isOpen st) eqn:Hopen; [|done].
    split; [done|]. split; [|congruence].
    exists [""]. split; [done|]. constructor; [by left|done].
  - destruct (isOpen st) eqn:Hopen; [|done]. cbn [andb].
    destruct (bool_decide _) eqn:Hin; [|done].
    apply bool_decide_eq_true in Hin.
    split; [done|]. split; [|congruence].
    exists [Api.country_id c]. split; [done|].
    constructor; [|done]. right. exists c. split; [|done].
    eapply elem_of_sublist; [done|apply filteredCountries_sublist].
  - destruct (isOpen st) eqn:Hopen; [|done].
    split; [done|]. split; [|congruence].
    exists []. by rewrite app_nil_r.
Qed.

Lemma run_steps steps st :
  closed_clear st →
  closed_clear (run steps st)
  ∧ (∃ new, emitted (run steps st) = emitted st ++ new
       ∧ Forall (λ v, v = "" ∨ ∃ props e c,
                        (props, e) ∈ steps ∧ c ∈ countries props
                        ∧ Api.country_id c = v) new)
  ∧ (Forall (λ step, disabled step.1 = true) steps → isOpen st = false →
     run steps st = st).
Proof.
  revert st. induction steps as [|[props e] steps IH]; intros st Hinv.
  - split; [done|]. split; [|done]. exists []. by rewrite app_nil_r.
  - cbn [CountrySelect.run].
    destruct (handle_step props e st Hinv) as (Hinv1 & (new & He & Hnew) & Hd).
    destruct (IH _ Hinv1) as (Hinv' & (new' & He' & Hnew') & Hd').
    split; [done|]. split.
    + exists (new ++ new'). rewrite He', He, app_assoc. split; [done|].
      apply Forall_app. split.
      * eapply Forall_impl; [exact Hnew|].
        intros v [->|(c & Hc & Hv)]; [by left|right].
        exists props, e, c. split; [by left|done].
      * eapply Forall_impl; [exact Hnew'|].
        intros v [->|(props' & e' & c & Hin & Hc & Hv)]; [by left|right].
        exists props', e', c. split; [by right|done].
    + intros Hall Hopen. apply Forall_cons in Hall as [Hdis Hall].
      simpl in Hdis. rewrite (Hd Hdis Hopen) in Hd' |- *. by apply Hd'.
Qed.

(** Whatever the operator does with the picker, and whatever props the
    parent passes meanwhile: a closed picker has an empty search, so that
    opening it shows every country; it emits nothing but the empty string
    (the placeholder) and identifiers of countries it was given; and while
    it is disabled from the start it stays as it was set up, closed and
    silent. *)
Theorem picker_session steps :
  (isOpen (run steps setup) = false →
   searchQuery (run steps setup) = ""
   ∧ ∀ props, disabled props = false →
       isOpen (handle props ClickTrigger (run steps setup)) = true
       ∧ filteredCountries props (handle props ClickTrigger (run steps setup))
         = countries props)
  ∧ (∀ v, v ∈ emitted (run steps setup) →
       v = "" ∨ ∃ props e c, (props, e) ∈ steps ∧ c ∈ countries props
                             ∧ Api.country_id c = v)
  ∧ (Forall (λ step, disabled step.1 = true) steps →
     run steps setup = setup).
Proof.
  destruct (run_steps steps setup) as (Hinv & (new & He & Hnew) & Hd); [done|].
  split; [|split].
  - intros Hopen. pose proof (Hinv Hopen) as Hq. split; [done|].
    intros props Hdis. cbn [CountrySelect.handle].
    unfold toggleDropdown, CountrySelect.filteredCountries.
    rewrite Hdis, Hopen. simpl. by rewrite Hq.
  - intros v Hv. rewrite He in Hv. simpl in Hv.
    rewrite Forall_forall in Hnew. by apply Hnew.
  - intros Hall. by apply Hd.
Qed.

(** What is picked is what is shown.  When no two countries share an
    identifier, a click on a country of the open list closes the picker,
    clears the search and emits the identifier of that country; and once
    the parent has bound the value emitted, the picker shows that very
    country. *)
Theorem pick_round_trip props st c :
  NoDup (Api.country_id <$> countries props) →
  isOpen st = true →
  c ∈ filteredCountries props st →
  handle props (ClickCountry c) st
  = {| isOpen := false; searchQuery := "";
       emitted := emitted st ++ [Api.country_id c] |}
  ∧ selectedCountry (with_modelValue (Api.country_id c) props) = Some c.
Proof.
  intros Hnd Hopen Hc. split.
  - cbn [CountrySelect.handle]. rewrite Hopen, bool_decide_eq_true_2; done.
  - unfold selectedCountry. simpl. apply find_NoDup; [done|].
    eapply elem_of_sublist; [done|apply filteredCountries_sublist].
Qed.

End Picker.

(** A search for IT in the atlas, and a click on Italy. *)
Lemma pick_round_trip_witness :
  NoDup (Api.country_id <$> countries Cases.picker)
  ∧ isOpen Cases.searching = true
  ∧ Cases.italy
    ∈ CountrySelect.filteredCountries Js.toLowerCase Cases.picker
        Cases.searching
  ∧ CountrySelect.handle Js.toLowerCase Cases.picker
      (ClickCountry Cases.italy) Cases.searching
    = {| isOpen := false; searchQuery := ""; emitted := ["it"] |}
  ∧ selectedCountry (with_modelValue "it" Cases.picker) = Some Cases.italy.
Proof.
  assert (Hnd : NoDup (Api.country_id <$> countries Cases.picker))
    by (apply (bool_decide_unpack _); vm_compute; reflexivity).
  assert (Hin : Cases.italy
                ∈ CountrySelect.filteredCountries Js.toLowerCase Cases.picker
                    Cases.searching)
    by (apply (bool_decide_unpack _); vm_compute; reflexivity).
  split; [exact Hnd|]. split; [reflexivity|]. split; [exact Hin|].
  exact (pick_round_trip Js.toLowerCase Cases.picker Cases.searching
           Cases.italy Hnd eq_refl Hin).
Defined.

End PickerFacts.

(** ** The timeline of a player *)

Module TimelineFacts.

Import Eff Diagram Terms.

Local Open Scope Z_scope.



Section Dates.

Variable LocalTZA : Z → bool → Z.
Variable legacyParse : string → option Z.
Variable toLocaleDateString : Z → string.

Local Abbreviation stamp := (Terms.stamp LocalTZA legacyParse).
Local Abbreviation stamp_time := (Terms.stamp_time LocalTZA legacyParse).
Local Abbreviation sortedChanges :=
  (Diagram.sortedChanges LocalTZA legacyParse).
Local Abbreviation formatDate :=
  (Diagram.formatDate LocalTZA legacyParse toLocaleDateString).
Local Abbreviation flatten_change :=
  (View.flatten_change LocalTZA legacyParse).

Lemma compareFn_stamp a b :
  Diagram.compareFn LocalTZA legacyParse a b
  = Js.minus (stamp a) (stamp b).
Proof. reflexivity. Qed.

Lemma compareFn_by_key a b :
  is_Some (stamp a) → is_Some (stamp b) →
  Js.SortCompare (Diagram.compareFn LocalTZA legacyParse) a b
  = Js.SortCompare (Spec.by_key stamp_time) a b.
Proof.
  intros [x Hx] [y Hy].
  unfold Js.SortCompare, Spec.by_key, Terms.stamp_time.
  rewrite compareFn_stamp, Hx, Hy. done.
Qed.

(** Whatever the dates are, the timeline holds the changes it was given,
    each as often as it was given.  When the date of every change can be
    read, they come oldest first, changes of one instant in the order in
    which they were given. *)
Theorem sortedChanges_ascending props :
  sortedChanges props ≡ₚ changes props
  ∧ ((∀ c, c ∈ changes props → is_Some (stamp c)) →
     StronglySorted (λ a b, stamp_time a ≤ stamp_time b)
       (sortedChanges props)
     ∧ ∀ t, filter (λ c, stamp_time c = t) (sortedChanges props)
            = filter (λ c, stamp_time c = t) (changes props)).
Proof.
  unfold Diagram.sortedChanges.
  split; [apply SortFacts.sort_perm|]. intros Hvalid.
  rewrite (SortFacts.sort_ext _ (Spec.by_key stamp_time))
    by (intros x y Hx Hy; apply compareFn_by_key; auto).
  split; [apply SortFacts.sort_sorted|].
  intros t. apply SortFacts.sort_stable.
Qed.

(** *** The timeline and the overview *)




End Dates.

Lemma alice_dated c :
  c ∈ changes (timeline_of Cases.alice) →
  is_Some (Terms.stamp Sample.utc Sample.no_legacy c).
Proof.
  revert c. apply Forall_forall.
  repeat constructor; vm_compute; eauto.
Qed.


(** The timeline of a player with three dated changes. *)
Lemma sortedChanges_ascending_witness :
  (∀ c, c ∈ changes (timeline_of Cases.alice) →
        is_Some (Terms.stamp Sample.utc Sample.no_legacy c))
  ∧ Diagram.sortedChanges Sample.utc Sample.no_legacy
      (timeline_of Cases.alice)
    ≡ₚ changes (timeline_of Cases.alice)
  ∧ StronglySorted
      (λ a b, Terms.stamp_time Sample.utc Sample.no_legacy a
              ≤ Terms.stamp_time Sample.utc Sample.no_legacy b)
      (Diagram.sortedChanges Sample.utc Sample.no_legacy
         (timeline_of Cases.alice))
  ∧ ∀ t, filter (λ c, Terms.stamp_time Sample.utc Sample.no_legacy c = t)
           (Diagram.sortedChanges Sample.utc Sample.no_legacy
              (timeline_of Cases.alice))
         = filter (λ c, Terms.stamp_time Sample.utc Sample.no_legacy c = t)
             (changes (timeline_of Cases.alice)).
Proof.
  split; [exact alice_dated|].
  split;
    [exact (proj1 (sortedChanges_ascending Sample.utc Sample.no_legacy
                     (timeline_of Cases.alice)))|].
  exact (proj2 (sortedChanges_ascending Sample.utc Sample.no_legacy
                  (timeline_of Cases.alice)) alice_dated).
Defined.


(** *** The countries of the timeline *)

Lemma set_add_elem x y s : y ∈ set_add x s ↔ y = x ∨ y ∈ s.
Proof.
  unfold set_add. case_bool_decide as Hx.
  - split; [by right|]. by intros [->|].
  - rewrite elem_of_app, list_elem_of_singleton. tauto.
Qed.

Lemma set_add_NoDup x s : NoDup s → NoDup (set_add x s).
Proof.
  intros Hs. unfold set_add. case_bool_decide as Hx; [done|].
  apply NoDup_app. split; [done|]. split; [|apply NoDup_singleton].
  intros y Hy ->%list_elem_of_singleton. done.
Qed.

Lemma add_if_elem o y s :
  y ∈ add_if o s ↔ (o = Some y ∧ y ≠ "") ∨ y ∈ s.
Proof.
  unfold add_if. destruct o as [x|].
  - destruct (Js.truthy (Some x)) eqn:Hx.
    + apply ApiFacts.truthy_Some in Hx. rewrite set_add_elem.
      split; [intros [->|]; [left|right]; done|].
      intros [[[= ->] _]|]; [by left|by right].
    + split; [by right|]. intros [[[= ->] Hy]|]; [|done].
      apply ApiFacts.truthy_Some in Hy. congruence.
  - split; [by right|]. by intros [[? _]|].
Qed.

Lemma add_if_NoDup o s : NoDup s → NoDup (add_if o s).
Proof.
  intros Hs. unfold add_if. destruct o as [x|]; [|done].
  destruct (Js.truthy (Some x)); [by apply set_add_NoDup|done].
Qed.

Lemma collect_elem s change y :
  y ∈ collect s change
  ↔ y ∈ s
    ∨ (y ≠ "" ∧ (field Api.fromCountryId change = Some y
                 ∨ field Api.toCountryId change = Some y
                 ∨ field Api.from change = Some y
                 ∨ field Api.to change = Some y)).
Proof. unfold collect. rewrite !add_if_elem. tauto. Qed.

Lemma collect_NoDup s change : NoDup s → NoDup (collect s change).
Proof. intros Hs. unfold collect. by do 4 apply add_if_NoDup. Qed.

Lemma foldl_collect_elem changes s y :
  y ∈ foldl collect s changes
  ↔ y ∈ s
    ∨ ∃ change, change ∈ changes ∧ y ≠ ""
        ∧ (field Api.fromCountryId change = Some y
           ∨ field Api.toCountryId change = Some y
           ∨ field Api.from change = Some y
           ∨ field Api.to change = Some y).
Proof.
  revert s. induction changes as [|change changes IH]; intros s.
  - simpl. split; [by left|]. intros [|(c & Hc & _)]; [done|].
    by apply elem_of_nil in Hc.
  - simpl. rewrite IH, collect_elem. split.
    + intros [[|[Hy Hf]]|(c & Hc & Hy & Hf)].
      * by left.
      * right. exists change. split; [by left|done].
      * right. exists c. split; [by right|done].
    + intros [|(c & Hc & Hy & Hf)]; [by left; left|].
      apply elem_of_cons in Hc as [->|Hc].
      * left. by right.
      * right. by exists c.
Qed.

Lemma foldl_collect_NoDup changes s :
  NoDup s → NoDup (foldl collect s changes).
Proof.
  revert s. induction changes as [|change changes IH]; intros s Hs; [done|].
  simpl. by apply IH, collect_NoDup.
Qed.

(** The identifier that [getCountryInfo] looks up is one that the hook
    has collected. *)
Lemma countryId_collected props change type id :
  change ∈ changes props → countryId change type = Some id → id ≠ "" →
  id ∈ countryIds (changes props).
Proof.
  intros Hc Hid Hne. unfold countryIds. apply foldl_collect_elem. right.
  exists change. split; [done|]. split; [done|].
  unfold countryId, Js.or in Hid.
  destruct type.
  - destruct (Js.truthy (field Api.fromCountryId change)); tauto.
  - destruct (Js.truthy (field Api.toCountryId change)); tauto.
Qed.

Lemma or_Unknown a : ∃ s, Js.or a (Some "Unknown") = Some s ∧ s ≠ "".
Proof.
  unfold Js.or. destruct a as [s|]; [|by exists "Unknown"].
  destruct (Js.truthy (Some s)) eqn:Hs; [|by exists "Unknown"].
  exists s. split; [done|]. by apply ApiFacts.truthy_Some.
Qed.

Lemma getCountryInfo_miss m change type id :
  countryId change type = Some id → id ≠ "" → m !! id = None →
  getCountryInfo m change type = getCountryInfo ∅ change type
  ∧ info_name (getCountryInfo m change type) ≠ ""
  ∧ info_flagUrl (getCountryInfo m change type) = None.
Proof.
  intros Hid Hne Hm. apply ApiFacts.truthy_Some in Hne.
  unfold getCountryInfo. rewrite Hid, Hne.
  change (default "" (Some id)) with id. rewrite Hm, lookup_empty.
  split; [done|]. split; [|done]. cbn [info_name].
  destruct type.
  - destruct (or_Unknown (Js.or (Js.or (field Api.fromCountryName change)
                                       (field Api.fromCountryId change))
                                (field Api.from change))) as (s & -> & Hs).
    done.
  - destruct (or_Unknown (Js.or (Js.or (field Api.toCountryName change)
                                       (field Api.toCountryId change))
                                (field Api.to change))) as (s & -> & Hs).
    done.
Qed.

Lemma getCountryInfo_hit m change type id c :
  countryId change type = Some id → id ≠ "" → m !! id = Some c →
  getCountryInfo m change type
  = {| info_name := Api.name c; info_flagUrl := Api.flagUrl c |}.
Proof.
  intros Hid Hne Hm. apply ApiFacts.truthy_Some in Hne.
  unfold getCountryInfo. rewrite Hid, Hne.
  change (default "" (Some id)) with id. by rewrite Hm.
Qed.

Section Mount.

Variable upstream : Api.Upstream.

Local Abbreviation resolve := (Diagram.resolve upstream).
Local Abbreviation onMounted := (Diagram.onMounted upstream).

Lemma resolve_eq id s :
  resolve id s
  = (Return tt,
     match Api.countryCache (world s) !! id with
     | Some c =>
         {| countryMap := <[id := c]> (countryMap s); world := world s |}
     | None =>
         match Api.country_data upstream (Api.requests (world s))
                 (Api.country_request id) with
         | inr c =>
             {| countryMap := <[id := Api.add_flag upstream c]> (countryMap s);
                world := (Api.getCountryById upstream id (world s)).2 |}
         | inl msg =>
             {| countryMap := countryMap s;
                world := (Api.getCountryById upstream id (world s)).2 |}
         end
     end).
Proof.
  unfold Diagram.resolve, bind, lift, modify, ret.
  rewrite ApiFacts.getCountryById_eq.
  destruct (Api.countryCache (world s) !! id) as [c|] eqn:Hc.
  - simpl. by destruct s.
  - destruct (Api.country_data upstream _ _) as [msg|c]; reflexivity.
Qed.

(** One country: the request goes out when the client has no record, and
    afterwards the component has what the client has. *)
Lemma resolve_step id s :
  countryMap s !! id = None →
  ∃ s', resolve id s = (Return tt, s')
    ∧ Api.requests (world s')
      = Api.requests (world s)
        ++ (if decide (Api.countryCache (world s) !! id = None)
            then [Api.country_request id] else [])
    ∧ countryMap s' !! id = Api.countryCache (world s') !! id
    ∧ (∀ k, k ≠ id →
         Api.countryCache (world s') !! k = Api.countryCache (world s) !! k
         ∧ countryMap s' !! k = countryMap s !! k)
    ∧ (∀ k c, Api.countryCache (world s) !! k = Some c →
              Api.countryCache (world s') !! k = Some c).
Proof.
  intros Hm. rewrite resolve_eq. eexists. split; [reflexivity|].
  rewrite ApiFacts.getCountryById_eq.
  destruct (Api.countryCache (world s) !! id) as [c|] eqn:Hc.
  - rewrite decide_False by done. cbn [world countryMap].
    rewrite app_nil_r, lookup_insert_eq, Hc.
    split; [done|]. split; [done|]. split; [|done].
    intros k Hk. by rewrite lookup_insert_ne.
  - rewrite decide_True by done.
    destruct (Api.country_data upstream _ _) as [msg|c]; cbn.
    + rewrite Hm, Hc. by split; [|split; [|split]].
    + rewrite !lookup_insert_eq. split; [done|]. split; [done|]. split.
      * intros k Hk. by rewrite !lookup_insert_ne.
      * intros k c' Hk. rewrite lookup_insert_ne; [done|]. congruence.
Qed.

Lemma resolve_loop ids s :
  NoDup ids → (∀ k, k ∈ ids → countryMap s !! k = None) →
  ∃ s', for_of ids resolve s = (Return tt, s')
    ∧ Api.requests (world s')
      = Api.requests (world s)
        ++ (Api.country_request
              <$> filter (λ id, Api.countryCache (world s) !! id = None) ids)
    ∧ (∀ k, k ∈ ids → countryMap s' !! k = Api.countryCache (world s') !! k)
    ∧ (∀ k, k ∉ ids →
         Api.countryCache (world s') !! k = Api.countryCache (world s) !! k
         ∧ countryMap s' !! k = countryMap s !! k)
    ∧ (∀ k c, Api.countryCache (world s) !! k = Some c →
              Api.countryCache (world s') !! k = Some c).
Proof.
  intros Hnd. revert s. induction Hnd as [|id ids Hid Hnd IH]; intros s Hm.
  - exists s. split; [done|]. rewrite filter_nil, app_nil_r.
    repeat split; try done. intros k Hk. by apply elem_of_nil in Hk.
  - destruct (resolve_step id s) as (s1 & Hrun & Hr & Hat & Hother & Hkeep).
    { apply Hm. by left. }
    destruct (IH s1) as (s' & Hrun' & Hr' & Hin' & Hout' & Hkeep').
    { intros k Hk. destruct (Hother k) as [_ ->]; [by intros ->|].
      apply Hm. by right. }
    exists s'. cbn [for_of]. unfold bind at 1. rewrite Hrun.
    split; [exact Hrun'|]. split; [|split; [|split]].
    + rewrite Hr', Hr, <- app_assoc. f_equal.
      rewrite filter_cons.
      rewrite (ViewFacts.filter_ext_in
                 (λ k, Api.countryCache (world s1) !! k = None)
                 (λ k, Api.countryCache (world s) !! k = None) ids).
      * by destruct (decide (Api.countryCache (world s) !! id = None)).
      * intros k Hk. destruct (Hother k) as [-> _]; [by intros ->|done].
    + intros k Hk. apply elem_of_cons in Hk as [->|Hk]; [|by apply Hin'].
      destruct (Hout' id Hid) as [-> ->]. exact Hat.
    + intros k Hk. apply not_elem_of_cons in Hk as [Hne Hk].
      destruct (Hout' k Hk) as [-> ->]. by apply Hother.
    + intros k c Hk. by apply Hkeep', Hkeep.
Qed.

(** A timeline mounted on its own asks the client for every country that
    its changes name in one of their four fields, once each; the client
    sends a request for those it has no record of, and only for those.
    Nothing is thrown, and no record of the client is lost.
    Afterwards the component knows of each country what the client knows:
    a side of a change whose country the client holds is shown with the
    name and the flag of that record; one whose country could not be
    fetched is shown as the change itself names it, never with an empty
    name, and without a flag. *)
Theorem mount_resolves props w :
  ∃ s', onMounted props (setup w) = (Return tt, s')
    ∧ NoDup (countryIds (changes props))
    ∧ (∀ id, id ∈ countryIds (changes props)
             ↔ ∃ change, change ∈ changes props ∧ id ≠ ""
                 ∧ (field Api.fromCountryId change = Some id
                    ∨ field Api.toCountryId change = Some id
                    ∨ field Api.from change = Some id
                    ∨ field Api.to change = Some id))
    ∧ Api.requests (world s')
      = Api.requests w
        ++ (Api.country_request
              <$> filter (λ id, Api.countryCache w !! id = None)
                         (countryIds (changes props)))
    ∧ (∀ k c, Api.countryCache w !! k = Some c →
              Api.countryCache (world s') !! k = Some c)
    ∧ ∀ change type id,
        change ∈ changes props → countryId change type = Some id →
        id ≠ "" →
        countryMap s' !! id = Api.countryCache (world s') !! id
        ∧ match Api.countryCache (world s') !! id with
          | Some c =>
              getCountryInfo (countryMap s') change type
              = {| info_name := Api.name c; info_flagUrl := Api.flagUrl c |}
          | None =>
              getCountryInfo (countryMap s') change type
              = getCountryInfo ∅ change type
              ∧ info_name (getCountryInfo (countryMap s') change type) ≠ ""
              ∧ info_flagUrl (getCountryInfo (countryMap s') change type)
                = None
          end.
Proof.
  assert (Hnd : NoDup (countryIds (changes props)))
    by (apply foldl_collect_NoDup, NoDup_nil_2).
  destruct (resolve_loop (countryIds (changes props)) (setup w) Hnd)
    as (s' & Hrun & Hr & Hin & _ & Hkeep).
  { intros k _. apply lookup_empty. }
  exists s'. split; [exact Hrun|]. split; [exact Hnd|]. split.
  { intros id. unfold countryIds. rewrite foldl_collect_elem.
    split; [|by right]. intros [Hid|]; [|done]. by apply elem_of_nil in Hid. }
  split; [exact Hr|]. split; [exact Hkeep|].
  intros change type id Hc Hid Hne.
  pose proof (Hin id (countryId_collected _ _ _ _ Hc Hid Hne)) as Hagree.
  split; [exact Hagree|].
  destruct (Api.countryCache (world s') !! id) as [c|] eqn:Hcache.
  - by eapply getCountryInfo_hit.
  - by eapply getCountryInfo_miss.
Qed.

End Mount.

(** *** The labels of the timeline and of the overview *)

Section Labels.

Variable LocalTZA : Z → bool → Z.
Variable legacyParse : string → option Z.
Variable upstream : Api.Upstream.

Local Abbreviation flatten_change :=
  (View.flatten_change LocalTZA legacyParse).

(** The overview and the timeline look up the same country for a side of
    a change, and once the timeline of the player is mounted they label it
    alike whenever the client holds a record of it with a name: both show
    the name and the flag of that record. *)
Theorem labels_agree player w :
  ∃ s', Diagram.onMounted upstream (timeline_of player) (setup w)
        = (Return tt, s')
    ∧ ∀ ch type,
        ch ∈ View.citizenshipChanges player →
        row_countryId (flatten_change player ch) type
        = countryId (of_api ch) type
        ∧ ∀ id c,
            countryId (of_api ch) type = Some id → id ≠ "" →
            Api.countryCache (world s') !! id = Some c →
            Api.name c ≠ "" →
            Page.getCountryName
              (row_countryId (flatten_change player ch) type) (world s')
            = (Return (info_name (getCountryInfo (countryMap s') (of_api ch)
                                                 type)),
               world s')
            ∧ Page.getCountryFlag
                (row_countryId (flatten_change player ch) type) (world s')
              = (Return (info_flagUrl (getCountryInfo (countryMap s')
                                                      (of_api ch) type)),
                 world s').
Proof.
  destruct (resolve_loop upstream (countryIds (changes (timeline_of player)))
              (setup w)) as (s' & Hrun & _ & Hin & _).
  { apply foldl_collect_NoDup, NoDup_nil_2. }
  { intros k _. apply lookup_empty. }
  exists s'. split; [exact Hrun|]. intros ch type Hch.
  assert (Hsame : row_countryId (flatten_change player ch) type
                  = countryId (of_api ch) type) by (by destruct type).
  split; [exact Hsame|]. intros id c Hid Hne Hcache Hname.
  assert (Hmap : countryMap s' !! id = Some c).
  { rewrite Hin; [done|].
    apply (countryId_collected (timeline_of player) (of_api ch) type);
      [|done|done].
    by apply list_elem_of_fmap_2. }
  rewrite (getCountryInfo_hit _ _ _ _ _ Hid Hne Hmap), Hsame, Hid.
  cbn [info_name info_flagUrl].
  apply ApiFacts.truthy_Some in Hne. apply ApiFacts.truthy_Some in Hname.
  unfold Page.getCountryName, Page.getCountryFlag, Api.getCountryFromCache,
    bind, get, ret.
  rewrite Hne. change (default "" (Some id)) with id. cbn [negb].
  rewrite Hcache. cbn [fmap option_fmap option_map mbind option_bind].
  unfold Js.or. by rewrite Hname.
Qed.

End Labels.

End TimelineFacts.

(** ** The cache and the requests for a country *)

Module CacheFacts.

Import Eff Api Terms.

Section Client.

Variable LocalTZA : Z → bool → Z.
Variable legacyParse : string → option Z.
Variable upstream : Upstream.

Local Abbreviation after := (Api.after LocalTZA legacyParse upstream).
Local Abbreviation after_all :=
  (Terms.after_all LocalTZA legacyParse upstream).

Lemma country_requests_other l q countryId :
  q ≠ country_request countryId →
  country_requests countryId (l ++ [q]) = country_requests countryId l.
Proof.
  intros Hq. unfold country_requests.
  rewrite filter_app, filter_cons_False, filter_nil, app_nil_r; done.
Qed.

Lemma after_is_Some op w k :
  is_Some (countryCache w !! k) → is_Some (countryCache (after op w) !! k).
Proof.
  intros [c Hc].
  assert (op = GetAllCountries ∨ (∃ c', op = GetCountryById c')
          ∨ (op ≠ GetAllCountries ∧ ∀ c', op ≠ GetCountryById c'))
    as [->|[[c' ->]|[Hall Hby]]].
  { destruct op; eauto; right; right; split; congruence. }
  - cbn [Api.after]. rewrite ApiFacts.getAllCountries_cache.
    destruct (countries_data upstream _ _); [eauto|].
    apply ApiFacts.cache_all_is_Some. eauto.
  - cbn [Api.after]. erewrite ApiFacts.getCountryById_keeps; eauto.
  - rewrite ApiFacts.after_cache_other by done. eauto.
Qed.

Lemma after_country_requests op w countryId :
  is_Some (countryCache w !! countryId) →
  country_requests countryId (requests (after op w))
  = country_requests countryId (requests w).
Proof.
  intros [c Hc]. destruct op as [c'| |c'|t|c' cur l|u|u cur]; cbn [Api.after].
  - rewrite ApiFacts.getCountryById_eq.
    destruct (countryCache w !! c') as [c1|] eqn:Hc'; [done|].
    assert (Hne : country_request c' ≠ country_request countryId)
      by (intros [= ->]; congruence).
    destruct (country_data upstream _ _);
      by apply country_requests_other.
  - unfold getAllCountries, try_catch, bind, axios_get, buildUrl.
    destruct (countries_data upstream _ _);
      by apply country_requests_other.
  - done.
  - done.
  - unfold getUsersByCountry, axios_get, buildUrl.
    destruct (users_data upstream _ _);
      by apply country_requests_other.
  - destruct (ClientFacts.getUserLite_eq LocalTZA legacyParse upstream u w)
      as (o & -> & _).
    by apply country_requests_other.
  - destruct (decide (authToken w = "")) as [Hno|Htok].
    + by rewrite ApiFacts.getCitizenshipChanges_no_token.
    + rewrite ApiFacts.getCitizenshipChanges_with_token by done.
      by apply country_requests_other.
Qed.

(** A country that is in the cache is never asked for by its identifier
    again: whatever the client is used for afterwards, and however often
    [getCountryById] is called for it, the country stays in the cache and
    no further request for it goes out. *)
Theorem cached_never_requested countryId w ops :
  is_Some (countryCache w !! countryId) →
  is_Some (countryCache (after_all ops w) !! countryId)
  ∧ country_requests countryId (requests (after_all ops w))
    = country_requests countryId (requests w).
Proof.
  revert w. induction ops as [|op ops IH]; intros w Hc; [done|].
  cbn [Terms.after_all foldl].
  destruct (IH (after op w)) as [Hc' Hr']; [by apply after_is_Some|].
  split; [exact Hc'|].
  unfold Terms.after_all in Hr'. rewrite Hr'.
  by apply after_country_requests.
Qed.

End Client.

(** France fetched once, then listed, asked for twice more, and a roster
    fetched: one request for France in all. *)
Lemma cached_never_requested_witness :
  is_Some (countryCache
             (Api.after Sample.utc Sample.no_legacy Sample.upstream
                (GetCountryById "fr") initial) !! "fr")
  ∧ country_requests "fr"
      (requests
         (Terms.after_all Sample.utc Sample.no_legacy Sample.upstream
            [GetCountryById "fr"; GetAllCountries; GetCountryById "fr";
             GetUsersByCountry "fr" "" 100]
            (Api.after Sample.utc Sample.no_legacy Sample.upstream
               (GetCountryById "fr") initial)))
    = [country_request "fr"].
Proof.
  assert (Hc : is_Some (countryCache
                          (Api.after Sample.utc Sample.no_legacy
                             Sample.upstream (GetCountryById "fr") initial)
                        !! "fr"))
    by (vm_compute; eauto).
  split; [exact Hc|].
  exact (proj2 (cached_never_requested Sample.utc Sample.no_legacy
                  Sample.upstream "fr" _
                  [GetCountryById "fr"; GetAllCountries; GetCountryById "fr";
                   GetUsersByCountry "fr" "" 100] Hc)).
Defined.

End CacheFacts.

(** ** The tallies and the renders of a fetch *)

Module TallyFacts.

Import Eff View Spec Terms.

Local Open Scope Z_scope.

Section Fetch.

Variable LocalTZA : Z → bool → Z.
Variable legacyParse : string → option Z.
Variable upstream : Api.Upstream.

Local Abbreviation getUserLite :=
  (Api.getUserLite LocalTZA legacyParse upstream).
Local Abbreviation getCitizenshipChanges :=
  (Api.getCitizenshipChanges upstream).
Local Abbreviation process_user :=
  (View.process_user LocalTZA legacyParse upstream).
Local Abbreviation fetchPlayersAndChanges :=
  (View.fetchPlayersAndChanges LocalTZA legacyParse upstream).
Local Abbreviation Processed :=
  (Spec.Processed LocalTZA legacyParse upstream).

Lemma active_true u :
  default false (Api.active u) = true → Api.active u = Some true.
Proof. by destruct (Api.active u) as [[]|]. Qed.

(** A round accounts for its user in one of three ways. *)
Lemma Processed_account user a a' :
  Processed user a a' →
  ∃ added (inactive : nat) logged,
    (length added + inactive + length logged = 1)%nat
    ∧ players (refs a') = players (refs a) ++ added
    ∧ Forall (λ p, Api.active (View.user p) = Some true) added
    ∧ stats_active (stats (refs a'))
      = stats_active (stats (refs a)) + Z.of_nat (length added)
    ∧ stats_inactive (stats (refs a'))
      = stats_inactive (stats (refs a)) + Z.of_nat inactive
    ∧ stats_total (stats (refs a')) = stats_total (stats (refs a))
    ∧ Api.console (world a') = Api.console (world a) ++ logged
    ∧ Forall (λ entry, entry.1
                       = "Error fetching user " +:+ Api.user_id user +:+ ":")
             logged.
Proof.
  assert (Hcon : ∀ w o w'',
    getCitizenshipChanges (Api.user_id user) "" w = (o, w'') →
    Api.console w'' = Api.console w).
  { intros w o w'' Hcall.
    pose proof (FetchFacts.getCitizenshipChanges_console upstream
                  (Api.user_id user) "" w) as H.
    by rewrite Hcall in H. }
  destruct 1 as [e w' Hlite ->|u w' Hlite Hact ->
                |u w' resp w'' Hlite Hact Hcall ->
                |u w' e w'' Hlite Hact Hcall ->];
    apply (PageFacts.getUserLite_world LocalTZA legacyParse upstream)
      in Hlite as Hw; subst w'.
  - exists [], 0%nat, [("Error fetching user " +:+ Api.user_id user +:+ ":", e)].
    simpl. rewrite app_nil_r.
    do 2 (split; [done|]). split; [by constructor|].
    split; [lia|]. split; [lia|]. split; [done|]. split; [done|].
    by constructor.
  - exists [], 1%nat, []. simpl. rewrite !app_nil_r.
    do 2 (split; [done|]). split; [by constructor|].
    split; [lia|]. by repeat split.
  - apply Hcon in Hcall. apply active_true in Hact.
    exists [loaded u resp], 0%nat, []. simpl. rewrite app_nil_r.
    do 2 (split; [done|]). split; [by constructor|].
    split; [done|]. split; [lia|]. by repeat split.
  - apply Hcon in Hcall. apply active_true in Hact.
    exists [failed u e], 0%nat, []. simpl. rewrite app_nil_r.
    do 2 (split; [done|]). split; [by constructor|].
    split; [done|]. split; [lia|]. by repeat split.
Qed.

Lemma loop_account users a :
  ∃ a' added (inactive : nat) logged,
    for_of users process_user a = (Return tt, a')
    ∧ (length added + inactive + length logged = length users)%nat
    ∧ players (refs a') = players (refs a) ++ added
    ∧ Forall (λ p, Api.active (View.user p) = Some true) added
    ∧ stats_active (stats (refs a'))
      = stats_active (stats (refs a)) + Z.of_nat (length added)
    ∧ stats_inactive (stats (refs a'))
      = stats_inactive (stats (refs a)) + Z.of_nat inactive
    ∧ stats_total (stats (refs a')) = stats_total (stats (refs a))
    ∧ Api.console (world a') = Api.console (world a) ++ logged
    ∧ Forall (λ entry, ∃ user, user ∈ users
                ∧ entry.1 = "Error fetching user " +:+ Api.user_id user
                            +:+ ":")
             logged.
Proof.
  revert a. induction users as [|user users IH]; intros a.
  - exists a, [], 0%nat, []. simpl. rewrite !app_nil_r.
    do 3 (split; [done|]). split; [by constructor|].
    split; [lia|]. split; [lia|]. by repeat split.
  - destruct (FetchFacts.process_user_returns LocalTZA legacyParse upstream
                user a) as (a1 & Hrun & Hstep).
    apply Processed_account in Hstep
      as (added & inactive & logged & Hn & Hp & Hact & Ha & Hi & Ht & Hc & Hl).
    destruct (IH a1)
      as (a' & added' & inactive' & logged' & Hrun' & Hn' & Hp' & Hact' & Ha'
          & Hi' & Ht' & Hc' & Hl').
    exists a', (added ++ added'), (inactive + inactive')%nat,
      (logged ++ logged').
    cbn [for_of]. unfold bind at 1. rewrite Hrun.
    split; [exact Hrun'|].
    rewrite Hp', Hp, Ha', Ha, Hi', Hi, Ht', Ht, Hc', Hc, !app_assoc,
      !length_app, length_cons.
    split; [lia|]. split; [done|]. split; [by apply Forall_app|].
    split; [lia|]. split; [lia|]. split; [done|]. split; [done|].
    apply Forall_app. split.
    + eapply Forall_impl; [exact Hl|]. intros entry He.
      exists user. split; [by left|done].
    + eapply Forall_impl; [exact Hl'|]. intros entry (u & Hu & He).
      exists u. split; [by right|done].
Qed.

(** Every user of the roster is accounted for.  A fetch that passes its
    two checks ends with as many players as it has counted active users,
    each of them a user that [getUserLite] found active; and its total is
    the active users, the inactive users and the users whose request
    failed, each of which it has logged on the console, and nothing
    else. *)
Theorem fetch_accounts a :
  ∃ a' logged,
    fetchPlayersAndChanges a = (Return tt, a')
    ∧ Api.console (world a') = Api.console (world a) ++ logged
    ∧ (selectedCountryId (refs a) ≠ "" → authToken (refs a) ≠ "" →
       stats_active (stats (refs a'))
       = Z.of_nat (length (players (refs a')))
       ∧ Forall (λ p, Api.active (View.user p) = Some true)
                (players (refs a'))
       ∧ stats_total (stats (refs a'))
         = stats_active (stats (refs a')) + stats_inactive (stats (refs a'))
           + Z.of_nat (length logged)
       ∧ Forall (λ entry, ∃ user,
                   entry.1 = "Error fetching user " +:+ user +:+ ":")
                logged).
Proof.
  destruct (decide (selectedCountryId (refs a) = "")) as [Hsel|Hsel].
  { rewrite FetchFacts.fetch_no_country by done. eexists _, [].
    split; [reflexivity|]. simpl. by rewrite app_nil_r. }
  destruct (decide (authToken (refs a) = "")) as [Htok|Htok].
  { rewrite FetchFacts.fetch_no_token by done. eexists _, [].
    split; [reflexivity|]. simpl. by rewrite app_nil_r. }
  destruct (Api.getUsersByCountry upstream (selectedCountryId (refs a)) "" 100
              (world a)) as [[response|e] w'] eqn:Hroster.
  - assert (Hw : Api.console w' = Api.console (world a)).
    { rewrite FetchFacts.getUsersByCountry_eq in Hroster.
      by injection Hroster as _ <-. }
    rewrite (FetchFacts.fetch_roster_returns _ _ _ _ _ _ Hsel Htok Hroster).
    cbv zeta. set (users := default [] (Api.users_items response)).
    set (a1 := {| refs := counted_roster (length users) (reset (refs a));
                  world := w';
                  observed := observed a ++ [reset (refs a)] |}).
    destruct (loop_account users a1)
      as (a2 & added & inactive & logged & Hrun & Hn & Hp & Hact & Ha & Hi
          & Ht & Hc & Hl).
    unfold try_catch. rewrite Hrun.
    exists (with_refs (set_loading false (refs a2)) a2), logged.
    split; [reflexivity|]. simpl. rewrite Hc, Hp, Ha, Hi, Ht. unfold a1.
    simpl. rewrite Hw. split; [done|]. intros _ _.
    split; [lia|]. split; [done|]. split; [lia|].
    eapply Forall_impl; [exact Hl|]. intros entry (u & _ & He). eauto.
  - assert (Hw : Api.console w' = Api.console (world a)).
    { rewrite FetchFacts.getUsersByCountry_eq in Hroster.
      by injection Hroster as _ <-. }
    rewrite (FetchFacts.fetch_roster_throws _ _ _ _ _ _ Hsel Htok Hroster).
    eexists _, []. split; [reflexivity|]. simpl. rewrite Hw, app_nil_r.
    split; [done|]. intros _ _. by repeat split.
Qed.

(** *** What the page shows while the fetch runs *)

Lemma Processed_seen user a a' :
  Processed user a a' →
  ∃ seen, observed a' = observed a ++ seen
    ∧ Forall (λ r, loading r = loading (refs a)
                   ∧ error r = error (refs a)) seen
    ∧ loading (refs a') = loading (refs a)
    ∧ error (refs a') = error (refs a).
Proof.
  destruct 1 as [e w' Hlite ->|u w' Hlite Hact ->
                |u w' resp w'' Hlite Hact Hcall ->
                |u w' e w'' Hlite Hact Hcall ->];
    (eexists; split; [reflexivity|]); simpl;
    (split; [|done]); by repeat constructor.
Qed.

Lemma loop_seen users a :
  ∃ a' seen, for_of users process_user a = (Return tt, a')
    ∧ observed a' = observed a ++ seen
    ∧ Forall (λ r, loading r = loading (refs a)
                   ∧ error r = error (refs a)) seen
    ∧ loading (refs a') = loading (refs a)
    ∧ error (refs a') = error (refs a).
Proof.
  revert a. induction users as [|user users IH]; intros a.
  - exists a, []. simpl. by rewrite app_nil_r.
  - destruct (FetchFacts.process_user_returns LocalTZA legacyParse upstream
                user a) as (a1 & Hrun & Hstep).
    apply Processed_seen in Hstep as (seen & Ho & Hs & Hl & He).
    destruct (IH a1) as (a' & seen' & Hrun' & Ho' & Hs' & Hl' & He').
    exists a', (seen ++ seen'). cbn [for_of]. unfold bind at 1. rewrite Hrun.
    split; [exact Hrun'|]. rewrite Ho', Ho, app_assoc, Hl', He'.
    split; [done|]. split; [|done].
    apply Forall_app. split; [done|].
    eapply Forall_impl; [exact Hs'|]. intros r [? ?]. split; congruence.
Qed.

(** While a fetch that has passed its two checks is waiting for an
    answer, the page shows it as loading and shows no error: every state
    of the refs that can be rendered during the fetch, from the request
    for the roster on, has [loading] set and [error] empty.  Only the end
    of the fetch lowers the flag, and only a failed roster writes an
    error. *)
Theorem fetch_shows_loading a :
  selectedCountryId (refs a) ≠ "" → authToken (refs a) ≠ "" →
  ∃ a' seen,
    fetchPlayersAndChanges a = (Return tt, a')
    ∧ observed a' = observed a ++ reset (refs a) :: seen
    ∧ Forall (λ r, loading r = true ∧ error r = "") (reset (refs a) :: seen)
    ∧ loading (refs a') = false.
Proof.
  intros Hsel Htok.
  destruct (Api.getUsersByCountry upstream (selectedCountryId (refs a)) "" 100
              (world a)) as [[response|e] w'] eqn:Hroster.
  - rewrite (FetchFacts.fetch_roster_returns _ _ _ _ _ _ Hsel Htok Hroster).
    cbv zeta. set (users := default [] (Api.users_items response)).
    set (a1 := {| refs := counted_roster (length users) (reset (refs a));
                  world := w';
                  observed := observed a ++ [reset (refs a)] |}).
    destruct (loop_seen users a1) as (a2 & seen & Hrun & Ho & Hs & _).
    unfold try_catch. rewrite Hrun.
    exists (with_refs (set_loading false (refs a2)) a2), seen.
    split; [reflexivity|]. simpl. rewrite Ho. unfold a1. simpl.
    rewrite <- app_assoc. split; [done|]. split; [|done].
    constructor; [done|]. exact Hs.
  - rewrite (FetchFacts.fetch_roster_throws _ _ _ _ _ _ Hsel Htok Hroster).
    eexists _, []. split; [reflexivity|]. simpl.
    split; [done|]. split; [|done]. by repeat constructor.
Qed.

End Fetch.

(** The sample page, ready, and the sample roster. *)
Lemma fetch_shows_loading_witness :
  selectedCountryId (refs Sample.ready) ≠ ""
  ∧ authToken (refs Sample.ready) ≠ ""
  ∧ ∃ a' seen,
      View.fetchPlayersAndChanges Sample.new_york Sample.no_legacy
        Sample.upstream Sample.ready = (Return tt, a')
      ∧ observed a' = observed Sample.ready ++ reset (refs Sample.ready) :: seen
      ∧ Forall (λ r, loading r = true ∧ error r = "")
               (reset (refs Sample.ready) :: seen)
      ∧ loading (refs a') = false.
Proof.
  assert (Hsel : selectedCountryId (refs Sample.ready) ≠ "")
    by (vm_compute; discriminate).
  assert (Htok : authToken (refs Sample.ready) ≠ "")
    by (vm_compute; discriminate).
  split; [exact Hsel|]. split; [exact Htok|].
  exact (fetch_shows_loading Sample.new_york Sample.no_legacy Sample.upstream
           Sample.ready Hsel Htok).
Defined.

End TallyFacts.

(** ** The table: sorted, then filtered, then grouped *)

Module TableFacts.

Import View Spec Terms.

Local Open Scope Z_scope.

Lemma StronglySorted_sublist {A} (R : relation A) l1 l2 :
  sublist l1 l2 → StronglySorted R l2 → StronglySorted R l1.
Proof.
  induction 1 as [|x l1 l2 Hsub IH|x l1 l2 Hsub IH]; intros Hs.
  - constructor.
  - apply StronglySorted_inv in Hs as [Hs Hx].
    constructor; [by apply IH|].
    rewrite Forall_forall in Hx |- *. intros y Hy. apply Hx.
    by eapply elem_of_sublist.
  - apply StronglySorted_inv in Hs as [Hs _]. by apply IH.
Qed.

Section Table.

Variable LocalTZA : Z → bool → Z.
Variable legacyParse : string → option Z.

Local Abbreviation flatten := (View.flatten LocalTZA legacyParse).
Local Abbreviation allChanges := (View.allChanges LocalTZA legacyParse).
Local Abbreviation filteredChanges :=
  (View.filteredChanges LocalTZA legacyParse).

Lemma filteredChanges_sublist rows source destination start stop :
  sublist (filteredChanges rows source destination start stop) rows.
Proof.
  unfold View.filteredChanges. cbv zeta.
  rewrite 4!ViewFacts.filter_if, 3!list_filter_filter.
  apply sublist_filter.
Qed.

(** The filters and the grouping never reorder, whatever the dates are.
    The rows that pass the filters are rows of the sorted list, in its
    order; the grouping returns, and the changes of every group are rows
    that passed, in their order.  So when every row has a valid date, the
    rows shown, and the rows of each player, run in the direction of the
    sort. *)
Theorem table_keeps_order players sortOrder source destination start stop :
  sublist (filteredChanges (allChanges players sortOrder)
                           source destination start stop)
          (allChanges players sortOrder)
  ∧ (∃ groups,
       groupedChanges (filteredChanges (allChanges players sortOrder)
                                       source destination start stop)
       = Some groups
       ∧ Forall (λ g,
                   sublist (changes g)
                     (filteredChanges (allChanges players sortOrder)
                                      source destination start stop))
                groups
       ∧ (Forall valid (flatten players) →
          Forall (λ g, StronglySorted (in_order sortOrder) (changes g))
                 groups))
  ∧ (Forall valid (flatten players) →
     StronglySorted (in_order sortOrder)
       (filteredChanges (allChanges players sortOrder)
                        source destination start stop)).
Proof.
  set (rows := filteredChanges (allChanges players sortOrder)
                               source destination start stop).
  assert (Hsub : sublist rows (allChanges players sortOrder))
    by apply filteredChanges_sublist.
  assert (Hsorted : Forall valid (flatten players) →
                    StronglySorted (in_order sortOrder) rows).
  { intros Hvalid. eapply StronglySorted_sublist; [exact Hsub|].
    unfold View.allChanges.
    pose proof (ViewFacts.sort_dates_sorted sortOrder (flatten players)
                  Hvalid) as Hs.
    by destruct sortOrder. }
  split; [exact Hsub|]. split; [|exact Hsorted].
  rewrite ViewFacts.groupedChanges_eq. eexists. split; [reflexivity|].
  assert (Hg : ∀ u, sublist (rows_of u rows) rows)
    by (intros u; apply sublist_filter).
  split.
  - apply Forall_fmap, Forall_forall. intros u _. apply Hg.
  - intros Hvalid. apply Forall_fmap, Forall_forall. intros u _. simpl.
    eapply StronglySorted_sublist; [apply Hg|by apply Hsorted].
Qed.

End Table.

(** The table of a player with three dated changes, newest first, no
    filter set. *)
Lemma table_keeps_order_witness :
  Forall valid (View.flatten Sample.utc Sample.no_legacy [Cases.alice])
  ∧ StronglySorted (in_order desc)
      (View.filteredChanges Sample.utc Sample.no_legacy
         (View.allChanges Sample.utc Sample.no_legacy [Cases.alice] desc)
         "" "" "" "").
Proof.
  assert (Hvalid : Forall valid
    (View.flatten Sample.utc Sample.no_legacy [Cases.alice])).
  { vm_compute. repeat (constructor; [eexists; reflexivity|]). constructor. }
  split; [exact Hvalid|].
  exact (proj2 (proj2 (table_keeps_order Sample.utc Sample.no_legacy
                         [Cases.alice] desc "" "" "" "")) Hvalid).
Defined.

End TableFacts.
